(* ===== verification/_CoqProject ===== *)
-Q . S2P
Prelude.v
CArith.v
Heap.v
Scanf.v
Binary.v
Printf.v
RealArith.v
Equation.v
RungeKutta.v
RK4Real.v
RK4Error.v
Main.v
Safety.v
MainReal.v
RK4Float.v
Transcript.v
RKLoop.v
