(* ===== verification/Prelude.v ===== *)
(** * A verification development for [src/runge.c]

    ** The program

    [runge.c] solves [a*y' + b*y = g(x)], [g(x) = sum c_i * x^p_i], by the
    classical fourth-order Runge-Kutta method.  Its parts:
    - [struct EQUATION] (the [int] coefficients [a] = [y_prime_coefficient]
      and [b] = [y_coefficient], the term count and two arrays);
    - [calculate_gx] (the sum of [c_i * pow(t, p_i)] in a [float]
      accumulator) and [calculateDerivative] ([(g(x) - b*y)/a], or an
      error on [stderr] and [exit(EXIT_FAILURE)] when [a == 0]);
    - [rungeKutta] (direction of the step, [int] iteration count, a loop
      printing the state then applying one RK4 step), the core;
    - [printEquation], [printAbsoluteError] and [main] (prompts, [scanf],
      [malloc]/[free], printing), the I/O around the core.
    [main] builds the equation, calls [rungeKutta], which calls
    [calculateDerivative] four times per step, which calls [calculate_gx].

    ** The files

    - [Prelude.v] (this file): the C runtime as a monad [M]: a [world]
      (input still to be read by [scanf], events written, [malloc]
      answers) threaded through a computation whose [outcome] is [Normal],
      [Exit code] or [Undefined] (undefined behaviour).  [c_for] is
      [for (i = 0; i < n; i++)].  [writes m es r] says that [m] appends
      exactly the events [es] and ends with [r], in every world; loops whose
      body only writes are characterised by [loop_state]/[loop_events].
      [obeys m Pev Pnorm Pexit] is a Hoare-style specification of whole
      runs (every event written satisfies [Pev], a normal end [Pnorm], an
      [exit] status [Pexit]) with its rules and the tactic [obeys_run];
      [star] is a transition sequence (after Leroy's [Sequences]), with
      [star_invariant] for invariants proved by rule induction.
      [replay] runs a partial state machine over the events of a run and
      [hoare m P Q Qx] specifies runs against it (rules [hoare_bind],
      [hoare_bind_emit], [hoare_bind_neutral], the last one lifting an
      [obeys] fact about a computation whose events the machine ignores).
    - [CArith.v]: the interface [CArith] between the program and C
      arithmetic ([float] = [f32], [double] = [f64], conversions, [pow],
      [fabs], the [(int)] cast that may be undefined) and the events
      ([printf] with its format and promoted arguments, [perror], and the
      allocator calls [Malloc b size granted] and [Free b] on the three
      [block]s of the program).  Every
      definition modelling code is generic over this class.  The input of a
      run is the list of words of the text typed ([CM] reads strings).
    - [Heap.v]: the allocator's contract as a machine [heap_step] on the
      [Malloc]/[Free] events (the list of live blocks; [free] of a block
      not live is forbidden), the same contract as the rules
      [heap_trace], and the proof that [heap_replay] decides them.
    - [Scanf.v]: [scanf]'s [%d] and [%f] as automata over characters
      ([d_step], [f_step], C99 7.19.6.2: the longest prefix of a matching
      sequence, decimal, exponent, hexadecimal, [inf], [nan]), [strtof] of
      what [%f] read ([f32_of_fnum]), the printer [int_word] of [%d], the
      words of a text, and the lemmas that the conversions read back what
      is written and agree on a text and on its words.
    - [Binary.v]: the IEEE instance, binary32/binary64 on Stdlib's
      [SpecFloat] (correctly rounded, ties to even, [FLT_EVAL_METHOD] 0),
      [pow] per C11 Annex F and correctly rounded, [scanf("%f")] rounding
      the decimal or hexadecimal once.  Executable: runs are evaluated by
      [vm_compute].
    - [Printf.v]: the text [printf] writes in binary64: [%d], [%s] and
      [%f]/[%lf] correctly rounded to six decimals as glibc writes them,
      the formats' [\n] escape, and [stdout_text], the standard output of a
      run.
    - [RealArith.v]: the exact instance on [R], the mathematical meaning.
    - [Equation.v]: [EQUATION], [calculate_gx] (an index loop; a read past
      an array is [None]), [calculateDerivative], [printEquation].
    - [RungeKutta.v]: [rungeKutta] over an abstract derivative (Section
      [Integrator]), instantiated with [calculateDerivative].
    - [RK4Real.v]: the textbook RK4 method [rk4] as the abstract
      specification, the refinement theorem, and what RK4 does on the
      linear family (stability polynomial, Simpson's rule, contraction).
    - [RK4Error.v]: the exact solution of [a*y' + b*y = 0] and the error
      of [rungeKutta] against it (mean value theorem on [R]).
    - [Main.v]: [main] and [printAbsoluteError] as one [CM] computation in
      program order: [malloc] answers from the world (the sizes with the
      [int]-to-[size_t] wrap in [alloc_size]) and is recorded with its
      block, size and answer, [free] is recorded with its block, [scanf]
      is [scan_int] and [scan_float], the conversions of [Scanf.v] on the next input word
      (what is left of the word is read next, so [%d] on [2.5] leaves
      [.5]; a variable a conversion did not set is undefined at its first
      use, [force]), the term loop
      [read_term], then [solve_and_report]; [io m ins hs es r]
      says that [m] reads [ins], uses the allocator answers [hs], writes
      [es] and ends with [r] whatever follows in the world, and
      [returns m P] that the value of every normal end satisfies [P].
    - [RK4Float.v]: binary32: a step lost to rounding, the undefined
      cast for [h = 0], the no-op run; the checks at fixed inputs; the
      witnesses of the generic theorems, runs of [main] included.
    - [Transcript.v]: the complete standard output of a run of [main] on
      typed text, in binary32/binary64.
    - [RKLoop.v]: the [for] loop of [rungeKutta] as a small-step machine
      [loop_step] over the locals [i], [current_x], [y] and the world, one
      step per test of [i < n], and its invariant.
    - [MainReal.v]: [main] on the real instance, composed with the
      refinement of [rungeKutta].
    - [Safety.v]: [printf]'s typing contract (the conversions of a format
      against the promoted arguments), the [obeys] specification of
      every function of the program, up to [main], and [main] replayed
      against the heap with [hoare] (the tactic [heap_run]).

    ** The theorems (the properties C1 to C30)

    - Refinement (C1): on [R] [rungeKutta] computes RK4 exactly and prints
      its iterates.  Functional behaviour in any arithmetic (C2): the
      output is the header and one pre-step snapshot per iteration,
      [max n 0] of them, no partial step.  The loop as a transition
      system (C29): every state reachable from the loop's entry holds the
      [i]-th RK4 iterate and the [i] trace lines printed so far, an
      invariant proved by rule induction on [loop_step].
    - Numerics on [R] (C3, C4, C12, C13): [y_n = R(z)^n y0] on the
      homogeneous equation with [R] the degree-4 Taylor polynomial of
      [exp]; exact integration of cubic [g] when [b = 0]; perturbations of
      [y0] scale by [R(z)^n] and do not grow when [-2 <= z <= 0],
      [z = -h*b/a].
    - Accuracy on [R] (C24, C25): on the homogeneous equation with
      [-2 <= z <= 0] the returned value is within
      [|y0| * (n*|h|) * |b/a|^5 * h^4 / 24] of the exact solution at the
      point the loop reaches; on [a*y' = c*x^4] the error is exactly
      [n*c*h^5/(120a)]: a method of order exactly four.
    - Error paths (C5, C9): exit on [a = 0] after one trace line; an
      undefined cast for [h = 0], for every start, target and equation.
    - Iteration count (C7, C8, C23): [floor(|x_target - x0|/h)] for
      [h > 0] in exact arithmetic, the loop stopping less than a step
      short of the target; no step at all for [h < 0]; one step fewer than
      the decimal quotient for [1.3 / 0.1] in binary32, for every
      equation; no step and [y0] returned when the target is the starting
      point.
    - [calculate_gx] (C10, C11): equal to the fold of its terms, in bounds
      exactly when the arrays hold [gx_term_count] elements; [printEquation]
      (C14) renders the terms in order with their separators.
    - [main] (C15 to C22, C26, C30): a complete run from the input words
      to the transcript and the return value [0], with [rungeKutta]'s
      output in the middle (C15), and the same run in exact arithmetic
      printing the textbook RK4 value and its error (C16, composing C15's
      run lemma with C1's); an allocation failure of a term array
      ([perror], return [1], both arrays requested before either is
      tested), which frees the equation and leaks the array that was
      granted (C17); a negative count accepted (no term read, [g = 0],
      C18); a non-numeric count making the run undefined (C19); a count
      answered as an [int] followed by other text ([2.5]) read as the
      [int], the rest becoming the next answer (C20); a zero [y']
      coefficient accepted when no step runs (return [0], C21) and
      reported from inside the integration otherwise (exit [1] after one
      trace line, C22); the arrays the term loop fills always have the
      declared length (C26, an invariant proved with the
      partial-correctness predicate [returns]); the sizes asked of
      [malloc], [4 * count] or, for a negative count, [2^64 + 4 * count]
      (C30).
    - Run safety (C6, C27, C28): no run of [main], on any input and any
      [malloc] answers, frees a block that is not allocated, a run
      returning [0] leaks nothing and one returning [1] at most one term
      array; every [printf]/[fprintf] call is well typed; a run returns
      [0] or [1] or exits with [EXIT_FAILURE], nothing else.

    ** Supporting lemmas and executable checks

    The library models are related to their specifications by lemmas that
    are not properties of [runge.c]: the words model of the input is exact
    against [scanf] on the text ([Main.scanf_words_exact]); [%d] reads back
    what [%d] writes and [%f] a decimal written with an exponent
    ([Main.scanf_roundtrip]); what [%f] writes for a finite [double] reads
    back within [5 * 10^-7] of it ([Printf.printf_f_roundtrip]).  The
    [Example]s of [RK4Float.v] and [Transcript.v] are evaluations of the
    model at fixed inputs, kept as regression checks of the findings: the
    specification's check run [y' + y = 0], [h = 0.01], bit for bit in
    binary32, whose [x] drifts from [x0 + i*h] and whose printed text
    shows the drift from the 85th trace line ([f(0.839999)=...]) and the
    result [0.367880]; an [int] overflow of the count for [h = 1e-10]; a
    NaN result from a pole of [g]; the [float] accumulator overflowing on
    terms that cancel in [double]; the run on the answer [2.5] for the
    term count.

    ** Bounds and fuel

    No fuel is needed: every loop of the program runs a number of times
    fixed before it starts ([Z.to_nat n] for an [int] [n]), so every model
    is a structural [Fixpoint] and total; the automata of [scanf] read
    a word structurally, and the printer [nat_text] of [Scanf.v] is given
    the binary length of its number as fuel, which bounds its decimal
    digits ([nat_text_fuel]).  The [int] bounds are
    [INT_MIN = -2^31], [INT_MAX = 2^31 - 1].  [pow] on binary64 computes the
    exact power only when it is not far outside the exponent range (an
    overflow or underflow is decided from the exponents first).

    ** Not modelled

    - The addresses [malloc] returns and the bytes of the blocks: the
      program never compares, prints or does arithmetic on a pointer, so
      the heap is the set of live blocks, which is all [free]'s contract
      depends on; the values stored are the model's variables.
    - Uninitialised memory: C gives an indeterminate value no contents to
      model; a variable never assigned is undefined at its first use,
      which makes the whole run undefined.  For [int] and [float], which
      have no trap representation on the target, C11 arguably gives only
      an unspecified value: the model is then more pessimistic than C,
      the safety theorems (C6, C27, C28) constrain fewer runs, and C19
      rests on this choice.
    - The text [perror] appends (the message for [errno], which the C
      standard leaves to the implementation) and the text of [stderr]:
      the events keep the message and the format.
    - The sign of a NaN printed by [%f] ([spec_float] has no NaN sign),
      the text printed on [R] (rendered for binary64 only), [scanf]'s
      locale (the "C" locale is assumed).
    - The library's own rounding of [pow]: C11 does not require [pow] to
      be correctly rounded, and the model takes the exact power rounded
      once, so the binary32 runs are those of a correctly rounded [pow].
    - The error bound of C24 is proved for the homogeneous equation only;
      with a forcing term [g] and [b = 0] the error is known exactly for
      powers up to [4] (C4, C25), and no general error bound is stated.
      Rounding errors of the binary32 runs are not bounded in general.
    - [scanf("%f")] of a number outside [float]'s range: C leaves the
      result undefined; the model stores the infinity glibc's [strtof]
      returns. *)

From Stdlib Require Import ZArith List Lia Setoid Morphisms.
Import ListNotations.

(** * Outcomes and the C-runtime monad

    A C function either returns normally, terminates the process through
    [exit] (the [Exit] outcome, with its status), or executes an operation
    whose behaviour the C standard leaves undefined ([Undefined]).  The
    world threads the input that [scanf] still has to read, the events
    written so far (to [stdout], to [stderr]) and the answers of [malloc]. *)

Inductive outcome (A : Type) : Type :=
  | Normal (a : A)
  | Exit (code : Z)
  | Undefined.
Arguments Normal {A} a.
Arguments Exit {A} code.
Arguments Undefined {A}.

Record world (I E : Type) := mkWorld {
  w_input : list I;
  w_output : list E;
  w_heap : list bool
}.
Arguments mkWorld {I E} w_input w_output w_heap.
Arguments w_input {I E} w.
Arguments w_output {I E} w.
Arguments w_heap {I E} w.

Declare Scope cprog_scope.
Delimit Scope cprog_scope with cprog.

Section Monad.
Context {I E : Type}.

Definition M (A : Type) : Type := world I E -> world I E * outcome A.

Definition ret {A} (a : A) : M A := fun w => (w, Normal a).

Definition bind {A B} (m : M A) (k : A -> M B) : M B := fun w =>
  match m w with
  | (w', Normal a) => k a w'
  | (w', Exit c) => (w', Exit c)
  | (w', Undefined) => (w', Undefined)
  end.

(** [out_app w es]: the world [w] after the events [es] were written. *)
Definition out_app (w : world I E) (es : list E) : world I E :=
  mkWorld (w_input w) (w_output w ++ es) (w_heap w).

Definition emit (e : E) : M unit := fun w => (out_app w [e], Normal tt).

Definition c_exit {A} (code : Z) : M A := fun w => (w, Exit code).

Definition undefined {A} : M A := fun w => (w, Undefined).

(** [scanf] with one conversion: [f] reads a prefix of the next input
    item and gives the value, or [None] on a matching failure, and what
    is left of the item, which stays at the front of the input.  When the
    input is exhausted nothing is read and nothing is stored ([None]). *)
Definition scan_item {A} (f : I -> option A * list I) : M (option A) := fun w =>
  match w_input w with
  | i :: rest =>
      let '(r, leftover) := f i in
      (mkWorld (leftover ++ rest) (w_output w) (w_heap w), Normal r)
  | [] => (w, Normal None)
  end.

Lemma scan_item_ext {A} (f g : I -> option A * list I) w :
  (forall i, f i = g i) -> scan_item f w = scan_item g w.
Proof. intros H; unfold scan_item; destruct (w_input w) as [|i rest]; [reflexivity | rewrite H; reflexivity]. Qed.

(** [malloc] succeeds or returns [NULL] as the environment decides; once the
    list of decisions is exhausted every allocation succeeds. *)
Definition malloc_ok : M bool := fun w =>
  match w_heap w with
  | [] => (w, Normal true)
  | b :: rest => (mkWorld (w_input w) (w_output w) rest, Normal b)
  end.

(** Every element present, or [None]. *)
Fixpoint all_some {A} (l : list (option A)) : option (list A) :=
  match l with
  | [] => Some []
  | None :: _ => None
  | Some a :: rest => match all_some rest with Some l' => Some (a :: l') | None => None end
  end.

(** Lifting a partial pure computation: [None] is undefined behaviour. *)
Definition of_option {A} (o : option A) : M A :=
  match o with Some a => ret a | None => undefined end.

(** [for (i = 0; i < n; i++) body]: the loop counter is an [int], a
    non-positive bound runs the body zero times. *)
Fixpoint c_for_aux {St} (k : nat) (i : Z) (body : Z -> St -> M St) (s : St) : M St :=
  match k with
  | O => ret s
  | S k' => bind (body i s) (fun s' => c_for_aux k' (Z.succ i) body s')
  end.

Definition c_for {St} (n : Z) (body : Z -> St -> M St) (s : St) : M St :=
  c_for_aux (Z.to_nat n) 0 body s.

(** Two computations are equivalent when they agree on every world. *)
Definition meq {A} (m1 m2 : M A) : Prop := forall w, m1 w = m2 w.

End Monad.

Notation "x <- m ;; k" := (bind m (fun x => k))
  (at level 61, m at next level, right associativity) : cprog_scope.
Notation "' p <- m ;; k" := (bind m (fun x => match x with p => k end))
  (at level 61, p pattern, m at next level, right associativity) : cprog_scope.
Notation "m ;; k" := (bind m (fun _ : unit => k))
  (at level 61, right associativity) : cprog_scope.
Notation "m1 =M= m2" := (meq m1 m2) (at level 70, no associativity) : cprog_scope.

Open Scope cprog_scope.

(** * Monad laws, up to [=M=] *)

Create HintDb cprog.
Create Rewrite HintDb cprog_rw.

Section MonadLaws.
Context {I E : Type}.
Local Abbreviation M := (@M I E).

#[export] Instance meq_equiv {A} : Equivalence (@meq I E A).
Proof.
  split.
  - intros m w; reflexivity.
  - intros m1 m2 H w; symmetry; apply H.
  - intros m1 m2 m3 H1 H2 w; rewrite H1; apply H2.
Qed.

#[export] Instance bind_proper {A B} :
  Proper (meq ==> pointwise_relation A meq ==> meq) (@bind I E A B).
Proof.
  intros m1 m2 Hm k1 k2 Hk w; unfold bind; rewrite Hm.
  destruct (m2 w) as [w' [a| |]]; [apply Hk|reflexivity|reflexivity].
Qed.

Lemma bind_ret_l {A B} (a : A) (k : A -> M B) : bind (ret a) k = k a.
Proof. reflexivity. Qed.

Lemma bind_ret_r {A} (m : M A) : bind m ret =M= m.
Proof. intros w; unfold bind, ret; destruct (m w) as [w' [a| |]]; reflexivity. Qed.

Lemma bind_assoc {A B C} (m : M A) (f : A -> M B) (g : B -> M C) :
  bind (bind m f) g =M= bind m (fun a => bind (f a) g).
Proof. intros w; unfold bind; destruct (m w) as [w' [a| |]]; reflexivity. Qed.

Lemma bind_exit {A B} (c : Z) (k : A -> M B) : bind (c_exit c) k = c_exit c.
Proof. reflexivity. Qed.

Lemma bind_undefined {A B} (k : A -> M B) : bind undefined k = undefined.
Proof. reflexivity. Qed.

Lemma out_app_nil (w : world I E) : out_app w [] = w.
Proof. destruct w; unfold out_app; simpl; rewrite app_nil_r; reflexivity. Qed.

Lemma out_app_app (w : world I E) (es1 es2 : list E) :
  out_app (out_app w es1) es2 = out_app w (es1 ++ es2).
Proof. unfold out_app; simpl; rewrite app_assoc; reflexivity. Qed.

Lemma w_output_out_app (w : world I E) es : w_output (out_app w es) = w_output w ++ es.
Proof. reflexivity. Qed.

(** A computation that only writes [es] and returns [a]. *)
Definition writes {A} (m : M A) (es : list E) (r : outcome A) : Prop :=
  forall w, m w = (out_app w es, r).

Lemma writes_ret {A} (a : A) : writes (ret a) [] (Normal a).
Proof. intros w; rewrite out_app_nil; reflexivity. Qed.

Lemma writes_emit (e : E) : writes (emit e) [e] (Normal tt).
Proof. intros w; reflexivity. Qed.

Lemma writes_exit {A} (c : Z) : writes (@c_exit I E A c) [] (Exit c).
Proof. intros w; rewrite out_app_nil; reflexivity. Qed.

Lemma writes_undefined {A} : writes (@undefined I E A) [] Undefined.
Proof. intros w; rewrite out_app_nil; reflexivity. Qed.

Lemma writes_bind {A B} (m : M A) (k : A -> M B) es1 a es2 r :
  writes m es1 (Normal a) -> writes (k a) es2 r -> writes (bind m k) (es1 ++ es2) r.
Proof. intros H1 H2 w; unfold bind; rewrite H1, H2, out_app_app; reflexivity. Qed.

Lemma writes_bind_eq {A B} (m : M A) (k : A -> M B) es1 a es2 r es :
  writes m es1 (Normal a) -> writes (k a) es2 r -> es = es1 ++ es2 -> writes (bind m k) es r.
Proof. intros H1 H2 ->; eapply writes_bind; eassumption. Qed.

Lemma writes_bind_stop {A B} (m : M A) (k : A -> M B) es r :
  writes m es r -> (forall a, r <> Normal a) ->
  writes (bind m k) es (match r with Exit c => Exit c | _ => Undefined end).
Proof.
  intros H1 Hn w; unfold bind; rewrite H1.
  destruct r as [a|c|]; [exfalso; eapply Hn; reflexivity| reflexivity | reflexivity].
Qed.

Lemma writes_meq {A} (m1 m2 : M A) es r : m1 =M= m2 -> writes m2 es r -> writes m1 es r.
Proof. intros He H w; rewrite He; apply H. Qed.

Lemma writes_fun {A} (m : M A) es1 es2 r1 r2 :
  writes m es1 r1 -> writes m es2 r2 -> es1 = es2 /\ r1 = r2.
Proof.
  intros H1 H2. pose (w := @mkWorld I E [] [] []).
  specialize (H1 w); specialize (H2 w); rewrite H1 in H2; injection H2 as He Hr.
  split; [exact He|exact Hr].
Qed.

(** * The [for] loop *)

Lemma c_for_aux_succ {St} k i (body : Z -> St -> M St) s :
  c_for_aux (S k) i body s = bind (body i s) (fun s' => c_for_aux k (Z.succ i) body s').
Proof. reflexivity. Qed.

Lemma c_for_nonpos {St} (n : Z) (body : Z -> St -> M St) s :
  (n <= 0)%Z -> c_for n body s = ret s.
Proof. intros Hn; unfold c_for; replace (Z.to_nat n) with O by lia; reflexivity. Qed.

End MonadLaws.

#[export] Hint Resolve writes_ret writes_emit writes_exit writes_undefined : cprog.
#[export] Hint Rewrite @bind_ret_l @bind_exit @bind_undefined @out_app_app : cprog_rw.

(** * Loops whose body only writes and updates a state

    [loop_state] and [loop_events] are the state after [k] iterations of a
    body that, at counter [i] and state [s], writes [ev i s] and moves to
    [step i s]; [c_for_aux_writes] says a [for] loop with such a body is
    exactly that. *)

Section PureLoops.
Context {I E St : Type}.
Variable step : Z -> St -> St.
Variable ev : Z -> St -> list E.

Fixpoint loop_state (k : nat) (i : Z) (s : St) : St :=
  match k with
  | O => s
  | S k' => loop_state k' (Z.succ i) (step i s)
  end.

Fixpoint loop_events (k : nat) (i : Z) (s : St) : list E :=
  match k with
  | O => []
  | S k' => ev i s ++ loop_events k' (Z.succ i) (step i s)
  end.

Lemma c_for_aux_writes (body : Z -> St -> @M I E St) k i s :
  (forall j s0, (i <= j < i + Z.of_nat k)%Z -> writes (body j s0) (ev j s0) (Normal (step j s0))) ->
  writes (c_for_aux k i body s) (loop_events k i s) (Normal (loop_state k i s)).
Proof.
  revert i s; induction k as [|k IH]; intros i s Hb; simpl.
  - apply writes_ret.
  - eapply writes_bind; [apply Hb; lia|].
    apply IH; intros j s0 Hj; apply Hb; lia.
Qed.

Lemma loop_state_succ k i s : loop_state (S k) i s = step (Z.of_nat k + i)%Z (loop_state k i s).
Proof.
  revert i s; induction k as [|k IH]; intros i s; [reflexivity|].
  change (loop_state (S (S k)) i s) with (loop_state (S k) (Z.succ i) (step i s)).
  rewrite IH; cbn [loop_state]; f_equal; lia.
Qed.

Lemma loop_events_succ k i s :
  loop_events (S k) i s = loop_events k i s ++ ev (Z.of_nat k + i)%Z (loop_state k i s).
Proof.
  revert i s; induction k as [|k IH]; intros i s.
  - simpl; rewrite !app_nil_r; f_equal; lia.
  - change (loop_events (S (S k)) i s) with (ev i s ++ loop_events (S k) (Z.succ i) (step i s)).
    rewrite IH; cbn [loop_events loop_state]; rewrite app_assoc; do 2 f_equal; lia.
Qed.

End PureLoops.

Lemma loop_events_single_map {E St} (step : Z -> St -> St) (g : Z -> St -> E) k i s :
  loop_events step (fun i s => [g i s]) k i s
  = map (fun j => g (i + Z.of_nat j)%Z (loop_state step j i s)) (seq 0 k).
Proof.
  revert i s; induction k as [|k IH]; intros i s; [reflexivity|].
  cbn [loop_events seq map app]; rewrite Z.add_0_r, IH, <- seq_shift, map_map.
  f_equal; apply map_ext; intros j; f_equal; lia.
Qed.

(** A body whose events do not depend on the state. *)
Lemma loop_events_indep {E St} (step : Z -> St -> St) (f : Z -> list E) k i s :
  loop_events step (fun i _ => f i) k i s = flat_map (fun j => f (i + Z.of_nat j)%Z) (seq 0 k).
Proof.
  revert i s; induction k as [|k IH]; intros i s; [reflexivity|].
  cbn [loop_events seq flat_map]; rewrite Z.add_0_r, IH, <- seq_shift, flat_map_concat_map,
    flat_map_concat_map, map_map.
  do 2 f_equal; apply map_ext; intros j; f_equal; lia.
Qed.

(** Reading a list through its indices. *)
Lemma flat_map_nth_seq {A B} (g : A -> list B) (l : list A) (d : A) :
  flat_map (fun j => g (nth j l d)) (seq 0 (length l)) = flat_map g l.
Proof.
  induction l as [|a l IH]; [reflexivity|].
  cbn [length seq flat_map nth]; rewrite <- IH, <- seq_shift, !flat_map_concat_map, map_map.
  reflexivity.
Qed.

(** A body that writes the same number of events at every iteration. *)
Lemma length_loop_events {E St} (step : Z -> St -> St) (ev : Z -> St -> list E) c k i s :
  (forall j s0, length (ev j s0) = c) -> length (loop_events step ev k i s) = (k * c)%nat.
Proof.
  intros Hc; revert i s; induction k as [|k IH]; intros i s; simpl; [reflexivity|].
  rewrite length_app, Hc, IH; reflexivity.
Qed.

(** [wstep] runs one [bind] whose first computation is described by a
    [writes] fact found by [H]. *)
Ltac wstep H := eapply writes_bind_eq; [solve [H] | | ].

(** [wskip] runs one [bind] whose first computation is a [return], a
    [printf] or an [exit] (the [cprog] hints), the events concatenated. *)
Ltac wskip := eapply writes_bind_eq; [solve [eauto with cprog] | | reflexivity].

(** An equation between closed terms decided by the virtual machine,
    without normalising the types (whose instance arguments hold the
    arithmetic's functions). *)
Ltac vm_refl := match goal with |- ?a = ?b => exact (@eq_refl _ a <: a = b) end.

(** * Runs that read input and allocate

    [io m ins hs es r]: from any world whose input starts with [ins] and
    whose next [malloc] answers are [hs], [m] reads exactly [ins], uses
    exactly the answers [hs], appends [es] to the output and ends with [r]. *)

Section IO.
Context {I E : Type}.

Definition io {A} (m : @M I E A) (ins : list I) (hs : list bool) (es : list E) (r : outcome A)
  : Prop :=
  forall rest out hrest,
    m (mkWorld (ins ++ rest) out (hs ++ hrest)) = (mkWorld rest (out ++ es) hrest, r).

Lemma writes_io {A} (m : @M I E A) es r : writes m es r -> io m [] [] es r.
Proof. intros H rest out hrest; rewrite H; reflexivity. Qed.

Lemma io_bind {A B} (m : @M I E A) (k : A -> @M I E B) ins1 hs1 es1 a ins2 hs2 es2 r :
  io m ins1 hs1 es1 (Normal a) -> io (k a) ins2 hs2 es2 r ->
  io (bind m k) (ins1 ++ ins2) (hs1 ++ hs2) (es1 ++ es2) r.
Proof.
  intros H1 H2 rest out hrest; unfold bind.
  rewrite <- !app_assoc, H1, H2, app_assoc; reflexivity.
Qed.

Lemma io_bind_eq {A B} (m : @M I E A) (k : A -> @M I E B) ins1 hs1 es1 a ins2 hs2 es2 r ins hs es :
  io m ins1 hs1 es1 (Normal a) -> io (k a) ins2 hs2 es2 r ->
  ins = ins1 ++ ins2 -> hs = hs1 ++ hs2 -> es = es1 ++ es2 -> io (bind m k) ins hs es r.
Proof. intros H1 H2 -> -> ->; eapply io_bind; eassumption. Qed.

Lemma io_bind_stop {A B} (m : @M I E A) (k : A -> @M I E B) ins hs es r :
  io m ins hs es r -> (forall a, r <> Normal a) ->
  io (bind m k) ins hs es (match r with Exit c => Exit c | _ => Undefined end).
Proof.
  intros H Hn rest out hrest; unfold bind; rewrite H.
  destruct r as [a|c|]; [exfalso; eapply Hn; reflexivity | reflexivity | reflexivity].
Qed.

Lemma io_scan {A} (f : I -> option A * list I) i a :
  f i = (Some a, []) -> io (scan_item f) [i] [] [] (Normal (Some a)).
Proof. intros Hf rest out hrest; unfold scan_item; simpl; rewrite Hf, app_nil_r; reflexivity. Qed.

Lemma io_malloc (b : bool) : io (@malloc_ok I E) [] [b] [] (Normal b).
Proof. intros rest out hrest; unfold malloc_ok; simpl; rewrite app_nil_r; reflexivity. Qed.

Lemma io_app_nil {A} (m : @M I E A) ins hs es r : io m ins hs es r -> io m ins hs (es ++ []) r.
Proof. rewrite app_nil_r; exact id. Qed.

Lemma io_fun {A} (m : @M I E A) ins hs es1 es2 r1 r2 :
  io m ins hs es1 r1 -> io m ins hs es2 r2 -> es1 = es2 /\ r1 = r2.
Proof.
  intros H1 H2; specialize (H1 [] [] []); specialize (H2 [] [] []).
  rewrite H1 in H2; injection H2 as He Hr; split; [exact He | exact Hr].
Qed.

Lemma c_for_aux_io {St} (body : Z -> St -> @M I E St) (step : Z -> St -> St)
    (ins : Z -> St -> list I) (hs : Z -> St -> list bool) (ev : Z -> St -> list E) k i s :
  (forall j s0, (i <= j < i + Z.of_nat k)%Z ->
     io (body j s0) (ins j s0) (hs j s0) (ev j s0) (Normal (step j s0))) ->
  io (c_for_aux k i body s) (loop_events step ins k i s) (loop_events step hs k i s)
     (loop_events step ev k i s) (Normal (loop_state step k i s)).
Proof.
  revert i s; induction k as [|k IH]; intros i s Hb; simpl.
  - intros rest out hrest; simpl; rewrite app_nil_r; reflexivity.
  - eapply io_bind; [apply Hb; lia|].
    apply IH; intros j s0 Hj; apply Hb; lia.
Qed.

Lemma all_some_length {A} (l : list (option A)) l' : all_some l = Some l' -> length l' = length l.
Proof.
  revert l'; induction l as [|[a|] l IH]; intros l' H; simpl in H; [injection H as <-; reflexivity | |discriminate].
  destruct (all_some l) as [l1|] eqn:Hl; [injection H as <-; simpl; f_equal; apply IH; reflexivity | discriminate].
Qed.

Lemma all_some_map {A B} (f : A -> B) (l : list A) :
  all_some (map (fun x => Some (f x)) l) = Some (map f l).
Proof. induction l as [|a l IH]; simpl; [reflexivity | rewrite IH; reflexivity]. Qed.

End IO.

(** ** Partial correctness: what holds of the value a computation returns *)

Section Returns.
Context {I E : Type}.

(** [returns m P]: whenever [m] ends normally, its value satisfies [P]
    (exits and undefined behaviour are not constrained). *)
Definition returns {A} (m : @M I E A) (P : A -> Prop) : Prop :=
  forall w w' a, m w = (w', Normal a) -> P a.

Lemma returns_ret {A} (a : A) (P : A -> Prop) : P a -> returns (ret a) P.
Proof. intros Ha w w' a' H; injection H as _ <-; exact Ha. Qed.

Lemma returns_true {A} (m : @M I E A) : returns m (fun _ => True).
Proof. intros w w' a _; exact Logic.I. Qed.

Lemma returns_undefined {A} (P : A -> Prop) : returns (@undefined I E A) P.
Proof. intros w w' a H; discriminate H. Qed.

Lemma returns_bind {A B} (m : @M I E A) (k : A -> @M I E B) P Q :
  returns m P -> (forall a, P a -> returns (k a) Q) -> returns (bind m k) Q.
Proof.
  intros Hm Hk w w' b; unfold bind.
  destruct (m w) as [w1 [a| |]] eqn:Hw; try discriminate.
  apply (Hk a (Hm _ _ _ Hw)).
Qed.

Lemma returns_weaken {A} (m : @M I E A) (P Q : A -> Prop) :
  returns m P -> (forall a, P a -> Q a) -> returns m Q.
Proof. intros Hm HPQ w w' a H; exact (HPQ a (Hm _ _ _ H)). Qed.

(** A loop invariant indexed by the number of iterations done. *)
Lemma returns_c_for_aux {St} (body : Z -> St -> @M I E St) (Inv : nat -> St -> Prop) k i s :
  (forall j s0, (j < k)%nat -> Inv j s0 -> returns (body (i + Z.of_nat j)%Z s0) (Inv (S j))) ->
  Inv O s -> returns (c_for_aux k i body s) (Inv k).
Proof.
  revert i s Inv; induction k as [|k IH]; intros i s Inv Hb Hs; simpl.
  - apply returns_ret, Hs.
  - eapply returns_bind; [rewrite <- (Z.add_0_r i); exact (Hb O s ltac:(lia) Hs)|].
    intros s1 Hs1; apply (IH (Z.succ i) s1 (fun j => Inv (S j))); [|exact Hs1].
    intros j s0 Hj H0; replace (Z.succ i + Z.of_nat j)%Z with (i + Z.of_nat (S j))%Z by lia.
    exact (Hb (S j) s0 ltac:(lia) H0).
Qed.

End Returns.

#[export] Hint Resolve returns_ret returns_true returns_undefined : cprog.



(** ** Transition sequences (after Leroy's [Sequences] library) *)

Section SEQUENCES.
Context {A : Type} (R : A -> A -> Prop).

Inductive star : A -> A -> Prop :=
  | star_refl a : star a a
  | star_step a b c : R a b -> star b c -> star a c.

Lemma star_one a b : R a b -> star a b.
Proof. eauto using star. Qed.

Lemma star_trans a b c : star a b -> star b c -> star a c.
Proof. induction 1; eauto using star. Qed.

(** An invariant of the transitions holds of every state reached. *)
Lemma star_invariant (Inv : A -> Prop) :
  (forall a b, Inv a -> R a b -> Inv b) -> forall a b, star a b -> Inv a -> Inv b.
Proof. intros Hstep a b H; induction H; eauto. Qed.

End SEQUENCES.

(** ** Specifications of whole runs: what is written and how a run ends *)

Section Obeys.
Context {I E : Type}.

(** [obeys m Pev Pnorm Pexit]: in every world, [m] only appends events to
    the output, each satisfying [Pev]; a normal end returns a value
    satisfying [Pnorm] and an [exit] has a status satisfying [Pexit].  An
    undefined run is not constrained, as in C. *)
Definition obeys {A} (m : @M I E A) (Pev : E -> Prop) (Pnorm : A -> Prop) (Pexit : Z -> Prop)
  : Prop :=
  forall w, exists es,
    w_output (fst (m w)) = w_output w ++ es /\ Forall Pev es
    /\ match snd (m w) with Normal a => Pnorm a | Exit c => Pexit c | Undefined => True end.

Context (Pev : E -> Prop) (Pexit : Z -> Prop).

Lemma obeys_ret {A} (a : A) (P : A -> Prop) : P a -> obeys (ret a) Pev P Pexit.
Proof. intros Ha w; exists []; rewrite app_nil_r; auto. Qed.

Lemma obeys_emit (e : E) (P : unit -> Prop) : Pev e -> P tt -> obeys (emit e) Pev P Pexit.
Proof. intros He Hp w; exists [e]; auto. Qed.

Lemma obeys_exit {A} c (P : A -> Prop) : Pexit c -> obeys (c_exit c) Pev P Pexit.
Proof. intros Hc w; exists []; rewrite app_nil_r; auto. Qed.

Lemma obeys_undefined {A} (P : A -> Prop) : obeys (@undefined I E A) Pev P Pexit.
Proof. intros w; exists []; cbn; rewrite app_nil_r; auto. Qed.

Lemma obeys_scan {A} (f : I -> option A * list I) (P : option A -> Prop) :
  (forall o, P o) -> obeys (scan_item f) Pev P Pexit.
Proof.
  intros HP w; exists []; rewrite app_nil_r; unfold scan_item.
  destruct (w_input w) as [|i rest]; cbn; [repeat split; auto|].
  destruct (f i) as [r leftover]; cbn; repeat split; auto.
Qed.

Lemma obeys_malloc (P : bool -> Prop) : (forall b, P b) -> obeys malloc_ok Pev P Pexit.
Proof.
  intros HP w; exists []; rewrite app_nil_r; unfold malloc_ok.
  destruct (w_heap w); cbn; repeat split; auto.
Qed.

Lemma obeys_of_option {A} (o : option A) (P : A -> Prop) :
  (forall a, o = Some a -> P a) -> obeys (of_option o) Pev P Pexit.
Proof. intros HP; destruct o as [a|]; [apply obeys_ret, HP; reflexivity | apply obeys_undefined]. Qed.

Lemma obeys_bind {A B} (m : @M I E A) (k : A -> @M I E B) (P : A -> Prop) (Q : B -> Prop) :
  obeys m Pev P Pexit -> (forall a, P a -> obeys (k a) Pev Q Pexit) -> obeys (bind m k) Pev Q Pexit.
Proof.
  intros Hm Hk w; unfold bind.
  destruct (Hm w) as (es1 & Ho1 & Hf1 & Hr1).
  destruct (m w) as [w1 [a|c|]]; cbn in *; [|exists es1; auto..].
  destruct (Hk a Hr1 w1) as (es2 & Ho2 & Hf2 & Hr2).
  exists (es1 ++ es2); rewrite Ho2, Ho1, app_assoc; split; [reflexivity|].
  split; [apply Forall_app; split; assumption | exact Hr2].
Qed.

Lemma obeys_weaken {A} (m : @M I E A) (P Q : A -> Prop) :
  obeys m Pev P Pexit -> (forall a, P a -> Q a) -> obeys m Pev Q Pexit.
Proof.
  intros Hm HPQ w; destruct (Hm w) as (es & Ho & Hf & Hr); exists es; split; [exact Ho|].
  split; [exact Hf|]; destruct (snd (m w)); auto.
Qed.

(** A loop whose body keeps the invariant [Inv]. *)
Lemma obeys_c_for_aux {St} (body : Z -> St -> @M I E St) (Inv : St -> Prop) k i s :
  (forall j s0, Inv s0 -> obeys (body j s0) Pev Inv Pexit) ->
  Inv s -> obeys (c_for_aux k i body s) Pev Inv Pexit.
Proof.
  revert i s; induction k as [|k IH]; intros i s Hb Hs; simpl; [apply obeys_ret, Hs|].
  apply (obeys_bind _ _ Inv); [apply Hb, Hs | intros s1 Hs1; apply IH; assumption].
Qed.

Lemma obeys_c_for {St} (body : Z -> St -> @M I E St) (Inv : St -> Prop) n s :
  (forall j s0, Inv s0 -> obeys (body j s0) Pev Inv Pexit) ->
  Inv s -> obeys (c_for n body s) Pev Inv Pexit.
Proof. apply obeys_c_for_aux. Qed.

End Obeys.

Create HintDb obeys.
#[export] Hint Resolve obeys_ret obeys_emit obeys_exit obeys_undefined obeys_scan obeys_malloc
  obeys_of_option : obeys.

(** [obeys_run] walks a straight-line computation: each [bind] is split with
    a trivial intermediate postcondition, conditionals and pair patterns are
    split, loops are given the trivial invariant, and the leaves are left
    to the [obeys] hints. *)
Ltac obeys_run :=
  repeat first
    [ progress cbv beta zeta
    | match goal with
      | |- obeys (bind _ _) _ _ _ =>
          apply obeys_bind with (P := fun _ => True); [solve [obeys_run] | intros ? _]
      | |- obeys (if ?b then _ else _) _ _ _ => destruct b
      | |- obeys (match ?x with pair _ _ => _ end) _ _ _ => destruct x
      | |- obeys (c_for _ _ _) _ _ _ =>
          apply obeys_c_for; [intros ? ? _ | exact Logic.I]
      end
    | solve [eauto with obeys] ].

(** [returns_skip] passes over a computation whose value is not needed. *)
Ltac returns_skip := apply (returns_bind _ _ (fun _ => True)); [auto with cprog | intros ? _].

(** * Runs against a state machine on their events

    Some properties of a run are not properties of each event but of their
    sequence: a [free] is valid only of a block allocated before and not
    freed since.  [replay step s es] runs the partial machine [step] ([None]
    is a forbidden event) over the events [es] from the state [s].
    [hoare m P Q Qx]: from every world and every state satisfying [P], the
    events [m] appends replay without a forbidden event, to a state
    satisfying [Q a] when [m] returns [a] and [Qx c] when it exits with
    status [c]; an undefined run is not constrained. *)

Section Replay.
Context {I E S : Type} (step : S -> E -> option S).

Fixpoint replay (s : S) (es : list E) : option S :=
  match es with
  | [] => Some s
  | e :: es' => match step s e with Some s' => replay s' es' | None => None end
  end.

Lemma replay_app s es1 es2 :
  replay s (es1 ++ es2) = match replay s es1 with Some s' => replay s' es2 | None => None end.
Proof.
  revert s; induction es1 as [|e es1 IH]; intros s; cbn; [reflexivity|].
  destruct (step s e); [apply IH | reflexivity].
Qed.

(** Events that leave every state as it is. *)
Definition neutral (Pev : E -> Prop) : Prop := forall e s, Pev e -> step s e = Some s.

Lemma replay_neutral (Pev : E -> Prop) s es :
  neutral Pev -> Forall Pev es -> replay s es = Some s.
Proof.
  intros Hn Hf; induction Hf as [|e es He _ IH]; cbn; [reflexivity|].
  rewrite (Hn e s He); exact IH.
Qed.

Definition hoare {A} (m : @M I E A) (P : S -> Prop) (Q : A -> S -> Prop) (Qx : Z -> S -> Prop)
  : Prop :=
  forall w s, P s -> exists es,
    w_output (fst (m w)) = w_output w ++ es
    /\ match snd (m w) with
       | Normal a => exists s', replay s es = Some s' /\ Q a s'
       | Exit c => exists s', replay s es = Some s' /\ Qx c s'
       | Undefined => True
       end.

Lemma hoare_ret {A} (a : A) P Q Qx : (forall s, P s -> Q a s) -> hoare (ret a) P Q Qx.
Proof. intros H w s Hs; exists []; rewrite app_nil_r; split; [reflexivity|]; cbn; exists s; auto. Qed.

Lemma hoare_bind {A B} (m : @M I E A) (k : A -> @M I E B) P Q R Rx :
  hoare m P Q Rx -> (forall a, hoare (k a) (Q a) R Rx) -> hoare (bind m k) P R Rx.
Proof.
  intros Hm Hk w s Hs; unfold bind.
  destruct (Hm w s Hs) as (es1 & Ho1 & Hr1).
  destruct (m w) as [w1 [a|c|]]; cbn in *; [|exists es1; auto..].
  destruct Hr1 as (s1 & Hp1 & Hq1).
  destruct (Hk a w1 s1 Hq1) as (es2 & Ho2 & Hr2).
  exists (es1 ++ es2); rewrite Ho2, Ho1, app_assoc; split; [reflexivity|].
  rewrite replay_app, Hp1; exact Hr2.
Qed.

(** An emitted event moves the machine by one step. *)
Lemma hoare_bind_emit {B} (e : E) (k : unit -> @M I E B) s s' R Rx :
  step s e = Some s' -> hoare (k tt) (eq s') R Rx -> hoare (bind (emit e) k) (eq s) R Rx.
Proof.
  intros Hst Hk; apply (hoare_bind _ _ _ (fun _ => eq s')); [|intros []; exact Hk].
  intros w s0 <-; exists [e]; split; [reflexivity|]; exists s'; cbn; rewrite Hst; auto.
Qed.

(** A computation whose events are all neutral leaves the state as it is;
    its specification [obeys] gives what it returns and how it exits. *)
Lemma hoare_bind_neutral {A B} (Pev : E -> Prop) (Pn : A -> Prop) (Px : Z -> Prop)
    (m : @M I E A) (k : A -> @M I E B) s R Rx :
  obeys m Pev Pn Px -> neutral Pev -> (forall c, Px c -> Rx c s) ->
  (forall a, Pn a -> hoare (k a) (eq s) R Rx) -> hoare (bind m k) (eq s) R Rx.
Proof.
  intros Hm Hn Hx Hk; apply (hoare_bind _ _ _ (fun a s0 => s = s0 /\ Pn a)).
  - intros w s0 <-; destruct (Hm w) as (es & Ho & Hf & Hr); exists es; split; [exact Ho|].
    rewrite (replay_neutral Pev s es Hn Hf); destruct (snd (m w)); eauto.
  - intros a w s0 [<- Ha]; exact (Hk a Ha w s eq_refl).
Qed.

End Replay.
