(* ===== verification/CArith.v ===== *)
(** * The C numeric interface and the events of the program

    [CArith] is the interface between the program and C's arithmetic: the
    two floating-point types [float] ([f32]) and [double] ([f64]), the
    conversions between them and [int], the operators [runge.c] applies to
    each, and the two <math.h> functions it calls ([pow] with an [int]
    exponent, [fabs]).  Every expression of [runge.c] is written against
    this interface with the usual arithmetic conversions spelled out, so a
    model of the code is a model for every instance: [Binary.v] gives the
    IEEE-754 binary32/binary64 instance, [RealArith.v] the exact one.

    The file also holds the events of a run, what the program writes
    ([printf], [fprintf] to [stderr], [perror]) and its calls of [malloc]
    and [free] on its three [block]s, and the monad [CM] of the C runtime of
    [Prelude.v] specialised to them, over input words. *)

From Stdlib Require Import ZArith String List.
From S2P Require Import Prelude.
Import ListNotations.

Open Scope Z_scope.

(** Bounds of the 32-bit [int] of the target, and <stdlib.h>'s status. *)
Definition INT_MIN : Z := - 2 ^ 31.
Definition INT_MAX : Z := 2 ^ 31 - 1.
Definition EXIT_FAILURE : Z := 1.

Definition in_int_range (z : Z) : bool := (INT_MIN <=? z) && (z <=? INT_MAX).

Class CArith := {
  f32 : Type;                         (** C [float] *)
  f64 : Type;                         (** C [double] *)
  f64_of_f32 : f32 -> f64;            (** promotion of a [float] operand *)
  f32_of_f64 : f64 -> f32;            (** conversion on assignment / argument passing *)
  f32_of_int : Z -> f32;              (** [int] operand converted to [float] *)
  f64_of_int : Z -> f64;              (** [int] (or integer literal) converted to [double] *)
  f32_of_dec : Z -> Z -> f32;         (** [scanf("%f")] of the decimal [m * 10^e] *)
  f32_of_hex : Z -> Z -> f32;         (** [scanf("%f")] of the hexadecimal [m * 2^e] *)
  f32_inf : f32;                      (** [scanf("%f")] of [inf] *)
  f32_nan : f32;                      (** [scanf("%f")] of [nan] *)
  int_of_f32 : f32 -> option Z;       (** [(int)] cast; [None] when undefined *)
  f32_add : f32 -> f32 -> f32;
  f32_sub : f32 -> f32 -> f32;
  f32_mul : f32 -> f32 -> f32;
  f32_div : f32 -> f32 -> f32;
  f32_neg : f32 -> f32;               (** unary [-] *)
  f32_lt : f32 -> f32 -> bool;        (** [<] on [float] *)
  f64_add : f64 -> f64 -> f64;
  f64_sub : f64 -> f64 -> f64;
  f64_mul : f64 -> f64 -> f64;
  f64_div : f64 -> f64 -> f64;
  f64_pow : f64 -> Z -> f64;          (** [pow(x, (double)p)] for an [int] [p] *)
  f64_fabs : f64 -> f64               (** [fabs] *)
}.

Section Events.
Context {CA : CArith}.

Inductive stream := Stdout | Stderr.

(** A [printf] argument: the [float]s the program prints are promoted to
    [double] by the variadic call, so only [int], [double] and strings
    occur. *)
Inductive arg :=
  | AInt (z : Z)
  | ADouble (d : f64)
  | AStr (s : string).

(** The three blocks [main] allocates, by the variable that holds them:
    [equation], [equation->gx_coefficients], [equation->gx_powers]. *)
Inductive block := BEquation | BCoefficients | BPowers.

(** What a run does that its environment sees: the calls of the output
    functions, and the calls of the allocator ([malloc] with the block it
    is for, the size asked and whether it was granted; [free] with the
    block passed). *)
Inductive event :=
  | Printf (s : stream) (fmt : string) (args : list arg)
  | Perror (msg : string)
  | Malloc (b : block) (size : Z) (granted : bool)
  | Free (b : block).

End Events.

Arguments arg {CA}.
Arguments event {CA}.
Arguments Printf {CA} s fmt args.
Arguments Perror {CA} msg.
Arguments Malloc {CA} b size granted.
Arguments Free {CA} b.

(** The input is the sequence of words of the text [scanf] reads: no
    conversion of the program reads white space, so the words are what
    its [%d] and [%f] read prefixes of ([Scanf.v]). *)
Abbreviation CM := (@M string event).

Section Printing.
Context {CA : CArith}.

Definition printf (fmt : string) (args : list arg) : CM unit :=
  emit (Printf Stdout fmt args).

Definition fprintf_stderr (fmt : string) (args : list arg) : CM unit :=
  emit (Printf Stderr fmt args).

Definition perror (msg : string) : CM unit := emit (Perror msg).

(** The [double] literals of the source: [0.5] and the constant [1.0 / 6.0]
    (both operands exact, the quotient rounded once, as the compiler folds it). *)
Definition lit_half : f64 := f64_div (f64_of_int 1) (f64_of_int 2).
Definition lit_sixth : f64 := f64_div (f64_of_int 1) (f64_of_int 6).

End Printing.
