(* ===== verification/Heap.v ===== *)
(** * The heap of [main]: the blocks it allocates and frees

    [main] allocates three blocks ([equation], [equation->gx_coefficients],
    [equation->gx_powers]) and frees them.  [heap_step] is the allocator's
    contract (C99 7.20.3) as a machine on the [Malloc]/[Free] events of a
    run: the state is the list of live blocks, most recent first; a granted
    [malloc] makes its block live, a [NULL] answer changes nothing, and
    [free] is defined only of a live block, which it releases.  A [free] of
    a block never allocated or already freed is undefined behaviour, and a
    second grant for a variable whose block is still live loses that block:
    both are forbidden steps ([None]).  Output events leave the heap as it
    is.

    [heap_trace] is the same contract as an inductive relation, and
    [heap_replay_sound]/[heap_replay_complete] show the executable replay
    decides it. *)

From Stdlib Require Import ZArith List.
From S2P Require Import Prelude CArith.
Import ListNotations.

Definition block_eq_dec (b1 b2 : block) : {b1 = b2} + {b1 <> b2}.
Proof. decide equality. Defined.

Section Heap.
Context {CA : CArith}.

Definition heap_step (live : list block) (e : event) : option (list block) :=
  match e with
  | Malloc b _ true => if in_dec block_eq_dec b live then None else Some (b :: live)
  | Malloc _ _ false => Some live
  | Free b => if in_dec block_eq_dec b live then Some (remove block_eq_dec b live) else None
  | Printf _ _ _ | Perror _ => Some live
  end.

Definition heap_replay : list block -> list event -> option (list block) := replay heap_step.

(** The events that are not calls of the allocator. *)
Definition heap_event (e : event) : bool :=
  match e with Malloc _ _ _ | Free _ => true | Printf _ _ _ | Perror _ => false end.

Definition silent (e : event) : Prop := heap_event e = false.

(** The contract as rules: what a sequence of events may do to the set of
    live blocks. *)
Inductive heap_trace : list block -> list event -> list block -> Prop :=
  | ht_nil live : heap_trace live [] live
  | ht_silent live e es live' :
      silent e -> heap_trace live es live' -> heap_trace live (e :: es) live'
  | ht_null live b size es live' :
      heap_trace live es live' -> heap_trace live (Malloc b size false :: es) live'
  | ht_grant live b size es live' :
      ~ In b live -> heap_trace (b :: live) es live' ->
      heap_trace live (Malloc b size true :: es) live'
  | ht_free live b es live' :
      In b live -> heap_trace (remove block_eq_dec b live) es live' ->
      heap_trace live (Free b :: es) live'.

End Heap.

Section HeapLemmas.
Context {CA : CArith}.

Lemma silent_neutral : neutral heap_step silent.
Proof. intros [] live H; try discriminate; reflexivity. Qed.

Lemma silent_printf s fmt args : silent (Printf s fmt args).
Proof. reflexivity. Qed.

Lemma silent_perror msg : silent (Perror msg).
Proof. reflexivity. Qed.

Lemma heap_replay_sound live es live' :
  heap_replay live es = Some live' -> heap_trace live es live'.
Proof.
  unfold heap_replay; revert live; induction es as [|e es IH]; intros live H; cbn in H.
  - injection H as <-; constructor.
  - destruct e as [s fmt args|msg|b size [|]|b]; cbn in H.
    + apply ht_silent; [reflexivity | apply IH, H].
    + apply ht_silent; [reflexivity | apply IH, H].
    + destruct (in_dec block_eq_dec b live); [discriminate|]; apply ht_grant; auto.
    + apply ht_null, IH, H.
    + destruct (in_dec block_eq_dec b live); [|discriminate]; apply ht_free; auto.
Qed.

Lemma heap_replay_complete live es live' :
  heap_trace live es live' -> heap_replay live es = Some live'.
Proof.
  unfold heap_replay; induction 1 as [|live e es live' He _ IH|?|live b size es live' Hb _ IH
                                     |live b es live' Hb _ IH]; cbn; try assumption.
  - reflexivity.
  - rewrite (silent_neutral e live He); exact IH.
  - destruct (in_dec block_eq_dec b live); [contradiction | exact IH].
  - destruct (in_dec block_eq_dec b live); [exact IH | contradiction].
Qed.

Lemma remove_nodup b live : NoDup live -> NoDup (remove block_eq_dec b live).
Proof.
  induction 1 as [|x l Hx _ IH]; cbn; [constructor|].
  destruct (block_eq_dec b x); [exact IH|].
  constructor; [intros Hin; exact (Hx (proj1 (in_remove _ _ _ _ Hin))) | exact IH].
Qed.

(** No block is live twice: the machine keeps its list without duplicates. *)
Lemma heap_step_nodup live e live' :
  NoDup live -> heap_step live e = Some live' -> NoDup live'.
Proof.
  intros Hd; destruct e as [s fmt args|msg|b size [|]|b]; cbn; try (injection 1 as <-; exact Hd).
  - destruct (in_dec block_eq_dec b live) as [|Hb]; [discriminate|].
    injection 1 as <-; constructor; assumption.
  - destruct (in_dec block_eq_dec b live); [|discriminate].
    injection 1 as <-; apply remove_nodup, Hd.
Qed.

Lemma heap_replay_nodup live es live' :
  NoDup live -> heap_replay live es = Some live' -> NoDup live'.
Proof.
  unfold heap_replay; revert live; induction es as [|e es IH]; intros live Hd H; cbn in H.
  - injection H as <-; exact Hd.
  - destruct (heap_step live e) as [l|] eqn:Hs; [|discriminate].
    exact (IH l (heap_step_nodup _ _ _ Hd Hs) H).
Qed.

End HeapLemmas.

#[export] Hint Resolve silent_printf silent_perror : obeys.
