(* ===== verification/Scanf.v ===== *)
(** * [scanf]'s [%d] and [%f] conversions on the characters of the input

    C99 7.19.6.2: a [%d] or [%f] directive skips white space, then reads
    the input item, "the longest sequence of input characters which ... is,
    or is a prefix of, a matching input sequence"; the first character
    after it stays unread.  An empty item is a matching failure that
    consumes nothing; an item that is not itself a matching sequence (a
    lone sign, [1e], [0x], [infin]) is a matching failure that consumes the
    item.  The matching sequences are those of [strtol] in base 10 for
    [%d], of [strtod] for [%f]: a decimal numeral with an optional point
    and exponent, a hexadecimal one with a binary exponent, [inf],
    [infinity], [nan] and [nan(...)], case ignored, each with an optional
    sign.

    Both are written as automata ([d_step], [f_step]) with a transition
    exactly where the text read so far can still be extended to a matching
    sequence, so reading greedily, [run], yields the longest such prefix.  Since no item contains white space, the program's
    input is modelled as its words, the maximal runs of non-space
    characters; the conversions read a prefix of the next word and what is
    left of the word is read next.  The numbers the conversions produce are
    described by [fnum], and [f32_of_fnum] is the [strtof] that stores
    them.  The file also holds the printer of [int]s ([int_word], as
    [%d] writes them) and the round trips between the two. *)

From Stdlib Require Import ZArith Bool Ascii String List Lia.
From S2P Require Import Prelude CArith.
Import ListNotations.

Open Scope Z_scope.

(** ** Characters *)

Definition code (c : ascii) : Z := Z.of_nat (nat_of_ascii c).

(** [isspace] in the "C" locale: space, [\t], [\n], [\v], [\f], [\r]. *)
Definition is_space (c : ascii) : bool :=
  (code c =? 32) || ((9 <=? code c) && (code c <=? 13)).

Definition is_digit (c : ascii) : bool := (48 <=? code c) && (code c <=? 57).
Definition digit_val (c : ascii) : Z := code c - 48.

Definition lower (c : ascii) : ascii :=
  if (65 <=? code c) && (code c <=? 90) then ascii_of_nat (nat_of_ascii c + 32) else c.

Definition hex_val (c : ascii) : option Z :=
  if is_digit c then Some (digit_val c)
  else if (97 <=? code (lower c)) && (code (lower c) <=? 102) then Some (code (lower c) - 87)
  else None.

(** The characters of an [n-char-sequence] of [nan(...)]: digits, letters, [_]. *)
Definition is_nchar (c : ascii) : bool :=
  is_digit c || ((97 <=? code (lower c)) && (code (lower c) <=? 122)) || (code c =? 95).

Definition sign_char (c : ascii) : option bool :=
  if Ascii.eqb c "-"%char then Some true else if Ascii.eqb c "+"%char then Some false else None.

Definition digit_char (d : Z) : ascii := ascii_of_nat (Z.to_nat (48 + d)).

(** ** Greedy reading *)

Section Automaton.
Context {St : Type} (step : St -> ascii -> option St).

(** Read characters while the automaton can go on; the state reached and
    the unread text. *)
Fixpoint run (st : St) (s : string) : St * string :=
  match s with
  | EmptyString => (st, EmptyString)
  | String c r =>
      match step st c with
      | Some st' => run st' r
      | None => (st, s)
      end
  end.

End Automaton.

(** ** [%d]: an optionally signed decimal integer *)

Inductive dstate := DStart | DSign (neg : bool) | DInt (neg : bool) (m : Z).

Definition d_step (st : dstate) (c : ascii) : option dstate :=
  match st with
  | DStart =>
      match sign_char c with
      | Some neg => Some (DSign neg)
      | None => if is_digit c then Some (DInt false (digit_val c)) else None
      end
  | DSign neg => if is_digit c then Some (DInt neg (digit_val c)) else None
  | DInt neg m => if is_digit c then Some (DInt neg (m * 10 + digit_val c)) else None
  end.

Definition d_accept (st : dstate) : option Z :=
  match st with
  | DInt neg m => Some (if neg then - m else m)
  | _ => None
  end.

(** [%d] on a word: the integer read, if the item matches, and the rest. *)
Definition scan_d_word (s : string) : option Z * string :=
  let '(st, rest) := run d_step DStart s in (d_accept st, rest).

(** ** [%f]: the subject sequence of [strtod] *)

(** What [%f] read: [(-1)^neg * m * 10^e], [(-1)^neg * m * 2^e], an
    infinity or a NaN. *)
Inductive fnum :=
  | FDec (neg : bool) (m e : Z)
  | FHex (neg : bool) (m e : Z)
  | FInf (neg : bool)
  | FNaN (neg : bool).

(** The states carry what has been read: the sign, the significand [m],
    the number [k] of digits after the point, the exponent's sign and
    value. *)
Inductive fstate :=
  | FStart
  | FSign (neg : bool)
  | FZero (neg : bool)                       (* a single 0: 0x may follow *)
  | FInt (neg : bool) (m : Z)
  | FDot (neg : bool)                        (* a point, no digit yet *)
  | FFrac (neg : bool) (m k : Z)
  | FExp (neg : bool) (m k : Z)
  | FExpSign (neg : bool) (m k : Z) (eneg : bool)
  | FExpDig (neg : bool) (m k : Z) (eneg : bool) (ev : Z)
  | FHex0 (neg : bool)
  | FHexInt (neg : bool) (m : Z)
  | FHexDot (neg : bool)
  | FHexFrac (neg : bool) (m k : Z)
  | FPExp (neg : bool) (m k : Z)
  | FPExpSign (neg : bool) (m k : Z) (eneg : bool)
  | FPExpDig (neg : bool) (m k : Z) (eneg : bool) (ev : Z)
  | FName (neg : bool) (p : string)          (* a prefix of inf, infinity or nan *)
  | FNanSeq (neg : bool)
  | FNanDone (neg : bool).

Definition is_char (c : ascii) (l : ascii) : bool := Ascii.eqb (lower c) l.

(** After the sign: a digit, a point, or the first letter of a name. *)
Definition f_first (neg : bool) (c : ascii) : option fstate :=
  if Ascii.eqb c "0"%char then Some (FZero neg)
  else if is_digit c then Some (FInt neg (digit_val c))
  else if Ascii.eqb c "."%char then Some (FDot neg)
  else if is_char c "i"%char || is_char c "n"%char then Some (FName neg (String (lower c) EmptyString))
  else None.

Definition f_int (neg : bool) (m : Z) (c : ascii) : option fstate :=
  if is_digit c then Some (FInt neg (m * 10 + digit_val c))
  else if Ascii.eqb c "."%char then Some (FFrac neg m 0)
  else if is_char c "e"%char then Some (FExp neg m 0)
  else None.

Definition f_step (st : fstate) (c : ascii) : option fstate :=
  match st with
  | FStart =>
      match sign_char c with Some neg => Some (FSign neg) | None => f_first false c end
  | FSign neg => f_first neg c
  | FZero neg => if is_char c "x"%char then Some (FHex0 neg) else f_int neg 0 c
  | FInt neg m => f_int neg m c
  | FDot neg => if is_digit c then Some (FFrac neg (digit_val c) 1) else None
  | FFrac neg m k =>
      if is_digit c then Some (FFrac neg (m * 10 + digit_val c) (k + 1))
      else if is_char c "e"%char then Some (FExp neg m k) else None
  | FExp neg m k =>
      match sign_char c with
      | Some eneg => Some (FExpSign neg m k eneg)
      | None => if is_digit c then Some (FExpDig neg m k false (digit_val c)) else None
      end
  | FExpSign neg m k eneg =>
      if is_digit c then Some (FExpDig neg m k eneg (digit_val c)) else None
  | FExpDig neg m k eneg ev =>
      if is_digit c then Some (FExpDig neg m k eneg (ev * 10 + digit_val c)) else None
  | FHex0 neg =>
      match hex_val c with
      | Some h => Some (FHexInt neg h)
      | None => if Ascii.eqb c "."%char then Some (FHexDot neg) else None
      end
  | FHexInt neg m =>
      match hex_val c with
      | Some h => Some (FHexInt neg (m * 16 + h))
      | None =>
          if Ascii.eqb c "."%char then Some (FHexFrac neg m 0)
          else if is_char c "p"%char then Some (FPExp neg m 0) else None
      end
  | FHexDot neg =>
      match hex_val c with Some h => Some (FHexFrac neg h 1) | None => None end
  | FHexFrac neg m k =>
      match hex_val c with
      | Some h => Some (FHexFrac neg (m * 16 + h) (k + 1))
      | None => if is_char c "p"%char then Some (FPExp neg m k) else None
      end
  | FPExp neg m k =>
      match sign_char c with
      | Some eneg => Some (FPExpSign neg m k eneg)
      | None => if is_digit c then Some (FPExpDig neg m k false (digit_val c)) else None
      end
  | FPExpSign neg m k eneg =>
      if is_digit c then Some (FPExpDig neg m k eneg (digit_val c)) else None
  | FPExpDig neg m k eneg ev =>
      if is_digit c then Some (FPExpDig neg m k eneg (ev * 10 + digit_val c)) else None
  | FName neg p =>
      let p' := String.append p (String (lower c) EmptyString) in
      if String.prefix p' "infinity"%string || String.prefix p' "nan" then Some (FName neg p')
      else if String.eqb p "nan"%string && Ascii.eqb c "("%char then Some (FNanSeq neg)
      else None
  | FNanSeq neg =>
      if is_nchar c then Some (FNanSeq neg)
      else if Ascii.eqb c ")"%char then Some (FNanDone neg) else None
  | FNanDone _ => None
  end.

Definition signed_exp (eneg : bool) (ev : Z) : Z := if eneg then - ev else ev.

(** The matching sequences are the items that end in these states. *)
Definition f_accept (st : fstate) : option fnum :=
  match st with
  | FZero neg => Some (FDec neg 0 0)
  | FInt neg m => Some (FDec neg m 0)
  | FFrac neg m k => Some (FDec neg m (- k))
  | FExpDig neg m k eneg ev => Some (FDec neg m (signed_exp eneg ev - k))
  | FHexInt neg m => Some (FHex neg m 0)
  | FHexFrac neg m k => Some (FHex neg m (- 4 * k))
  | FPExpDig neg m k eneg ev => Some (FHex neg m (signed_exp eneg ev - 4 * k))
  | FName neg p =>
      if String.eqb p "inf"%string || String.eqb p "infinity" then Some (FInf neg)
      else if String.eqb p "nan" then Some (FNaN neg) else None
  | FNanDone neg => Some (FNaN neg)
  | _ => None
  end.

(** [%f] on a word: the number read, if the item matches, and the rest. *)
Definition scan_f_word (s : string) : option fnum * string :=
  let '(st, rest) := run f_step FStart s in (f_accept st, rest).

(** [strtof]: the [float] stored, rounded once by the instance. *)
Definition f32_of_fnum {CA : CArith} (v : fnum) : f32 :=
  match v with
  | FDec neg m e =>
      if neg then (if m =? 0 then f32_neg (f32_of_dec 0 e) else f32_of_dec (- m) e)
      else f32_of_dec m e
  | FHex neg m e =>
      if neg then (if m =? 0 then f32_neg (f32_of_hex 0 e) else f32_of_hex (- m) e)
      else f32_of_hex m e
  | FInf neg => if neg then f32_neg f32_inf else f32_inf
  | FNaN neg => if neg then f32_neg f32_nan else f32_nan
  end.

(** ** Writing numbers *)

(** The decimal digits of [n >= 0] in front of [acc]; [fuel] bounds the
    number of digits. *)
Fixpoint pos_text (fuel : nat) (n : Z) (acc : string) : string :=
  match fuel with
  | O => acc
  | S f =>
      if n <? 10 then String (digit_char n) acc
      else pos_text f (n / 10) (String (digit_char (n mod 10)) acc)
  end.

Definition nat_text (n : Z) : string := pos_text (S (Z.to_nat (Z.log2 n))) n EmptyString.

(** An [int] as [printf("%d")] writes it. *)
Definition int_word (z : Z) : string :=
  if z <? 0 then String "-"%char (nat_text (- z)) else nat_text z.

(** The decimal [m * 10^e] written with an exponent, as [1234e-3]. *)
Definition dec_word (m e : Z) : string := String.append (int_word m) (String "e"%char (int_word e)).

(** ** Reading back what was written *)

(** Case analysis on a decimal digit. *)
Ltac digit_cases d :=
  let H := fresh in
  assert (H : d = 0 \/ d = 1 \/ d = 2 \/ d = 3 \/ d = 4 \/ d = 5 \/ d = 6 \/ d = 7
              \/ d = 8 \/ d = 9) by lia;
  destruct H as [->|[->|[->|[->|[->|[->|[->|[->|[->| ->]]]]]]]]].

Lemma string_app_empty s : String.append s EmptyString = s.
Proof. induction s as [|c s IH]; cbn; [reflexivity | rewrite IH; reflexivity]. Qed.

Lemma pos_text_app f n a b :
  pos_text f n (String.append a b) = String.append (pos_text f n a) b.
Proof.
  revert n a; induction f as [|f IH]; intros n a; cbn [pos_text]; [reflexivity|].
  destruct (n <? 10); [reflexivity | apply (IH _ (String _ a))].
Qed.

Lemma nat_text_app n s :
  String.append (nat_text n) s = pos_text (S (Z.to_nat (Z.log2 n))) n s.
Proof. unfold nat_text; rewrite <- pos_text_app; reflexivity. Qed.

(** [Z.log2 n + 1] binary digits are at least as many as the decimal ones. *)
Lemma nat_text_fuel n : 1 <= n -> 1 <= n < 10 ^ Z.of_nat (S (Z.to_nat (Z.log2 n))).
Proof.
  intros Hn; rewrite Nat2Z.inj_succ, Z2Nat.id by apply Z.log2_nonneg.
  destruct (Z.log2_spec n) as [_ H2]; [lia|].
  assert (2 ^ Z.succ (Z.log2 n) <= 10 ^ Z.succ (Z.log2 n))
    by (apply Z.pow_le_mono_l; lia).
  lia.
Qed.

Section DigitRun.
Context {St : Type} (step : St -> ascii -> option St) (mk : Z -> St).

(** [mk v] is the state that has accumulated the digits of [v]; [st0]
    starts such a run on a non-zero digit. *)
Hypothesis step_digit :
  forall v d, 0 <= d < 10 -> step (mk v) (digit_char d) = Some (mk (v * 10 + d)).
Variable st0 : St.
Hypothesis step_start : forall d, 1 <= d < 10 -> step st0 (digit_char d) = Some (mk d).

Lemma run_pos_text f n acc :
  1 <= n < 10 ^ Z.of_nat f -> run step st0 (pos_text f n acc) = run step (mk n) acc.
Proof.
  revert n acc; induction f as [|f IH]; intros n acc Hn; [cbn in Hn; lia|].
  cbn [pos_text]; destruct (Z.ltb_spec n 10) as [Hlt|Hge].
  - cbn [run]; rewrite step_start by lia; reflexivity.
  - rewrite Nat2Z.inj_succ, Z.pow_succ_r in Hn by lia.
    rewrite IH by (split; [apply Z.div_le_lower_bound | apply Z.div_lt_upper_bound]; lia).
    cbn [run]; rewrite step_digit by (apply Z.mod_pos_bound; lia).
    rewrite Z.mul_comm, <- Z.div_mod by lia; reflexivity.
Qed.

Lemma run_nat_text n acc :
  1 <= n -> run step st0 (String.append (nat_text n) acc) = run step (mk n) acc.
Proof. intros Hn; rewrite nat_text_app; apply run_pos_text, nat_text_fuel, Hn. Qed.

End DigitRun.

Lemma run_cons {St} (step : St -> ascii -> option St) st c r st' :
  step st c = Some st' -> run step st (String c r) = run step st' r.
Proof. intros H; cbn [run]; rewrite H; reflexivity. Qed.

(** Text that does not continue a numeral. *)
Definition starts_clear (s : string) : Prop :=
  match s with String c _ => is_digit c = false | EmptyString => True end.

Lemma d_step_digit neg v d :
  0 <= d < 10 -> d_step (DInt neg v) (digit_char d) = Some (DInt neg (v * 10 + d)).
Proof. intros Hd; digit_cases d; reflexivity. Qed.

Lemma d_step_start d : 1 <= d < 10 -> d_step DStart (digit_char d) = Some (DInt false d).
Proof. intros Hd; digit_cases d; first [lia | reflexivity]. Qed.

Lemma d_step_sign neg d : 1 <= d < 10 -> d_step (DSign neg) (digit_char d) = Some (DInt neg d).
Proof. intros Hd; digit_cases d; first [lia | reflexivity]. Qed.

Lemma d_run_stop neg m rest : starts_clear rest -> run d_step (DInt neg m) rest = (DInt neg m, rest).
Proof. destruct rest as [|c r]; cbn; [reflexivity|]; intros ->; reflexivity. Qed.

(** [%d] reads back an [int] written by [%d]: the item is the whole
    numeral and the rest of the text stays. *)
Lemma scan_d_int_word z rest :
  starts_clear rest -> scan_d_word (String.append (int_word z) rest) = (Some z, rest).
Proof.
  intros Hr; unfold scan_d_word, int_word.
  destruct (Z.ltb_spec z 0) as [Hz|Hz].
  - cbn [String.append]; rewrite (run_cons _ _ _ _ (DSign true)) by reflexivity.
    rewrite (run_nat_text d_step (DInt true)) by (auto using d_step_digit, d_step_sign; lia).
    rewrite d_run_stop by exact Hr; cbn; rewrite Z.opp_involutive; reflexivity.
  - destruct (Z.eq_dec z 0) as [->|Hz0].
    + change (String.append (nat_text 0) rest) with (String "0"%char rest).
      rewrite (run_cons _ _ _ _ (DInt false 0)) by reflexivity.
      rewrite d_run_stop by exact Hr; reflexivity.
    + rewrite (run_nat_text d_step (DInt false)) by (auto using d_step_digit, d_step_start; lia).
      rewrite d_run_stop by exact Hr; reflexivity.
Qed.

Lemma f_step_int neg v d :
  0 <= d < 10 -> f_step (FInt neg v) (digit_char d) = Some (FInt neg (v * 10 + d)).
Proof. intros Hd; digit_cases d; reflexivity. Qed.

Lemma f_step_start d : 1 <= d < 10 -> f_step FStart (digit_char d) = Some (FInt false d).
Proof. intros Hd; digit_cases d; first [lia | reflexivity]. Qed.

Lemma f_step_sign neg d : 1 <= d < 10 -> f_step (FSign neg) (digit_char d) = Some (FInt neg d).
Proof. intros Hd; digit_cases d; first [lia | reflexivity]. Qed.

Lemma f_step_expdig neg m k eneg v d :
  0 <= d < 10 ->
  f_step (FExpDig neg m k eneg v) (digit_char d) = Some (FExpDig neg m k eneg (v * 10 + d)).
Proof. intros Hd; digit_cases d; reflexivity. Qed.

Lemma f_step_exp neg m k d :
  1 <= d < 10 -> f_step (FExp neg m k) (digit_char d) = Some (FExpDig neg m k false d).
Proof. intros Hd; digit_cases d; first [lia | reflexivity]. Qed.

Lemma f_step_expsign neg m k eneg d :
  1 <= d < 10 -> f_step (FExpSign neg m k eneg) (digit_char d) = Some (FExpDig neg m k eneg d).
Proof. intros Hd; digit_cases d; first [lia | reflexivity]. Qed.

(** The digits of a natural number after an optional sign: the state
    before what follows them. *)
Lemma f_run_nat_text neg st0 n s :
  (st0 = FStart /\ neg = false) \/ st0 = FSign neg -> 0 <= n ->
  run f_step st0 (String.append (nat_text n) s)
  = run f_step (if n =? 0 then FZero neg else FInt neg n) s.
Proof.
  intros Hst Hn; destruct (Z.eqb_spec n 0) as [->|Hn0].
  - change (String.append (nat_text 0) s) with (String "0"%char s).
    apply run_cons; destruct Hst as [[-> ->] | ->]; reflexivity.
  - apply (run_nat_text f_step (FInt neg)); [auto using f_step_int | | lia].
    intros d Hd; destruct Hst as [[-> ->] | ->]; auto using f_step_start, f_step_sign.
Qed.

(** The significand of [dec_word m e]: after it, the state before the
    exponent marker. *)
Lemma f_run_int_word m s :
  run f_step FStart (String.append (int_word m) s)
  = run f_step (if m =? 0 then FZero false else FInt (m <? 0) (Z.abs m)) s.
Proof.
  unfold int_word; destruct (Z.ltb_spec m 0) as [Hm|Hm].
  - rewrite (proj2 (Z.eqb_neq m 0)) by lia; cbn [String.append].
    rewrite (run_cons _ _ _ _ (FSign true)) by reflexivity.
    rewrite (f_run_nat_text true) by (auto; lia).
    rewrite (proj2 (Z.eqb_neq (- m) 0)), Z.abs_neq by lia; reflexivity.
  - rewrite (f_run_nat_text false) by (auto; lia).
    rewrite Z.abs_eq by lia; reflexivity.
Qed.

(** The exponent of [dec_word m e]. *)
Lemma f_run_exp_word neg m e :
  run f_step (FExp neg m 0) (int_word e)
  = (FExpDig neg m 0 (e <? 0) (Z.abs e), EmptyString).
Proof.
  unfold int_word; destruct (Z.ltb_spec e 0) as [He|He].
  - rewrite <- (string_app_empty (nat_text _)).
    rewrite (run_cons _ _ _ _ (FExpSign neg m 0 true)) by reflexivity.
    rewrite (run_nat_text f_step (FExpDig neg m 0 true)) by
      (auto using f_step_expdig, f_step_expsign; lia).
    rewrite Z.abs_neq by lia; reflexivity.
  - destruct (Z.eq_dec e 0) as [->|He0]; [reflexivity|].
    rewrite <- (string_app_empty (nat_text _)).
    rewrite (run_nat_text f_step (FExpDig neg m 0 false)) by
      (auto using f_step_expdig, f_step_exp; lia).
    rewrite Z.abs_eq by lia; reflexivity.
Qed.

(** [%f] reads back the decimal [m * 10^e] written as [dec_word m e]. *)
Lemma scan_f_dec_word m e :
  scan_f_word (dec_word m e) = (Some (FDec (m <? 0) (Z.abs m) e), EmptyString).
Proof.
  unfold scan_f_word, dec_word; rewrite f_run_int_word.
  replace (if m =? 0 then FZero false else FInt (m <? 0) (Z.abs m)) with
    (if m =? 0 then FZero false else FInt (m <? 0) (Z.abs m)) by reflexivity.
  rewrite (run_cons _ _ _ _ (FExp (m <? 0) (Z.abs m) 0)) by
    (destruct (Z.eqb_spec m 0) as [->|]; reflexivity).
  rewrite f_run_exp_word; cbn [f_accept].
  unfold signed_exp; destruct (Z.ltb_spec e 0); repeat f_equal; lia.
Qed.

Lemma f32_of_fnum_dec {CA : CArith} m e : f32_of_fnum (FDec (m <? 0) (Z.abs m) e) = f32_of_dec m e.
Proof.
  cbn [f32_of_fnum]; destruct (Z.ltb_spec m 0) as [Hm|Hm].
  - rewrite (proj2 (Z.eqb_neq _ 0)) by lia; rewrite Z.abs_neq, Z.opp_involutive by lia; reflexivity.
  - rewrite Z.abs_eq by lia; reflexivity.
Qed.

(** ** The text and its words

    [scanf] reads a character stream: a [%d] or [%f] directive skips white
    space and reads the longest prefix of a matching sequence.  The
    model's input is the list of words of the text; these lemmas show the
    two agree, since no automaton state continues on white space. *)

Fixpoint skip_space (s : string) : string :=
  match s with
  | String c r => if is_space c then skip_space r else s
  | EmptyString => EmptyString
  end.

(** The words of a text: its maximal runs of non-space characters, in
    order; [acc] is the word being read. *)
Fixpoint words_acc (s : string) (acc : string) : list string :=
  match s with
  | EmptyString => match acc with EmptyString => [] | _ => [acc] end
  | String c r =>
      if is_space c then
        match acc with EmptyString => words_acc r EmptyString | _ => acc :: words_acc r EmptyString end
      else words_acc r (String.append acc (String c EmptyString))
  end.

Definition words (s : string) : list string := words_acc s EmptyString.

(** What is left of a word after a conversion: nothing, or the rest. *)
Definition word_rest (s : string) : list string :=
  match s with EmptyString => [] | _ => [s] end.

(** [scanf("%d")] and [scanf("%f")] on the text itself. *)
Definition scanf_d_text (s : string) : option Z * string := scan_d_word (skip_space s).
Definition scanf_f_text (s : string) : option fnum * string := scan_f_word (skip_space s).

Fixpoint no_space (s : string) : bool :=
  match s with String c r => negb (is_space c) && no_space r | EmptyString => true end.

Definition space_start (s : string) : Prop :=
  match s with String c _ => is_space c = true | EmptyString => True end.

(** The first word of a text that starts with it, and the rest. *)
Fixpoint take_word (s : string) : string * string :=
  match s with
  | EmptyString => (EmptyString, EmptyString)
  | String c r =>
      if is_space c then (EmptyString, s)
      else let '(w, t) := take_word r in (String c w, t)
  end.

Lemma string_app_assoc a b c :
  String.append a (String.append b c) = String.append (String.append a b) c.
Proof. induction a as [|x a IH]; cbn; [reflexivity | rewrite IH; reflexivity]. Qed.

Lemma no_space_app a b : no_space (String.append a b) = no_space a && no_space b.
Proof. induction a as [|x a IH]; cbn; [reflexivity | rewrite IH, andb_assoc; reflexivity]. Qed.

Lemma take_word_spec s :
  s = String.append (fst (take_word s)) (snd (take_word s))
  /\ no_space (fst (take_word s)) = true /\ space_start (snd (take_word s)).
Proof.
  induction s as [|c r IH]; cbn; [auto|].
  destruct (is_space c) eqn:Hc; cbn; [rewrite Hc; auto|].
  destruct (take_word r) as [w t]; cbn in *; destruct IH as (-> & Hw & Ht).
  rewrite Hc, Hw; auto.
Qed.

Lemma words_acc_app w t acc :
  no_space w = true -> space_start t ->
  words_acc (String.append w t) acc = word_rest (String.append acc w) ++ words t.
Proof.
  revert acc; induction w as [|c w IH]; intros acc Hw Ht.
  - rewrite string_app_empty; destruct t as [|c t]; cbn in *; [destruct acc; reflexivity|].
    rewrite Ht; destruct acc; reflexivity.
  - cbn in Hw; apply andb_prop in Hw as [Hc Hw]; apply negb_true_iff in Hc.
    cbn; rewrite Hc, IH by assumption; rewrite <- string_app_assoc; reflexivity.
Qed.

Lemma words_skip s : words (skip_space s) = words s.
Proof.
  induction s as [|c r IH]; [reflexivity|]; unfold words in *; cbn.
  destruct (is_space c) eqn:Hc; [rewrite IH; reflexivity | cbn; rewrite Hc; reflexivity].
Qed.

(** A text is white space only, or its first word follows its leading
    white space. *)
Lemma text_first_word t :
  (skip_space t = EmptyString /\ words t = [])
  \/ exists w t', w <> EmptyString /\ no_space w = true /\ space_start t'
     /\ skip_space t = String.append w t' /\ words t = w :: words t'.
Proof.
  rewrite <- words_skip.
  assert (Hs : skip_space t = EmptyString \/
               exists c r, skip_space t = String c r /\ is_space c = false).
  { induction t as [|c r IH]; cbn; [auto|]; destruct (is_space c) eqn:Hc; eauto. }
  destruct Hs as [-> | (c & r & Hcr & Hc)]; [left; auto|right].
  rewrite Hcr; pose proof (take_word_spec (String c r)) as Hspec.
  assert (Hne : fst (take_word (String c r)) <> EmptyString)
    by (cbn; rewrite Hc; destruct (take_word r); discriminate).
  destruct (take_word (String c r)) as [w t'] eqn:Etw; cbn in Hspec, Hne.
  destruct Hspec as (He & Hw & Ht); exists w, t'.
  split; [exact Hne|]; split; [exact Hw|]; split; [exact Ht|]; split; [exact He|].
  unfold words; rewrite He at 1; rewrite words_acc_app by assumption.
  destruct w; [contradiction | reflexivity].
Qed.

Section TextRun.
Context {St : Type} (step : St -> ascii -> option St).
Hypothesis step_space : forall st c, is_space c = true -> step st c = None.

Lemma run_app_space st w t :
  no_space w = true -> space_start t ->
  run step st (String.append w t)
  = (fst (run step st w), String.append (snd (run step st w)) t).
Proof.
  revert st; induction w as [|c w IH]; intros st Hw Ht.
  - destruct t as [|c t]; cbn in *; [reflexivity|]; rewrite step_space by exact Ht; reflexivity.
  - cbn in Hw; apply andb_prop in Hw as [_ Hw]; cbn.
    destruct (step st c) as [st'|]; [apply IH; assumption | reflexivity].
Qed.

Lemma run_suffix st w : exists pre, w = String.append pre (snd (run step st w)).
Proof.
  revert st; induction w as [|c w IH]; intros st; [exists EmptyString; reflexivity|].
  cbn; destruct (step st c) as [st'|].
  - destruct (IH st') as [pre Hp]; exists (String c pre); cbn; rewrite <- Hp; reflexivity.
  - exists EmptyString; reflexivity.
Qed.

(** Reading a prefix of the first word of a text: the state reached is the
    one reached on the word, and the words of what is left are what is left
    of the word followed by the other words. *)
Lemma run_text_words st w t :
  no_space w = true -> space_start t ->
  fst (run step st (String.append w t)) = fst (run step st w)
  /\ words (snd (run step st (String.append w t)))
     = word_rest (snd (run step st w)) ++ words t.
Proof.
  intros Hw Ht; rewrite run_app_space by assumption; split; [reflexivity|]; cbn.
  destruct (run_suffix st w) as [pre Hp].
  assert (Hr : no_space (snd (run step st w)) = true)
    by (rewrite Hp, no_space_app in Hw; apply andb_prop in Hw; tauto).
  unfold words; rewrite words_acc_app by assumption; reflexivity.
Qed.

End TextRun.

(** ** No conversion reads white space *)

Lemma space_char c : is_space c = true -> exists n, In n [9; 10; 11; 12; 13; 32]%nat /\ c = ascii_of_nat n.
Proof.
  unfold is_space, code; intros H; exists (nat_of_ascii c).
  split; [|symmetry; apply ascii_nat_embedding].
  apply orb_true_iff in H as [H|H];
    [apply Z.eqb_eq in H | apply andb_true_iff in H as [H1 H2]; apply Z.leb_le in H1, H2];
    cbn; lia.
Qed.

Fixpoint has_char (c : ascii) (s : string) : bool :=
  match s with EmptyString => false | String a r => Ascii.eqb c a || has_char c r end.

Lemma prefix_has_char p c s :
  String.prefix (String.append p (String c EmptyString)) s = true -> has_char c s = true.
Proof.
  revert s; induction p as [|a p IH]; intros [|b s] H; cbn in H; try discriminate.
  - destruct (ascii_dec c b) as [->|]; [cbn; rewrite Ascii.eqb_refl; reflexivity | discriminate].
  - destruct (ascii_dec a b); [cbn; rewrite (IH s H), orb_true_r; reflexivity | discriminate].
Qed.

Lemma has_char_no_space c s : no_space s = true -> has_char c s = true -> is_space c = false.
Proof.
  induction s as [|a s IH]; cbn; [discriminate|]; intros Hs Hc.
  apply andb_prop in Hs as [Ha Hs]; apply orb_prop in Hc as [Hc|Hc]; [|auto].
  apply Ascii.eqb_eq in Hc; subst; apply negb_true_iff, Ha.
Qed.

Lemma name_prefix_space p c s :
  no_space s = true -> is_space c = true ->
  String.prefix (String.append p (String c EmptyString)) s = false.
Proof.
  intros Hs Hc; destruct (String.prefix _ s) eqn:E; [|reflexivity].
  apply prefix_has_char, (has_char_no_space _ _ Hs) in E; congruence.
Qed.

Lemma d_step_space st c : is_space c = true -> d_step st c = None.
Proof.
  intros Hc; destruct (space_char c Hc) as (n & Hn & ->); cbn in Hn.
  repeat destruct Hn as [<-|Hn]; try contradiction; destruct st; reflexivity.
Qed.

Lemma f_step_space st c : is_space c = true -> f_step st c = None.
Proof.
  intros Hc; destruct st;
    try (destruct (space_char c Hc) as (n & Hn & ->); cbn in Hn;
         repeat destruct Hn as [<-|Hn]; try contradiction; reflexivity).
  assert (Hl : lower c = c /\ Ascii.eqb c "(" = false)
    by (destruct (space_char c Hc) as (n & Hn & ->); cbn in Hn;
        repeat destruct Hn as [<-|Hn]; try contradiction; split; reflexivity).
  cbn [f_step]; rewrite (proj1 Hl), (proj2 Hl), andb_false_r.
  rewrite !name_prefix_space by first [reflexivity | exact Hc]; reflexivity.
Qed.

(** ** Scanning words is scanning the text *)

Lemma scan_text_word {St} (step : St -> ascii -> option St) st0 :
  (forall st c, is_space c = true -> step st c = None) ->
  forall t,
  (skip_space t = EmptyString /\ words t = [])
  \/ exists w ws, words t = w :: ws
     /\ fst (run step st0 (skip_space t)) = fst (run step st0 w)
     /\ words (snd (run step st0 (skip_space t))) = word_rest (snd (run step st0 w)) ++ ws.
Proof.
  intros Hsp t; destruct (text_first_word t) as [H | (w & t' & _ & Hw & Ht & Hs & Hwords)];
    [left; exact H | right].
  exists w, (words t'); rewrite Hs; split; [exact Hwords|].
  apply run_text_words; assumption.
Qed.

(** A conversion given by an automaton, applied by [scan_item] to the
    words of a text, does what it does on the text: same result, and the
    words left are the words of the text left. *)
Lemma scan_item_words {E St A} (step : St -> ascii -> option St) st0 (out_of : St -> option A)
    (t : string) (out : list E) hs :
  (forall st c, is_space c = true -> step st c = None) -> out_of st0 = None ->
  scan_item (fun wd => (out_of (fst (run step st0 wd)), word_rest (snd (run step st0 wd))))
    (mkWorld (words t) out hs)
  = (mkWorld (words (snd (run step st0 (skip_space t)))) out hs,
     Normal (out_of (fst (run step st0 (skip_space t))))).
Proof.
  intros Hsp H0; destruct (scan_text_word step st0 Hsp t) as [[Hs Hw] | (w & ws & Hw & Hst & Hr)].
  - rewrite Hw, Hs; cbn; rewrite H0; reflexivity.
  - rewrite Hw, Hst, Hr; reflexivity.
Qed.
