(* ===== verification/Binary.v ===== *)
(** * The IEEE-754 instance of [CArith]

    [float] is binary32 (24-bit significand, [emax = 128]) and [double] is
    binary64 (53 bits, [emax = 1024]), both as Stdlib's [spec_float] with
    the operations of [SpecFloat] (Flocq's correctly rounded operations,
    round to nearest, ties to even).  Every [float] operator of [runge.c] is
    one correctly rounded binary32 operation, as on a target whose
    [FLT_EVAL_METHOD] is 0 (SSE on x86-64).  Conversions:
    - [float] to [double] is exact ([binary_round] at 53 bits only
      re-normalises the significand; [b32_b64_roundtrip] proves that
      rounding back gives the [float]);
    - [double] to [float] and [int] to [float]/[double] round once;
    - [(int)] truncates toward zero and is undefined for NaN, infinities and
      values whose integral part is outside [INT_MIN .. INT_MAX];
    - [scanf("%f")] rounds the decimal or hexadecimal once (as glibc's
      [strtof]); [inf] and [nan] give the infinity and the NaN.
    [pow(x, p)] for an [int] [p] follows Annex F of C11 for zeros,
    infinities and NaN, and is otherwise the exact power rounded once to
    binary64 (glibc documents an error below one ulp; the model takes the
    correctly rounded value).  [fabs] clears the sign. *)

From Stdlib Require Import ZArith Bool Lia Floats.SpecFloat.
From S2P Require Import Prelude CArith.

Open Scope Z_scope.

Definition prec32 : Z := 24.
Definition emax32 : Z := 128.
Definition prec64 : Z := 53.
Definition emax64 : Z := 1024.

Abbreviation binary32 := spec_float.
Abbreviation binary64 := spec_float.

(** Rounding [(-1)^s * m * 2^e] to the format ([m] of any size). *)
Definition round_to (prec emax : Z) (x : spec_float) : spec_float :=
  match x with
  | S754_finite s m e => binary_round prec emax s m e
  | _ => x
  end.

Definition b64_of_b32 (x : binary32) : binary64 := round_to prec64 emax64 x.
Definition b32_of_b64 (x : binary64) : binary32 := round_to prec32 emax32 x.

Definition b32_of_int (z : Z) : binary32 := binary_normalize prec32 emax32 z 0 false.
Definition b64_of_int (z : Z) : binary64 := binary_normalize prec64 emax64 z 0 false.

(** [m1 * 2^e1 / (m2 * 2^e2)] for positive [m1], [m2], rounded once. *)
Definition round_quotient (prec emax : Z) (s : bool) (m1 e1 m2 e2 : Z) : spec_float :=
  let '(q, e', l) := SFdiv_core_binary prec emax m1 e1 m2 e2 in
  binary_round_aux prec emax s q e' l.

(** [strtof] of the decimal [m * 10^e]. *)
Definition b32_of_dec (m e : Z) : binary32 :=
  match e with
  | Zneg k =>
      match m with
      | Z0 => S754_zero false
      | Zpos p => round_quotient prec32 emax32 false (Zpos p) 0 (10 ^ Zpos k) 0
      | Zneg p => round_quotient prec32 emax32 true (Zpos p) 0 (10 ^ Zpos k) 0
      end
  | _ => binary_normalize prec32 emax32 (m * 10 ^ e) 0 false
  end.

(** The integral part of [(-1)^s * m * 2^e], truncated toward zero. *)
Definition trunc_finite (s : bool) (m : positive) (e : Z) : Z :=
  let t := if 0 <=? e then Zpos m * 2 ^ e else Z.shiftr (Zpos m) (- e) in
  if s then - t else t.

Definition b32_to_int (x : binary32) : option Z :=
  match x with
  | S754_zero _ => Some 0
  | S754_finite s m e =>
      let t := trunc_finite s m e in
      if in_int_range t then Some t else None
  | _ => None
  end.

(** [pow(x, p)] for an integer exponent [p]. *)
Definition b64_pow (x : binary64) (p : Z) : binary64 :=
  if p =? 0 then b64_of_int 1 else
  let odd := Z.odd p in
  match x with
  | S754_nan => S754_nan
  | S754_zero s =>
      if 0 <? p then S754_zero (s && odd) else S754_infinity (s && odd)
  | S754_infinity s =>
      if 0 <? p then S754_infinity (s && odd) else S754_zero (s && odd)
  | S754_finite s m e =>
      let sr := s && odd in
      let k := Z.abs p in
      (* |x| lies in [2^(e+d-1), 2^(e+d)); far outside the range of the
         format the power overflows or underflows without being computed *)
      let d := Zpos (digits2_pos m) in
      if 0 <? p then
        if (e + d - 1) * k >? emax64 then S754_infinity sr
        else if (e + d) * k <? emin prec64 emax64 - 1 then S754_zero sr
        else binary_round prec64 emax64 sr (Pos.pow m (Z.to_pos k)) (e * k)
      else
        (* |x|^p lies in (2^(-(e+d)k), 2^(-(e+d-1)k)] *)
        if - (e + d) * k >=? emax64 then S754_infinity sr
        else if - (e + d - 1) * k <? emin prec64 emax64 - 1 then S754_zero sr
        else round_quotient prec64 emax64 sr 1 0 (Zpos (Pos.pow m (Z.to_pos k))) (e * k)
  end.

#[export] Instance IEEEArith : CArith := {
  f32 := binary32;
  f64 := binary64;
  f64_of_f32 := b64_of_b32;
  f32_of_f64 := b32_of_b64;
  f32_of_int := b32_of_int;
  f64_of_int := b64_of_int;
  f32_of_dec := b32_of_dec;
  f32_of_hex := fun m e => binary_normalize prec32 emax32 m e false;
  f32_inf := S754_infinity false;
  f32_nan := S754_nan;
  int_of_f32 := b32_to_int;
  f32_add := SFadd prec32 emax32;
  f32_sub := SFsub prec32 emax32;
  f32_mul := SFmul prec32 emax32;
  f32_div := SFdiv prec32 emax32;
  f32_neg := SFopp;
  f32_lt := SFltb;
  f64_add := SFadd prec64 emax64;
  f64_sub := SFsub prec64 emax64;
  f64_mul := SFmul prec64 emax64;
  f64_div := SFdiv prec64 emax64;
  f64_pow := b64_pow;
  f64_fabs := SFabs
}.

(** ** The promotion of [float] to [double] is exact

    [binary_round] at 53 bits shifts the significand of a binary32 value
    left and lowers its exponent, losing nothing; rounding back to 24 bits
    shifts it right by as much and finds the value again. *)

Lemma digits2_pos_xO_iter m k : digits2_pos (Pos.iter xO m k) = (digits2_pos m + k)%positive.
Proof.
  induction k as [|k IH] using Pos.peano_ind.
  - cbn; lia.
  - rewrite Pos.iter_succ; cbn [digits2_pos]; rewrite IH; lia.
Qed.

Lemma iter_pos_iter {A} (f : A -> A) n x : iter_pos f n x = Pos.iter f x n.
Proof.
  revert x; induction n as [n IH|n IH|]; intros x; cbn [iter_pos Pos.iter].
  - rewrite !IH, Pos.iter_swap, Pos.iter_swap; reflexivity.
  - rewrite !IH; reflexivity.
  - reflexivity.
Qed.

Lemma shr_iter_xO m k :
  Pos.iter shr_1 (Build_shr_record (Zpos (Pos.iter xO m k)) false false) k
  = Build_shr_record (Zpos m) false false.
Proof.
  induction k as [|k IH] using Pos.peano_ind; [reflexivity|].
  rewrite !Pos.iter_succ, <- Pos.iter_swap; cbn [shr_1 orb]; exact IH.
Qed.

(** Rounding a significand that already has the format's exponent. *)
Lemma binary_round_aux_canonical prec emax s m e :
  fexp prec emax (Zpos (digits2_pos m) + e) = e -> e <= emax - prec ->
  binary_round_aux prec emax s (Zpos m) e loc_Exact = S754_finite s m e.
Proof.
  intros Hc He; unfold binary_round_aux, shr_fexp; cbn [Zdigits2].
  rewrite Hc, Z.sub_diag; cbn [shr shr_record_of_loc shr_m loc_of_shr_record round_nearest_even Zdigits2].
  rewrite Hc, Z.sub_diag; cbn [shr shr_m].
  apply Z.leb_le in He; rewrite He; reflexivity.
Qed.

(** Rounding [m * 2^p] at exponent [e - p] to the exponent [e] of [m]. *)
Lemma binary_round_aux_shifted prec emax s m p e :
  fexp prec emax (Zpos (digits2_pos m) + e) = e -> e <= emax - prec ->
  binary_round_aux prec emax s (Zpos (Pos.iter xO m p)) (e - Zpos p) loc_Exact = S754_finite s m e.
Proof.
  intros Hc He; unfold binary_round_aux at 1, shr_fexp at 1; cbn [Zdigits2].
  rewrite digits2_pos_xO_iter.
  replace (Zpos (digits2_pos m + p) + (e - Zpos p)) with (Zpos (digits2_pos m) + e) by lia.
  rewrite Hc; replace (e - (e - Zpos p)) with (Zpos p) by lia.
  cbn [shr shr_record_of_loc]; rewrite iter_pos_iter, shr_iter_xO.
  replace (e - Zpos p + Zpos p) with e by lia.
  cbn [shr_m loc_of_shr_record round_nearest_even].
  fold (shr_fexp prec emax (Zpos m) e loc_Exact).
  unfold shr_fexp; cbn [Zdigits2]; rewrite Hc, Z.sub_diag; cbn [shr shr_m].
  apply Z.leb_le in He; rewrite He; reflexivity.
Qed.

Lemma b32_b64_roundtrip x : valid_binary prec32 emax32 x = true -> b32_of_b64 (b64_of_b32 x) = x.
Proof.
  destruct x as [s|s| |s m e]; try reflexivity.
  unfold valid_binary, bounded, canonical_mantissa; rewrite andb_true_iff, Z.eqb_eq, Z.leb_le.
  intros [Hc He].
  assert (Hd : 0 < Zpos (digits2_pos m)) by lia.
  assert (Hc' := Hc); unfold fexp, emin, prec32, emax32 in Hc', He.
  set (p := Z.to_pos (e - Z.max (Zpos (digits2_pos m) + e - 53) (3 - 1024 - 53))).
  assert (Hp : Zpos p = e - Z.max (Zpos (digits2_pos m) + e - 53) (3 - 1024 - 53)) by (unfold p; lia).
  unfold b64_of_b32, b32_of_b64, round_to, binary_round.
  replace (fexp prec64 emax64 (Zpos (digits2_pos m) + e)) with (e - Zpos p)
    by (unfold fexp, emin, prec64, emax64; lia).
  unfold shl_align at 1; replace (e - Zpos p - e) with (Zneg p) by lia; cbv beta iota.
  change (PosDef.Pos.iter xO m p) with (Pos.iter xO m p).
  rewrite binary_round_aux_canonical
    by (try rewrite digits2_pos_xO_iter; unfold fexp, emin, prec64, emax64; lia).
  rewrite digits2_pos_xO_iter.
  replace (Zpos (digits2_pos m + p) + (e - Zpos p)) with (Zpos (digits2_pos m) + e) by lia.
  rewrite Hc; unfold shl_align; replace (e - (e - Zpos p)) with (Zpos p) by lia; cbv beta iota.
  apply binary_round_aux_shifted; [exact Hc | unfold prec32, emax32; lia].
Qed.
