(* ===== verification/Printf.v ===== *)
(** * The text [printf] writes, for the binary64 instance

    C99 7.19.6.1 for the conversions of [runge.c]: [%d] writes an [int] in
    decimal with a [-] when negative ([int_word]); [%s] writes the string;
    [%f] and [%lf] write a [double] as [[-]ddd.dddddd], six digits after
    the point, "the value rounded to the appropriate number of digits";
    with IEC 60559 arithmetic (F.5) the conversion is correctly rounded in
    the current rounding mode, to nearest with ties to even, as glibc does.
    An infinity is written [inf] or [-inf], a NaN [nan] ([spec_float]'s
    NaN carries no sign, so glibc's [-nan] does not occur).  [%%] writes
    [%].  [c_unescape] turns the source spelling of a format into the
    characters of the compiled literal, [format_text] interprets a format
    against its arguments;
    [stdout_text] is the text of the [Stdout] events of a run ([stderr]
    and [perror]'s text are not part of it).

    The theorem of the file reads back what [%f] writes: [%f] of [scanf]
    on the text of a finite [double] gives a decimal within half a unit of
    the sixth decimal place of it. *)

From Stdlib Require Import ZArith Bool Ascii String List Lia QArith Qabs Floats.SpecFloat.
From S2P Require Import Prelude CArith Scanf Binary.
Import ListNotations.

Open Scope Z_scope.

(** The exact value of a binary float, when it is finite. *)
Definition b_to_Q (x : spec_float) : option Q :=
  match x with
  | S754_zero _ => Some 0%Q
  | S754_finite s m e =>
      let v := if 0 <=? e then inject_Z (Zpos m * 2 ^ e) else (Zpos m # Pos.pow 2 (Z.to_pos (- e))) in
      Some (if s then Qopp v else v)
  | _ => None
  end.

(** [num / 2^k] rounded to the nearest integer, ties to even. *)
Definition round_half_even (num k : Z) : Z :=
  let q := num / 2 ^ k in
  let r := num mod 2 ^ k in
  if 2 * r <? 2 ^ k then q
  else if 2 ^ k <? 2 * r then q + 1
  else if Z.even q then q else q + 1.

(** [m * 2^e * 10^6] rounded: the digits [%f] writes for [m * 2^e]. *)
Definition fixed6 (m : positive) (e : Z) : Z :=
  if 0 <=? e then Zpos m * 2 ^ e * 10 ^ 6 else round_half_even (Zpos m * 10 ^ 6) (- e).

(** Exactly [k] decimal digits of [n], leading zeros included. *)
Fixpoint digits_exact (k : nat) (n : Z) (acc : string) : string :=
  match k with
  | O => acc
  | S k => digits_exact k (n / 10) (String (digit_char (n mod 10)) acc)
  end.

(** [[-]ddd.dddddd] for [n / 10^6]. *)
Definition fixed_text (neg : bool) (n : Z) : string :=
  let body := String.append (nat_text (n / 10 ^ 6))
                (String "."%char (digits_exact 6 (n mod 10 ^ 6) EmptyString)) in
  if neg then String "-"%char body else body.

(** [printf("%f", x)] *)
Definition render_f (x : binary64) : string :=
  match x with
  | S754_zero s => fixed_text s 0
  | S754_finite s m e => fixed_text s (fixed6 m e)
  | S754_infinity s => if s then "-inf"%string else "inf"%string
  | S754_nan => "nan"%string
  end.

(** A format and its arguments: the text written, or [None] when an
    argument is missing or of the wrong type (undefined behaviour);
    arguments left over are ignored, as C99 says. *)
Fixpoint format_text (fmt : string) (args : list (@arg IEEEArith)) : option string :=
  match fmt with
  | EmptyString => Some EmptyString
  | String c r =>
      if Ascii.eqb c "%" then
        match r with
        | String d r' =>
            if Ascii.eqb d "d" then
              match args with
              | AInt z :: args' => option_map (String.append (int_word z)) (format_text r' args')
              | _ => None
              end
            else if Ascii.eqb d "f" then
              match args with
              | ADouble x :: args' => option_map (String.append (render_f x)) (format_text r' args')
              | _ => None
              end
            else if Ascii.eqb d "s" then
              match args with
              | AStr s :: args' => option_map (String.append s) (format_text r' args')
              | _ => None
              end
            else if Ascii.eqb d "%" then option_map (String "%"%char) (format_text r' args)
            else if Ascii.eqb d "l" then
              match r' with
              | String e r'' =>
                  if Ascii.eqb e "f" then
                    match args with
                    | ADouble x :: args' =>
                        option_map (String.append (render_f x)) (format_text r'' args')
                    | _ => None
                    end
                  else None
              | EmptyString => None
              end
            else None
        | EmptyString => None
        end
      else option_map (String c) (format_text r args)
  end.

(** The formats of the model are spelled as in the source; the compiled
    string literal holds a newline character where the source writes the
    escape sequence [\n], the only escape [runge.c] uses. *)
Fixpoint c_unescape (s : string) : string :=
  match s with
  | String c r =>
      if Ascii.eqb c "092"%char then
        match r with
        | String d r' => if Ascii.eqb d "n"%char then String "010"%char (c_unescape r')
                         else String c (c_unescape r)
        | EmptyString => s
        end
      else String c (c_unescape r)
  | EmptyString => EmptyString
  end.

(** The text of the [Stdout] events, in order. *)
Fixpoint stdout_text (es : list (@event IEEEArith)) : option string :=
  match es with
  | [] => Some EmptyString
  | Printf Stdout fmt args :: es' =>
      match format_text (c_unescape fmt) args, stdout_text es' with
      | Some t, Some t' => Some (String.append t t')
      | _, _ => None
      end
  | _ :: es' => stdout_text es'
  end.

(** [s] ends with [suf]. *)
Definition ends_with (s suf : string) : bool :=
  String.eqb (substring (String.length s - String.length suf) (String.length suf) s) suf
  && (String.length suf <=? String.length s)%nat.

(** ** Reading back what [%f] writes *)

Lemma f_step_frac neg v j d :
  0 <= d < 10 -> f_step (FFrac neg v j) (digit_char d) = Some (FFrac neg (v * 10 + d) (j + 1)).
Proof. intros Hd; digit_cases d; reflexivity. Qed.

Lemma run_digits_exact neg k n acc v j :
  0 <= n < 10 ^ Z.of_nat k ->
  run f_step (FFrac neg v j) (digits_exact k n acc)
  = run f_step (FFrac neg (v * 10 ^ Z.of_nat k + n) (j + Z.of_nat k)) acc.
Proof.
  revert n acc v j; induction k as [|k IH]; intros n acc v j Hn.
  - cbn in Hn |- *; replace (v * 1 + n) with v by lia; rewrite Z.add_0_r; reflexivity.
  - rewrite Nat2Z.inj_succ, Z.pow_succ_r in Hn |- * by lia; cbn [digits_exact].
    rewrite IH by (split; [apply Z.div_pos | apply Z.div_lt_upper_bound]; lia).
    rewrite (run_cons _ _ _ _ (FFrac neg ((v * 10 ^ Z.of_nat k + n / 10) * 10 + n mod 10)
                                      (j + Z.of_nat k + 1)))
      by (apply f_step_frac, Z.mod_pos_bound; lia).
    f_equal; f_equal; [|lia].
    pose proof (Z.div_mod n 10 ltac:(lia)); lia.
Qed.

(** [%f] of [scanf] reads the whole of what [%f] of [printf] wrote for
    [n / 10^6] (with its sign), as the decimal [n * 10^-6]. *)
Lemma scan_fixed_text neg n :
  0 <= n -> scan_f_word (fixed_text neg n) = (Some (FDec neg n (-6)), EmptyString).
Proof.
  intros Hn; unfold scan_f_word, fixed_text.
  set (I := n / 10 ^ 6); set (F := n mod 10 ^ 6).
  assert (HI : 0 <= I) by (apply Z.div_pos; lia).
  assert (HF : 0 <= F < 10 ^ Z.of_nat 6) by (apply Z.mod_pos_bound; lia).
  assert (Hrun : run f_step (if neg then FSign true else FStart)
                   (String.append (nat_text I) (String "."%char (digits_exact 6 F EmptyString)))
                 = (FFrac neg (I * 10 ^ 6 + F) 6, EmptyString)).
  { rewrite (f_run_nat_text neg) by (destruct neg; auto).
    rewrite (run_cons _ _ _ _ (FFrac neg I 0))
      by (destruct (Z.eqb_spec I 0) as [->|]; reflexivity).
    rewrite run_digits_exact by exact HF; reflexivity. }
  destruct neg.
  - rewrite (run_cons _ _ _ _ (FSign true)) by reflexivity; rewrite Hrun.
    cbn [f_accept]; unfold I, F; rewrite Z.mul_comm, <- Z.div_mod by lia; reflexivity.
  - rewrite Hrun; cbn [f_accept]; unfold I, F; rewrite Z.mul_comm, <- Z.div_mod by lia; reflexivity.
Qed.

(** Rounding to the nearest integer is within half a unit. *)
Lemma round_half_even_bound num k :
  0 <= k -> 2 * Z.abs (round_half_even num k * 2 ^ k - num) <= 2 ^ k.
Proof.
  intros Hk; unfold round_half_even.
  assert (Hp : 0 < 2 ^ k) by (apply Z.pow_pos_nonneg; lia).
  set (p := 2 ^ k) in *.
  pose proof (Z.div_mod num p ltac:(lia)) as Hd; pose proof (Z.mod_pos_bound num p Hp) as Hr.
  set (q := num / p) in *; set (r := num mod p) in *.
  destruct (Z.ltb_spec (2 * r) p); [|destruct (Z.ltb_spec p (2 * r)); [|destruct (Z.even q)]]; nia.
Qed.

(** The value of the decimal [%f] wrote. *)
Definition dec6_Q (neg : bool) (n : Z) : Q :=
  if neg then Qopp (n # 1000000) else n # 1000000.

Lemma fixed6_nonneg m e : 0 <= fixed6 m e.
Proof.
  unfold fixed6; destruct (Z.leb_spec 0 e).
  - apply Z.mul_nonneg_nonneg; [apply Z.mul_nonneg_nonneg|]; try apply Z.pow_nonneg; lia.
  - unfold round_half_even.
    assert (Hp : 0 < 2 ^ (- e)) by (apply Z.pow_pos_nonneg; lia).
    assert (0 <= Zpos m * 10 ^ 6 / 2 ^ (- e)) by (apply Z.div_pos; lia).
    repeat match goal with |- context [if ?b then _ else _] => destruct b end; lia.
Qed.

(** A rational [z / d] against a tolerance [1 / t], in integers. *)
Lemma Qabs_frac_le z d t : (Qabs (z # d) <= 1 # t)%Q <-> Z.abs z * Zpos t <= Zpos d.
Proof. unfold Qle, Qabs; cbn [Qnum Qden]; lia. Qed.

Lemma fixed6_close m e :
  (Qabs (dec6_Q false (fixed6 m e) - (if 0 <=? e then inject_Z (Zpos m * 2 ^ e)
                                      else Zpos m # Pos.pow 2 (Z.to_pos (- e))))
   <= 1 # 2000000)%Q.
Proof.
  unfold dec6_Q, fixed6; destruct (Z.leb_spec 0 e) as [He|He].
  - setoid_replace ((Zpos m * 2 ^ e * 10 ^ 6 # 1000000) - inject_Z (Zpos m * 2 ^ e))%Q
      with (0 # 1)%Q by (unfold Qeq, Qminus, Qplus, Qopp, inject_Z; cbn [Qnum Qden]; ring).
    apply Qabs_frac_le; lia.
  - set (k := - e); set (P := Pos.pow 2 (Z.to_pos k)).
    assert (Hk : Zpos P = 2 ^ k) by (unfold P; rewrite Pos2Z.inj_pow, Z2Pos.id by lia; reflexivity).
    pose proof (round_half_even_bound (Zpos m * 10 ^ 6) k ltac:(lia)) as Hb.
    set (N := round_half_even (Zpos m * 10 ^ 6) k) in *.
    setoid_replace ((N # 1000000) - (Zpos m # P))%Q
      with ((N * Zpos P - Zpos m * 1000000) # (1000000 * P))%Q
      by (unfold Qeq, Qminus, Qplus, Qopp; cbn [Qnum Qden]; rewrite !Pos2Z.inj_mul; ring).
    apply Qabs_frac_le; rewrite Pos2Z.inj_mul, Hk; rewrite <- Hk in Hb |- *.
    change (10 ^ 6) with 1000000 in Hb; lia.
Qed.

Lemma Qabs_opp_sub a b : (Qabs (- a - - b) == Qabs (a - b))%Q.
Proof. rewrite <- Qabs_opp; apply Qabs_wd; ring. Qed.

(** ** The claim *)

(** What [printf("%f")] writes for a finite [double] is read back by
    [scanf("%f")]: the whole text is one matching sequence [[-]d...d.dddddd],
    read as the decimal [n * 10^-6] with the sign of the [double], and
    that decimal is within half a unit of the sixth decimal place,
    [5 * 10^-7], of the [double]'s exact value. *)
Theorem printf_f_roundtrip (x : binary64) (q : Q) :
  b_to_Q x = Some q ->
  exists neg n, scan_f_word (render_f x) = (Some (FDec neg n (-6)), EmptyString)
                /\ (Qabs (dec6_Q neg n - q) <= 1 # 2000000)%Q.
Proof.
  destruct x as [s|s| |s m e]; unfold b_to_Q; intros H; try discriminate; injection H as <-.
  - exists s, 0; split; [apply scan_fixed_text; lia|].
    destruct s; unfold dec6_Q; cbv; discriminate.
  - exists s, (fixed6 m e); split; [apply scan_fixed_text, fixed6_nonneg|].
    pose proof (fixed6_close m e) as Hc; cbv zeta.
    destruct s; [|exact Hc].
    unfold dec6_Q in *; rewrite Qabs_opp_sub; exact Hc.
Qed.

Lemma printf_f_roundtrip_witness :
  b_to_Q (S754_finite false 12343991 (-25)) = Some (12343991 # 33554432)%Q
  /\ exists neg n,
       scan_f_word (render_f (S754_finite false 12343991 (-25)))
       = (Some (FDec neg n (-6)), EmptyString)
       /\ (Qabs (dec6_Q neg n - (12343991 # 33554432)) <= 1 # 2000000)%Q.
Proof. split; [reflexivity | apply printf_f_roundtrip; reflexivity]. Defined.
