(* ===== verification/RealArith.v ===== *)
(** * The exact instance of [CArith]: real numbers

    Both [float] and [double] are [R]; every operation is exact, the
    conversions are the identity, [pow] is [powerRZ], and the [(int)] cast
    truncates toward zero and is undefined outside [INT_MIN .. INT_MAX], as
    in C.  This instance gives the mathematical meaning of [runge.c]: the
    theorems of [RK4Real.v] are stated on it.  It departs from IEEE
    arithmetic exactly where rounding, overflow or the special values
    matter (division by zero is [0] in Stdlib's [R], where binary32 gives an
    infinity or NaN; [R] has no infinity or NaN, and [scanf("%f")] of
    [inf] or [nan] gives [0] here, an input no theorem on [R] reads);
    [Binary.v] is the instance for those questions. *)

From Stdlib Require Import ZArith Bool Reals Lra Lia Zfloor.
From S2P Require Import Prelude CArith.

Open Scope R_scope.

Definition R_ltb (x y : R) : bool := if Rlt_dec x y then true else false.

(** Truncation toward zero. *)
Definition R_trunc (x : R) : Z := if Rle_dec 0 x then Zfloor x else Zceil x.

Definition R_to_int (x : R) : option Z :=
  let t := R_trunc x in if in_int_range t then Some t else None.

Definition R_of_dec (m e : Z) : R := IZR m * powerRZ 10 e.

#[export] Instance RealArith : CArith := {
  f32 := R;
  f64 := R;
  f64_of_f32 := fun x => x;
  f32_of_f64 := fun x => x;
  f32_of_int := IZR;
  f64_of_int := IZR;
  f32_of_dec := R_of_dec;
  f32_of_hex := fun m e => IZR m * powerRZ 2 e;
  f32_inf := 0;
  f32_nan := 0;
  int_of_f32 := R_to_int;
  f32_add := Rplus;
  f32_sub := Rminus;
  f32_mul := Rmult;
  f32_div := Rdiv;
  f32_neg := Ropp;
  f32_lt := R_ltb;
  f64_add := Rplus;
  f64_sub := Rminus;
  f64_mul := Rmult;
  f64_div := Rdiv;
  f64_pow := powerRZ;
  f64_fabs := Rabs
}.

(** ** Facts about the instance's comparison and truncation *)

Lemma R_ltb_true x y : x < y -> R_ltb x y = true.
Proof. intros H; unfold R_ltb; destruct (Rlt_dec x y); [reflexivity | contradiction]. Qed.

Lemma R_ltb_false x y : y <= x -> R_ltb x y = false.
Proof. intros H; unfold R_ltb; destruct (Rlt_dec x y); [lra | reflexivity]. Qed.

Lemma R_trunc_nonneg x : 0 <= x -> R_trunc x = Zfloor x.
Proof. intros H; unfold R_trunc; destruct (Rle_dec 0 x); [reflexivity | contradiction]. Qed.

Lemma R_trunc_neg x : x < 0 -> R_trunc x = Zceil x.
Proof. intros H; unfold R_trunc; destruct (Rle_dec 0 x); [lra | reflexivity]. Qed.

(** A negative quotient truncates to a non-positive count. *)
Lemma R_trunc_neg_nonpos x : x < 0 -> (R_trunc x <= 0)%Z.
Proof.
  intros H; rewrite R_trunc_neg by exact H.
  apply Z.lt_succ_r, lt_IZR; rewrite succ_IZR.
  pose proof (Zceil_bound x); lra.
Qed.

(** A non-negative quotient truncates to its floor. *)
Lemma R_trunc_floor x : 0 <= x -> IZR (R_trunc x) <= x < IZR (R_trunc x) + 1.
Proof. intros H; rewrite R_trunc_nonneg by exact H; apply Zfloor_bound. Qed.

Lemma R_trunc_nonpos x : x <= 0 -> (R_trunc x <= 0)%Z.
Proof.
  intros H; destruct (Rle_lt_or_eq_dec x 0 H) as [Hlt | ->].
  - apply R_trunc_neg_nonpos, Hlt.
  - rewrite R_trunc_nonneg by lra; change 0 with (IZR 0); rewrite ZfloorZ; lia.
Qed.

Lemma R_to_int_some x n : R_to_int x = Some n -> n = R_trunc x.
Proof.
  unfold R_to_int; destruct (in_int_range (R_trunc x)); [congruence | discriminate].
Qed.

(** A quotient in [[0, 2^31)] casts to its floor. *)
Lemma R_to_int_floor x : 0 <= x < IZR (2 ^ 31) -> R_to_int x = Some (Zfloor x).
Proof.
  intros [H0 H1]; unfold R_to_int; rewrite R_trunc_nonneg by exact H0.
  pose proof (Zfloor_bound x) as [Hb _].
  assert (Hl : (0 <= Zfloor x)%Z) by (apply Zfloor_lub; exact H0).
  assert (Hu : (Zfloor x < 2 ^ 31)%Z) by (apply lt_IZR; lra).
  unfold in_int_range, INT_MIN, INT_MAX.
  replace ((- 2 ^ 31 <=? Zfloor x)%Z && (Zfloor x <=? 2 ^ 31 - 1)%Z) with true
    by (symmetry; apply andb_true_iff; split; [apply Z.leb_le | apply Z.leb_le]; lia).
  reflexivity.
Qed.

(** An integral quotient casts to itself. *)
Lemma R_to_int_IZR z : in_int_range z = true -> R_to_int (IZR z) = Some z.
Proof.
  intros Hr; unfold R_to_int.
  replace (R_trunc (IZR z)) with z; [rewrite Hr; reflexivity|].
  destruct (Z_le_gt_dec 0 z) as [Hz | Hz].
  - rewrite R_trunc_nonneg by (apply IZR_le; exact Hz); symmetry; apply ZfloorZ.
  - rewrite R_trunc_neg by (apply IZR_lt; lia).
    unfold Zceil; rewrite <- opp_IZR, ZfloorZ; lia.
Qed.

(** A quotient of magnitude below [2^31] casts to its truncation. *)
Lemma R_to_int_range x : Rabs x < IZR (2 ^ 31) -> R_to_int x = Some (R_trunc x).
Proof.
  intros Hx; unfold R_to_int.
  replace (in_int_range (R_trunc x)) with true; [reflexivity|].
  symmetry; unfold in_int_range, INT_MIN, INT_MAX; apply andb_true_iff.
  destruct (Rle_dec 0 x) as [H0 | H0].
  - rewrite Rabs_right in Hx by lra; rewrite R_trunc_nonneg by exact H0.
    pose proof (Zfloor_bound x) as [Hb _].
    assert (Hl : (0 <= Zfloor x)%Z) by (apply Zfloor_lub; exact H0).
    assert (Hu : (Zfloor x < 2 ^ 31)%Z) by (apply lt_IZR; lra).
    split; apply Z.leb_le; lia.
  - rewrite Rabs_left in Hx by lra; rewrite R_trunc_neg by lra.
    pose proof (Zceil_bound x) as [_ Hb].
    assert (Hu : (Zceil x <= 0)%Z) by (apply Z.lt_succ_r, lt_IZR; rewrite succ_IZR;
                                      pose proof (Zceil_bound x); lra).
    assert (Hl : (- 2 ^ 31 < Zceil x)%Z) by (apply lt_IZR; rewrite opp_IZR; lra).
    split; apply Z.leb_le; lia.
Qed.
