(* ===== verification/Equation.v ===== *)
(** * The equation model: [struct EQUATION], [calculate_gx],
      [calculateDerivative] and [printEquation] of [src/runge.c]

    The record [EQUATION] is the C struct: the two [int] coefficients, the
    term count and the two arrays that [main] allocates with exactly
    [gx_term_count] elements.  [calculate_gx] is the loop summing
    [c[i] * pow(t, p[i])] into a [float] accumulator, with the [double]
    intermediate the C expression computes; reading an array element past
    its end is undefined behaviour and makes [calculate_gx] return [None].
    [calculateDerivative] checks the [y'] coefficient and [exit]s on zero,
    otherwise it evaluates [(g(x) - b*y) / a] in [float].  Everything is
    stated over an arbitrary [CArith] instance. *)

From Stdlib Require Import ZArith String List Lia.
From S2P Require Import Prelude CArith.
Import ListNotations.

Open Scope Z_scope.
Open Scope cprog_scope.

Section EquationModel.
Context {CA : CArith}.

(** [typedef struct EQUATION { ... } EQUATION;] *)
Record EQUATION := mkEQUATION {
  y_coefficient : Z;
  y_prime_coefficient : Z;
  gx_term_count : Z;
  gx_coefficients : list f32;
  gx_powers : list Z
}.

(** The arrays hold [gx_term_count] elements, as [main] allocates and fills
    them. *)
Definition equation_wfb (equation : EQUATION) : bool :=
  (0 <=? gx_term_count equation)
  && Nat.eqb (length (gx_coefficients equation)) (Z.to_nat (gx_term_count equation))
  && Nat.eqb (length (gx_powers equation)) (Z.to_nat (gx_term_count equation)).

Definition equation_wf (equation : EQUATION) : Prop :=
  0 <= gx_term_count equation
  /\ length (gx_coefficients equation) = Z.to_nat (gx_term_count equation)
  /\ length (gx_powers equation) = Z.to_nat (gx_term_count equation).

(** One execution of [result += gx_coefficients[i] * pow(t, gx_powers[i]);]:
    [result] and the coefficient are promoted to [double], [pow] returns a
    [double], the sum is converted back to [float] on assignment. *)
Definition gx_term (result c t : f32) (p : Z) : f32 :=
  f32_of_f64 (f64_add (f64_of_f32 result)
                      (f64_mul (f64_of_f32 c) (f64_pow (f64_of_f32 t) p))).

(** The loop [for (i = 0; i < gx_term_count; i++)] from counter [i] with
    [k] iterations left. *)
Fixpoint gx_loop (cs : list f32) (ps : list Z) (t : f32) (i k : nat) (result : f32)
  : option f32 :=
  match k with
  | O => Some result
  | S k' =>
      match nth_error cs i, nth_error ps i with
      | Some c, Some p => gx_loop cs ps t (S i) k' (gx_term result c t p)
      | _, _ => None
      end
  end.

(** [float calculate_gx(EQUATION *equation, float t)]; [float result = 0]. *)
Definition calculate_gx (equation : EQUATION) (t : f32) : option f32 :=
  gx_loop (gx_coefficients equation) (gx_powers equation) t
          0 (Z.to_nat (gx_term_count equation)) (f32_of_int 0).

(** The reference definition of [g(x)]: the terms folded left to right. *)
Definition gx_terms (equation : EQUATION) : list (f32 * Z) :=
  combine (gx_coefficients equation) (gx_powers equation).

Definition gx_sum (terms : list (f32 * Z)) (t : f32) : f32 :=
  fold_left (fun r '(c, p) => gx_term r c t p) terms (f32_of_int 0).

(** [(calculate_gx(equation, x) - y_coefficient * y) / y_prime_coefficient]
    once [g(x)] is known: the [int] operands are converted to [float]. *)
Definition derivative_value (equation : EQUATION) (gx y : f32) : f32 :=
  f32_div (f32_sub gx (f32_mul (f32_of_int (y_coefficient equation)) y))
          (f32_of_int (y_prime_coefficient equation)).

Definition msg_zero_coefficient : string :=
  "Error: Coefficient of y' is zero, cannot calculate derivative.\n".

(** [float calculateDerivative(float x, float y, EQUATION *equation)] *)
Definition calculateDerivative (x y : f32) (equation : EQUATION) : CM f32 :=
  if y_prime_coefficient equation =? 0 then
    fprintf_stderr msg_zero_coefficient [] ;;
    c_exit EXIT_FAILURE
  else
    gx <- of_option (calculate_gx equation x) ;;
    ret (derivative_value equation gx y).

(** [void printEquation(EQUATION *equation)] *)
Definition term_separator (i count : Z) : string :=
  if i <? count - 1 then " + " else EmptyString.

Definition printEquation (equation : EQUATION) : CM unit :=
  printf "%d*y' + %d*y = "
    [AInt (y_prime_coefficient equation); AInt (y_coefficient equation)] ;;
  _ <- c_for (gx_term_count equation)
         (fun i _ =>
            c <- of_option (nth_error (gx_coefficients equation) (Z.to_nat i)) ;;
            p <- of_option (nth_error (gx_powers equation) (Z.to_nat i)) ;;
            printf "( %lf * x^%d )%s"
              [ADouble (f64_of_f32 c); AInt p;
               AStr (term_separator i (gx_term_count equation))]) tt ;;
  printf "\n" [].

(** ** The loop of [calculate_gx] *)

Lemma equation_wfb_spec (equation : EQUATION) :
  equation_wfb equation = true <-> equation_wf equation.
Proof.
  unfold equation_wfb, equation_wf.
  rewrite !Bool.andb_true_iff, Z.leb_le, !Nat.eqb_eq; tauto.
Qed.

Lemma gx_loop_shift cs ps c p t i k r :
  gx_loop (c :: cs) (p :: ps) t (S i) k r = gx_loop cs ps t i k r.
Proof.
  revert i r; induction k as [|k IH]; intros i r; [reflexivity|].
  simpl; destruct (nth_error cs i), (nth_error ps i); auto.
Qed.

Lemma gx_loop_cons cs ps c p t k r :
  gx_loop (c :: cs) (p :: ps) t 0 (S k) r = gx_loop cs ps t 0 k (gx_term r c t p).
Proof. simpl; apply gx_loop_shift. Qed.

(** Within the bounds of both arrays the loop is the left fold of its terms. *)
Lemma gx_loop_fold cs ps t k r :
  (k <= length cs)%nat -> (k <= length ps)%nat ->
  gx_loop cs ps t 0 k r
  = Some (fold_left (fun r '(c, p) => gx_term r c t p) (firstn k (combine cs ps)) r).
Proof.
  revert ps k r; induction cs as [|c cs IH]; intros ps k r Hc Hp.
  - simpl in Hc; replace k with O by lia; reflexivity.
  - destruct ps as [|p ps]; [simpl in Hp; replace k with O by lia; reflexivity|].
    destruct k as [|k]; [reflexivity|].
    rewrite gx_loop_cons, IH by (simpl in *; lia); reflexivity.
Qed.

(** The loop reads past the end of an array exactly when one of them is
    shorter than the number of iterations. *)
Lemma gx_loop_none cs ps t k r :
  gx_loop cs ps t 0 k r = None <-> (length cs < k \/ length ps < k)%nat.
Proof.
  revert ps k r; induction cs as [|c cs IH]; intros ps k r.
  - destruct k; simpl; [split; [discriminate | lia]|].
    split; [lia | reflexivity].
  - destruct ps as [|p ps].
    + destruct k; simpl; [split; [discriminate | lia]|].
      split; [lia | reflexivity].
    + destruct k as [|k]; [simpl; split; [discriminate | lia]|].
      rewrite gx_loop_cons, IH; simpl; lia.
Qed.

(** ** [calculate_gx] *)

(** C10: for a well-formed equation the loop of [calculate_gx] stays within
    both arrays and computes the left fold of the terms [c_i * pow(t, p_i)]
    into the [float] accumulator started at [0]. *)
Theorem calculate_gx_correct (equation : EQUATION) (t : f32) :
  equation_wf equation -> calculate_gx equation t = Some (gx_sum (gx_terms equation) t).
Proof.
  intros (Hc & Hcs & Hps); unfold calculate_gx, gx_sum, gx_terms.
  rewrite gx_loop_fold by lia; rewrite firstn_all2; [reflexivity|].
  rewrite length_combine; lia.
Qed.

(** C11: [calculate_gx] reads past the end of an array (undefined behaviour)
    exactly when an array holds fewer than [gx_term_count] elements. *)
Theorem calculate_gx_out_of_bounds (equation : EQUATION) (t : f32) :
  calculate_gx equation t = None
  <-> (length (gx_coefficients equation) < Z.to_nat (gx_term_count equation)
       \/ length (gx_powers equation) < Z.to_nat (gx_term_count equation))%nat.
Proof. apply gx_loop_none. Qed.

(** ** [calculateDerivative] *)

(** The right-hand side [y' = (g(x) - b*y) / a] as the code evaluates it. *)
Definition equation_rhs (equation : EQUATION) (x y : f32) : f32 :=
  derivative_value equation (gx_sum (gx_terms equation) x) y.

(** The arrays hold [count] elements, read as [0] elements when [count] is
    negative: all that [calculate_gx] needs to stay in bounds. *)
Definition equation_shape (equation : EQUATION) : Prop :=
  length (gx_coefficients equation) = Z.to_nat (gx_term_count equation)
  /\ length (gx_powers equation) = Z.to_nat (gx_term_count equation).

Lemma equation_wf_shape (equation : EQUATION) : equation_wf equation -> equation_shape equation.
Proof. intros (_ & Hcs & Hps); split; assumption. Qed.

Lemma calculateDerivative_pure (equation : EQUATION) :
  equation_shape equation -> y_prime_coefficient equation <> 0 ->
  forall x y, writes (calculateDerivative x y equation) [] (Normal (equation_rhs equation x y)).
Proof.
  intros (Hcs & Hps) Ha x y; unfold calculateDerivative, calculate_gx.
  apply Z.eqb_neq in Ha; rewrite Ha, gx_loop_fold by lia.
  rewrite firstn_all2 by (rewrite length_combine; lia).
  apply writes_ret.
Qed.

Definition zero_coefficient_error : event :=
  Printf Stderr msg_zero_coefficient [].

Lemma calculateDerivative_zero (equation : EQUATION) x y :
  y_prime_coefficient equation = 0 ->
  writes (calculateDerivative x y equation) [zero_coefficient_error] (Exit EXIT_FAILURE).
Proof.
  intros Ha; unfold calculateDerivative; rewrite Ha; simpl.
  eapply writes_bind_eq; [apply writes_emit | apply writes_exit | reflexivity].
Qed.

(** ** [printEquation] *)

Definition equation_header (equation : EQUATION) : event :=
  Printf Stdout "%d*y' + %d*y = "
    [AInt (y_prime_coefficient equation); AInt (y_coefficient equation)].

Definition term_event (c : f32) (p : Z) (sep : string) : event :=
  Printf Stdout "( %lf * x^%d )%s" [ADouble (f64_of_f32 c); AInt p; AStr sep].

Definition newline_event : event := Printf Stdout "\n" [].

(** The rendering of the terms: each term followed by [" + "], except the
    last one. *)
Fixpoint describe_terms (terms : list (f32 * Z)) : list event :=
  match terms with
  | [] => []
  | [(c, p)] => [term_event c p EmptyString]
  | (c, p) :: rest => term_event c p " + " :: describe_terms rest
  end.

Lemma term_separator_succ i k : term_separator (Z.succ i) (Z.succ k) = term_separator i k.
Proof.
  unfold term_separator.
  replace (Z.succ i <? Z.succ k - 1) with (i <? k - 1); [reflexivity|].
  destruct (Z.ltb_spec i (k - 1)), (Z.ltb_spec (Z.succ i) (Z.succ k - 1)); lia.
Qed.

(** The term events of the index loop are the structural rendering. *)
Lemma term_events_describe cs ps k (d : f32) :
  length cs = k -> length ps = k ->
  map (fun j => term_event (nth j cs d) (nth j ps 0) (term_separator (Z.of_nat j) (Z.of_nat k)))
      (seq 0 k)
  = describe_terms (combine cs ps).
Proof.
  revert ps k; induction cs as [|c cs IH]; intros ps k Hc Hp.
  - subst k; reflexivity.
  - destruct ps as [|p ps]; [simpl in *; lia|].
    destruct k as [|k]; [discriminate|]; injection Hc as Hc; injection Hp as Hp.
    cbn [seq map nth]; rewrite <- seq_shift, map_map.
    rewrite (map_ext _ (fun j => term_event (nth j cs d) (nth j ps 0)
                                   (term_separator (Z.of_nat j) (Z.of_nat k))))
      by (intros j; rewrite !Nat2Z.inj_succ, term_separator_succ; reflexivity).
    rewrite IH by lia; clear IH.
    destruct cs as [|c' cs']; destruct ps as [|p' ps']; cbn [length] in Hc, Hp; try lia.
    + subst k; reflexivity.
    + unfold term_separator at 1; replace (Z.of_nat 0 <? Z.of_nat (S k) - 1) with true
        by (symmetry; apply Z.ltb_lt; lia).
      reflexivity.
Qed.

Lemma printEquation_events (equation : EQUATION) :
  equation_wf equation ->
  writes (printEquation equation)
    (equation_header equation :: describe_terms (gx_terms equation) ++ [newline_event])
    (Normal tt).
Proof.
  intros (Hc & Hcs & Hps); unfold printEquation.
  wskip.
  set (d := f32_of_int 0).
  eapply writes_bind_eq;
    [ apply (c_for_aux_writes (fun _ _ => tt)
               (fun i _ => [term_event (nth (Z.to_nat i) (gx_coefficients equation) d)
                                       (nth (Z.to_nat i) (gx_powers equation) 0)
                                       (term_separator i (gx_term_count equation))]))
    | apply writes_emit | ].
  - intros j [] Hj.
    rewrite (nth_error_nth' (gx_coefficients equation) d) by lia.
    rewrite (nth_error_nth' (gx_powers equation) 0) by lia.
    wskip.
    eapply writes_bind_eq; [apply writes_ret | apply writes_emit | reflexivity].
  - rewrite (loop_events_single_map (fun _ _ => tt)
               (fun i _ => term_event (nth (Z.to_nat i) (gx_coefficients equation) d)
                                      (nth (Z.to_nat i) (gx_powers equation) 0)
                                      (term_separator i (gx_term_count equation)))).
    rewrite (map_ext _ (fun j => term_event (nth j (gx_coefficients equation) d)
                                   (nth j (gx_powers equation) 0)
                                   (term_separator (Z.of_nat j) (Z.of_nat (Z.to_nat (gx_term_count equation))))))
      by (intros j; rewrite Z.add_0_l, Nat2Z.id, Z2Nat.id by exact Hc; reflexivity).
    unfold gx_terms; rewrite term_events_describe by assumption.
    reflexivity.
Qed.

(** With no term to print ([count <= 0]) only the two fixed parts are
    printed. *)
Lemma printEquation_nonpos (equation : EQUATION) :
  gx_term_count equation <= 0 ->
  writes (printEquation equation) [equation_header equation; newline_event] (Normal tt).
Proof.
  intros Hc; unfold printEquation; rewrite c_for_nonpos by exact Hc.
  wskip.
  eapply writes_bind_eq; [apply writes_ret | apply writes_emit | reflexivity].
Qed.

(** C14: [printEquation] of a well-formed equation prints
    [a*y' + b*y = ], then every term [( c * x^p )] in array order, each
    followed by [ + ] except the last, then a newline. *)
Theorem printEquation_output (equation : EQUATION) :
  equation_wf equation ->
  writes (printEquation equation)
    (equation_header equation :: describe_terms (gx_terms equation) ++ [newline_event])
    (Normal tt).
Proof. apply printEquation_events. Qed.

End EquationModel.

Arguments EQUATION {CA}.
