(* ===== verification/RungeKutta.v ===== *)
(** * The RK4 integrator: [rungeKutta] of [src/runge.c]

    [rungeKutta] fixes the sign of the step from the direction of the
    target, computes the iteration count with an [(int)] cast, prints
    [ITERATIONS], then runs [n] iterations, each printing the state before
    updating it with the four derivative samples of classical RK4.

    The section [Integrator] is written against an arbitrary derivative
    [deriv] (the call [calculateDerivative(x, y, equation)]), so that the
    integrator's theorems are proved once for every derivative that returns
    without output, and separately for the derivative that [exit]s;
    [rungeKutta] instantiates it with [calculateDerivative]. *)

From Stdlib Require Import ZArith String List Lia.
From S2P Require Import Prelude CArith Equation.
Import ListNotations.

Open Scope Z_scope.
Open Scope cprog_scope.

Section Integrator.
Context {CA : CArith}.

(** [calculateDerivative(., ., equation)] *)
Variable deriv : f32 -> f32 -> CM f32.

(** The argument [current_x + 0.5 * h] (or [y + 0.5 * k]): computed in
    [double], converted to the [float] parameter. *)
Definition add_half (a b : f32) : f32 :=
  f32_of_f64 (f64_add (f64_of_f32 a) (f64_mul lit_half (f64_of_f32 b))).

(** [k1 + 2 * k2 + 2 * k3 + k4] in [float]. *)
Definition rk4_sum (k1 k2 k3 k4 : f32) : f32 :=
  f32_add (f32_add (f32_add k1 (f32_mul (f32_of_int 2) k2))
                   (f32_mul (f32_of_int 2) k3)) k4.

(** [y + (1.0 / 6.0) * (...)] in [double], assigned to the [float] [y]. *)
Definition rk4_combine (y s : f32) : f32 :=
  f32_of_f64 (f64_add (f64_of_f32 y) (f64_mul lit_sixth (f64_of_f32 s))).

(** The body of the loop after its [printf]: the four derivative calls in
    program order, then the updates of [y] and [current_x]. *)
Definition rk4_update (h current_x y : f32) : CM (f32 * f32) :=
  d1 <- deriv current_x y ;;
  let k1 := f32_mul h d1 in
  d2 <- deriv (add_half current_x h) (add_half y k1) ;;
  let k2 := f32_mul h d2 in
  d3 <- deriv (add_half current_x h) (add_half y k2) ;;
  let k3 := f32_mul h d3 in
  d4 <- deriv (f32_add current_x h) (f32_add y k3) ;;
  let k4 := f32_mul h d4 in
  ret (f32_add current_x h, rk4_combine y (rk4_sum k1 k2 k3 k4)).

Definition trace_event (current_x y : f32) : event :=
  Printf Stdout "f(%lf)=%lf\n" [ADouble (f64_of_f32 current_x); ADouble (f64_of_f32 y)].

(** One iteration of [for (i = 0; i < n; i++) { ... }]. *)
Definition rk4_iteration (h : f32) (i : Z) (s : f32 * f32) : CM (f32 * f32) :=
  let '(current_x, y) := s in
  emit (trace_event current_x y) ;;
  rk4_update h current_x y.

(** [if (x_target < x0) h = -h;] *)
Definition step_direction (x0 x_target h : f32) : f32 :=
  if f32_lt x_target x0 then f32_neg h else h.

(** [(int)((x_target - x0) / h)], with the adjusted [h]. *)
Definition iteration_count (x0 x_target h : f32) : option Z :=
  int_of_f32 (f32_div (f32_sub x_target x0) (step_direction x0 x_target h)).

Definition rungeKutta_with (x0 y0 x_target h : f32) : CM f32 :=
  let h' := step_direction x0 x_target h in
  n <- of_option (iteration_count x0 x_target h) ;;
  printf "ITERATIONS\n" [] ;;
  '(_, y) <- c_for n (rk4_iteration h') (x0, y0) ;;
  ret y.

End Integrator.

(** [float rungeKutta(float x0, float y0, float x_target, float h, EQUATION *equation)] *)
Definition rungeKutta {CA : CArith} (x0 y0 x_target h : f32) (equation : EQUATION) : CM f32 :=
  rungeKutta_with (fun x y => calculateDerivative x y equation) x0 y0 x_target h.

(** ** Runs whose derivative returns without output *)

Section PureDerivative.
Context {CA : CArith}.
Variable deriv : f32 -> f32 -> CM f32.
Variable f : f32 -> f32 -> f32.
Hypothesis deriv_pure : forall x y, writes (deriv x y) [] (Normal (f x y)).

(** The state after one iteration, as a function. *)
Definition rk4_pure (h current_x y : f32) : f32 * f32 :=
  let k1 := f32_mul h (f current_x y) in
  let k2 := f32_mul h (f (add_half current_x h) (add_half y k1)) in
  let k3 := f32_mul h (f (add_half current_x h) (add_half y k2)) in
  let k4 := f32_mul h (f (f32_add current_x h) (f32_add y k3)) in
  (f32_add current_x h, rk4_combine y (rk4_sum k1 k2 k3 k4)).

Definition rk_step (h : f32) (_ : Z) (s : f32 * f32) : f32 * f32 :=
  rk4_pure h (fst s) (snd s).

Definition rk_event (_ : Z) (s : f32 * f32) : list event :=
  [trace_event (fst s) (snd s)].

(** The state after [k] iterations, and the trace they print. *)
Definition rk_state (h : f32) (k : nat) (s : f32 * f32) : f32 * f32 :=
  loop_state (rk_step h) k 0 s.

Definition rk_trace (h : f32) (k : nat) (s : f32 * f32) : list event :=
  loop_events (rk_step h) rk_event k 0 s.

Lemma rk4_update_pure h x y :
  writes (rk4_update deriv h x y) [] (Normal (rk4_pure h x y)).
Proof.
  unfold rk4_update, rk4_pure.
  wstep ltac:(apply deriv_pure).
  - wstep ltac:(apply deriv_pure).
    + wstep ltac:(apply deriv_pure).
      * wstep ltac:(apply deriv_pure); [apply writes_ret | reflexivity].
      * reflexivity.
    + reflexivity.
  - reflexivity.
Qed.

Lemma rk4_iteration_pure h i s :
  writes (rk4_iteration deriv h i s) (rk_event i s) (Normal (rk_step h i s)).
Proof.
  destruct s as [x y]; unfold rk4_iteration.
  eapply writes_bind_eq; [apply writes_emit | apply rk4_update_pure | reflexivity].
Qed.

Lemma c_for_rk4 h n s :
  writes (c_for n (rk4_iteration deriv h) s)
         (rk_trace h (Z.to_nat n) s) (Normal (rk_state h (Z.to_nat n) s)).
Proof. apply c_for_aux_writes; intros; apply rk4_iteration_pure. Qed.

End PureDerivative.

Definition iterations_header {CA : CArith} : event := Printf Stdout "ITERATIONS\n" [].

Lemma writes_ret_snd {CA : CArith} (s : f32 * f32) :
  writes (match s with (_, y) => ret y end : CM f32) [] (Normal (snd s)).
Proof. destruct s; apply writes_ret. Qed.

Lemma length_rk_trace {CA : CArith} f h k s : length (rk_trace f h k s) = k.
Proof. unfold rk_trace; rewrite (length_loop_events _ _ 1) by reflexivity; lia. Qed.

Section Runs.
Context {CA : CArith}.

Lemma rungeKutta_with_pure (deriv : f32 -> f32 -> CM f32) f x0 y0 x_target h n :
  (forall x y, writes (deriv x y) [] (Normal (f x y))) ->
  iteration_count x0 x_target h = Some n ->
  writes (rungeKutta_with deriv x0 y0 x_target h)
    (iterations_header :: rk_trace f (step_direction x0 x_target h) (Z.to_nat n) (x0, y0))
    (Normal (snd (rk_state f (step_direction x0 x_target h) (Z.to_nat n) (x0, y0)))).
Proof.
  intros Hd Hn; unfold rungeKutta_with; rewrite Hn; cbn [of_option].
  wskip.
  wskip.
  eapply writes_bind_eq; [apply c_for_rk4, Hd | apply writes_ret_snd | ].
  rewrite app_nil_r; reflexivity.
Qed.

Lemma rungeKutta_with_nonpos (deriv : f32 -> f32 -> CM f32) x0 y0 x_target h n :
  iteration_count x0 x_target h = Some n -> n <= 0 ->
  writes (rungeKutta_with deriv x0 y0 x_target h) [iterations_header] (Normal y0).
Proof.
  intros Hn Hle; unfold rungeKutta_with; rewrite Hn; cbn [of_option].
  wskip.
  wskip.
  rewrite c_for_nonpos by exact Hle; apply writes_ret.
Qed.

Lemma rungeKutta_shape_run (equation : EQUATION) x0 y0 x_target h n :
  equation_shape equation -> y_prime_coefficient equation <> 0 ->
  iteration_count x0 x_target h = Some n ->
  writes (rungeKutta x0 y0 x_target h equation)
    (iterations_header
       :: rk_trace (equation_rhs equation) (step_direction x0 x_target h) (Z.to_nat n) (x0, y0))
    (Normal (snd (rk_state (equation_rhs equation) (step_direction x0 x_target h)
                    (Z.to_nat n) (x0, y0)))).
Proof.
  intros Hwf Ha Hn; apply rungeKutta_with_pure; [|exact Hn].
  intros; apply calculateDerivative_pure; assumption.
Qed.

Lemma rungeKutta_pure_run (equation : EQUATION) x0 y0 x_target h n :
  equation_wf equation -> y_prime_coefficient equation <> 0 ->
  iteration_count x0 x_target h = Some n ->
  writes (rungeKutta x0 y0 x_target h equation)
    (iterations_header
       :: rk_trace (equation_rhs equation) (step_direction x0 x_target h) (Z.to_nat n) (x0, y0))
    (Normal (snd (rk_state (equation_rhs equation) (step_direction x0 x_target h)
                    (Z.to_nat n) (x0, y0)))).
Proof. intros Hwf; apply rungeKutta_shape_run, equation_wf_shape, Hwf. Qed.

Lemma rungeKutta_with_undefined (equation : EQUATION) x0 y0 x_target h :
  iteration_count x0 x_target h = None ->
  writes (rungeKutta x0 y0 x_target h equation) [] Undefined.
Proof.
  intros Hn; unfold rungeKutta, rungeKutta_with; rewrite Hn; cbn [of_option].
  autorewrite with cprog_rw; auto with cprog.
Qed.

(** C2: the functional behaviour of [rungeKutta] on a well-formed
    equation with a non-zero [y'] coefficient: when the cast
    [(int)((x_target - x0) / h)] is defined and gives [n], the function
    prints [ITERATIONS], then one line per iteration, and returns the [y]
    of the state reached after [max n 0] RK4 steps of the adjusted [h]; no
    partial final step is taken. *)
Theorem rungeKutta_spec (equation : EQUATION) x0 y0 x_target h n :
  equation_wf equation -> y_prime_coefficient equation <> 0 ->
  iteration_count x0 x_target h = Some n ->
  writes (rungeKutta x0 y0 x_target h equation)
    (iterations_header
       :: rk_trace (equation_rhs equation) (step_direction x0 x_target h) (Z.to_nat n) (x0, y0))
    (Normal (snd (rk_state (equation_rhs equation) (step_direction x0 x_target h)
                    (Z.to_nat n) (x0, y0)))).
Proof. apply rungeKutta_pure_run. Qed.

Lemma rungeKutta_zero_run (equation : EQUATION) x0 y0 x_target h n :
  y_prime_coefficient equation = 0 ->
  iteration_count x0 x_target h = Some n -> 0 < n ->
  writes (rungeKutta x0 y0 x_target h equation)
    [iterations_header; trace_event x0 y0; zero_coefficient_error] (Exit EXIT_FAILURE).
Proof.
  intros Ha Hn Hpos; unfold rungeKutta, rungeKutta_with; rewrite Hn; cbn [of_option].
  wskip.
  wskip.
  unfold c_for; destruct (Z.to_nat n) as [|k] eqn:Hk; [lia|].
  rewrite c_for_aux_succ.
  apply (writes_bind_stop _ _ _ (Exit EXIT_FAILURE)); [|discriminate].
  apply (writes_bind_stop _ _ _ (Exit EXIT_FAILURE)); [|discriminate].
  unfold rk4_iteration.
  wskip.
  unfold rk4_update.
  apply (writes_bind_stop _ _ _ (Exit EXIT_FAILURE)); [|discriminate].
  apply calculateDerivative_zero, Ha.
Qed.

(** C5: with a zero [y'] coefficient and a positive iteration count,
    [rungeKutta] prints the header and the first trace line, then
    [calculateDerivative] reports the error on [stderr] and the process
    exits with [EXIT_FAILURE]. *)
Theorem rungeKutta_zero_coefficient (equation : EQUATION) x0 y0 x_target h n :
  y_prime_coefficient equation = 0 ->
  iteration_count x0 x_target h = Some n -> 0 < n ->
  writes (rungeKutta x0 y0 x_target h equation)
    [iterations_header; trace_event x0 y0; zero_coefficient_error] (Exit EXIT_FAILURE).
Proof. apply rungeKutta_zero_run. Qed.

End Runs.
