(* ===== verification/RK4Real.v ===== *)
(** * The mathematics of [rungeKutta]: the real-number model

    On the exact instance [RealArith], [rungeKutta] computes the classical
    RK4 method [rk4] for the linear equation [a*y' + b*y = g(x)] with
    [g(x) = sum c_i * x^p_i] ([linear_rhs]); [rungeKutta_refines_rk4] is the
    refinement theorem.  The rest of the file proves what the method does on
    this family: on the homogeneous equation one step multiplies [y] by the
    degree-4 Taylor polynomial of [exp] at [-h*b/a]; the step is affine in
    [y], so two runs differ by that factor per step; for [b = 0] and powers
    [0..3] the method integrates [g] exactly (Simpson's rule); the factor
    lies in [(0, 1]] when [0 <= h*b/a <= 2]. *)

From Stdlib Require Import ZArith Reals Lra Lia List.
From S2P Require Import Prelude CArith RealArith Equation RungeKutta.
Import ListNotations.

Open Scope R_scope.

(** ** The abstract method *)

(** One classical RK4 step for [y' = F(x, y)]. *)
Definition rk4 (F : R -> R -> R) (h : R) (s : R * R) : R * R :=
  let '(x, y) := s in
  let k1 := h * F x y in
  let k2 := h * F (x + h / 2) (y + k1 / 2) in
  let k3 := h * F (x + h / 2) (y + k2 / 2) in
  let k4 := h * F (x + h) (y + k3) in
  (x + h, y + (k1 + 2 * k2 + 2 * k3 + k4) / 6).

Fixpoint rk4_iter (F : R -> R -> R) (h : R) (n : nat) (s : R * R) : R * R :=
  match n with
  | O => s
  | S n' => rk4_iter F h n' (rk4 F h s)
  end.

(** [g(x) = sum c_i * x^p_i] and [y' = (g(x) - b*y) / a]. *)
Definition g_real (terms : list (R * Z)) (x : R) : R :=
  fold_right (fun '(c, p) acc => c * powerRZ x p + acc) 0 terms.

Definition linear_rhs (a b : Z) (terms : list (R * Z)) (x y : R) : R :=
  (g_real terms x - IZR b * y) / IZR a.

(** The trace of [n] steps: the state before each step. *)
Definition rk4_trace (F : R -> R -> R) (h : R) (n : nat) (s : R * R) : list (@event RealArith) :=
  map (fun k => let s' := rk4_iter F h k s in @trace_event RealArith (fst s') (snd s')) (seq 0 n).

(** ** From the model of the code to the abstract method *)

Section Refinement.
Local Existing Instance RealArith.

Lemma add_half_R (a b : R) : add_half a b = a + b / 2.
Proof. unfold add_half, lit_half; simpl; field. Qed.

Lemma rk4_combine_R (y s : R) : rk4_combine y s = y + s / 6.
Proof. unfold rk4_combine, lit_sixth; simpl; field. Qed.

Lemma rk4_pure_R (F : R -> R -> R) h x y : rk4_pure F h x y = rk4 F h (x, y).
Proof.
  unfold rk4_pure, rk4; rewrite !add_half_R, rk4_combine_R; reflexivity.
Qed.

Lemma loop_state_rk_step (F : R -> R -> R) h k i s :
  loop_state (rk_step F h) k i s = rk4_iter F h k s.
Proof.
  revert i s; induction k as [|k IH]; intros i [x y]; [reflexivity|].
  simpl; rewrite IH; unfold rk_step; simpl; rewrite rk4_pure_R; reflexivity.
Qed.

Lemma rk_state_R (F : R -> R -> R) h k s : rk_state F h k s = rk4_iter F h k s.
Proof. apply loop_state_rk_step. Qed.

Lemma rk_trace_R (F : R -> R -> R) h k s : rk_trace F h k s = rk4_trace F h k s.
Proof.
  unfold rk_trace, rk_event, rk4_trace.
  rewrite (loop_events_single_map _ (fun _ s => trace_event (fst s) (snd s))).
  apply map_ext; intros j; rewrite loop_state_rk_step; reflexivity.
Qed.

Lemma gx_fold_R (terms : list (R * Z)) (t r : R) :
  fold_left (fun r '(c, p) => gx_term r c t p) terms r = r + g_real terms t.
Proof.
  revert r; induction terms as [|[c p] terms IH]; intros r; simpl; [ring|].
  rewrite IH; unfold gx_term; simpl; ring.
Qed.

Lemma equation_rhs_R (equation : EQUATION) x y :
  equation_rhs equation x y
  = linear_rhs (y_prime_coefficient equation) (y_coefficient equation) (gx_terms equation) x y.
Proof.
  unfold equation_rhs, derivative_value, gx_sum, linear_rhs.
  rewrite gx_fold_R; simpl; rewrite Rplus_0_l; reflexivity.
Qed.

Lemma rk4_iter_ext (F G : R -> R -> R) h n s :
  (forall x y, F x y = G x y) -> rk4_iter F h n s = rk4_iter G h n s.
Proof.
  intros HFG; revert s; induction n as [|n IH]; intros [x y]; [reflexivity|].
  simpl; rewrite IH; unfold rk4; rewrite !HFG; reflexivity.
Qed.

Lemma rk4_trace_ext (F G : R -> R -> R) h n s :
  (forall x y, F x y = G x y) -> rk4_trace F h n s = rk4_trace G h n s.
Proof.
  intros HFG; unfold rk4_trace; apply map_ext; intros k.
  rewrite (rk4_iter_ext F G) by exact HFG; reflexivity.
Qed.

(** [rungeKutta] on [R]: the trace and the result of the textbook
    method on the equation's right-hand side. *)
Lemma rungeKutta_real_run (equation : EQUATION) x0 y0 x_target h n :
  equation_wf equation -> y_prime_coefficient equation <> 0%Z ->
  iteration_count x0 x_target h = Some n ->
  let F := linear_rhs (y_prime_coefficient equation) (y_coefficient equation)
                      (gx_terms equation) in
  let h' := step_direction x0 x_target h in
  writes (rungeKutta x0 y0 x_target h equation)
    (iterations_header :: rk4_trace F h' (Z.to_nat n) (x0, y0))
    (Normal (snd (rk4_iter F h' (Z.to_nat n) (x0, y0)))).
Proof.
  intros Hwf Ha Hn F h'.
  pose proof (rungeKutta_pure_run equation x0 y0 x_target h n Hwf Ha Hn) as Hs.
  rewrite rk_trace_R, rk_state_R in Hs.
  rewrite (rk4_trace_ext _ F), (rk4_iter_ext _ F) in Hs by apply equation_rhs_R.
  exact Hs.
Qed.

(** C1: refinement.  In exact arithmetic, [rungeKutta] on a well-formed
    equation with [a <> 0] and a defined iteration count [n] prints
    [ITERATIONS] and the RK4 iterates [(x_k, y_k)] for [k < n], and returns
    [y_n], where the iterates are those of the textbook RK4 method for
    [y' = (g(x) - b*y)/a] with the direction-adjusted step. *)
Theorem rungeKutta_refines_rk4 (equation : EQUATION) x0 y0 x_target h n :
  equation_wf equation -> y_prime_coefficient equation <> 0%Z ->
  iteration_count x0 x_target h = Some n ->
  let F := linear_rhs (y_prime_coefficient equation) (y_coefficient equation)
                      (gx_terms equation) in
  let h' := step_direction x0 x_target h in
  writes (rungeKutta x0 y0 x_target h equation)
    (iterations_header :: rk4_trace F h' (Z.to_nat n) (x0, y0))
    (Normal (snd (rk4_iter F h' (Z.to_nat n) (x0, y0)))).
Proof. apply rungeKutta_real_run. Qed.

End Refinement.

(** ** The homogeneous equation and the propagation of perturbations *)

(** The stability function of RK4: the Taylor polynomial of [exp] of
    degree 4. *)
Definition rk4_factor (z : R) : R := 1 + z + z ^ 2 / 2 + z ^ 3 / 6 + z ^ 4 / 24.

(** The argument [z = -h*b/a] of the stability function. *)
Definition rk4_z (a b : Z) (h : R) : R := - h * IZR b / IZR a.

Lemma rk4_homogeneous_step (a b : Z) h x y :
  IZR a <> 0 -> rk4 (linear_rhs a b []) h (x, y) = (x + h, rk4_factor (rk4_z a b h) * y).
Proof.
  intros Ha; unfold rk4, linear_rhs, rk4_factor, rk4_z; simpl.
  f_equal; field; exact Ha.
Qed.

Lemma rk4_iter_homogeneous (a b : Z) h n x y :
  IZR a <> 0 ->
  rk4_iter (linear_rhs a b []) h n (x, y)
  = (x + INR n * h, rk4_factor (rk4_z a b h) ^ n * y).
Proof.
  intros Ha; revert x y; induction n as [|n IH]; intros x y.
  - simpl; f_equal; ring.
  - cbn [rk4_iter]; rewrite rk4_homogeneous_step, IH by exact Ha.
    rewrite S_INR; f_equal; simpl; ring.
Qed.

(** One step is affine in [y]: its slope is the stability factor,
    whatever [g] is. *)
Lemma rk4_step_affine (a b : Z) terms h x y1 y2 :
  IZR a <> 0 ->
  fst (rk4 (linear_rhs a b terms) h (x, y1)) = fst (rk4 (linear_rhs a b terms) h (x, y2))
  /\ snd (rk4 (linear_rhs a b terms) h (x, y1)) - snd (rk4 (linear_rhs a b terms) h (x, y2))
     = rk4_factor (rk4_z a b h) * (y1 - y2).
Proof.
  intros Ha; unfold rk4, linear_rhs, rk4_factor, rk4_z; simpl.
  split; [reflexivity | field; exact Ha].
Qed.

Lemma rk4_iter_affine (a b : Z) terms h n x y1 y2 :
  IZR a <> 0 ->
  fst (rk4_iter (linear_rhs a b terms) h n (x, y1))
  = fst (rk4_iter (linear_rhs a b terms) h n (x, y2))
  /\ snd (rk4_iter (linear_rhs a b terms) h n (x, y1))
     - snd (rk4_iter (linear_rhs a b terms) h n (x, y2))
     = rk4_factor (rk4_z a b h) ^ n * (y1 - y2).
Proof.
  intros Ha; revert x y1 y2; induction n as [|n IH]; intros x y1 y2.
  - simpl; split; [reflexivity | ring].
  - cbn [rk4_iter].
    destruct (rk4_step_affine a b terms h x y1 y2 Ha) as [Hx Hy].
    destruct (rk4 (linear_rhs a b terms) h (x, y1)) as [x1 z1] eqn:E1.
    destruct (rk4 (linear_rhs a b terms) h (x, y2)) as [x2 z2] eqn:E2.
    simpl in Hx, Hy; subst x2.
    destruct (IH x1 z1 z2) as [IHx IHy]; split; [exact IHx|].
    rewrite IHy, Hy; simpl; ring.
Qed.

(** The stability factor is positive everywhere:
    [24 * R(z) = (z^2 + 2z)^2 + 8 (z + 3/2)^2 + 6]. *)
Lemma rk4_factor_pos z : 0 < rk4_factor z.
Proof.
  unfold rk4_factor.
  assert (H : 0 < (z ^ 2 + 2 * z) ^ 2 + 8 * (z + 3 / 2) ^ 2 + 6) by nra.
  nra.
Qed.

(** ... and at most [1] on [-2 <= z <= 0]. *)
Lemma rk4_factor_le_1 z : -2 <= z <= 0 -> rk4_factor z <= 1.
Proof.
  intros Hz; unfold rk4_factor.
  assert (Hc : 0 <= z ^ 3 + 2 * z ^ 2) by (simpl; nra).
  assert (Hq : 0 < 24 + 12 * z + 4 * z ^ 2 + z ^ 3) by (simpl in *; nra).
  assert (Hp : 0 <= - z * (24 + 12 * z + 4 * z ^ 2 + z ^ 3)) by nra.
  simpl in *; nra.
Qed.

Lemma rk4_factor_pow_bound z n : -2 <= z <= 0 -> 0 < rk4_factor z ^ n <= 1.
Proof.
  intros Hz; pose proof (rk4_factor_pos z); pose proof (rk4_factor_le_1 z Hz).
  split; [apply pow_lt; lra|].
  rewrite <- (pow1 n); apply pow_incr; lra.
Qed.

(** ** Pure quadrature: [b = 0] *)

(** An antiderivative of [g] when every power is non-negative. *)
Definition G_real (terms : list (R * Z)) (x : R) : R :=
  fold_right (fun '(c, p) acc => c * powerRZ x (p + 1) / IZR (p + 1) + acc) 0 terms.

Definition powers_in_0_3 (terms : list (R * Z)) : Prop :=
  Forall (fun t => (0 <= snd t <= 3)%Z) terms.

(** Simpson's rule is exact on [x^p] for [p <= 3]. *)
Lemma simpson_power p x h :
  (0 <= p <= 3)%Z ->
  h / 6 * (powerRZ x p + 4 * powerRZ (x + h / 2) p + powerRZ (x + h) p)
  = (powerRZ (x + h) (p + 1) - powerRZ x (p + 1)) / IZR (p + 1).
Proof.
  intros Hp; assert (p = 0 \/ p = 1 \/ p = 2 \/ p = 3)%Z as [-> | [-> | [-> | ->]]] by lia;
    simpl; field.
Qed.

Lemma simpson_terms terms x h :
  powers_in_0_3 terms ->
  h / 6 * (g_real terms x + 4 * g_real terms (x + h / 2) + g_real terms (x + h))
  = G_real terms (x + h) - G_real terms x.
Proof.
  induction 1 as [|t terms Hp _ IH]; [simpl; ring|].
  destruct t as [c p]; simpl.
  simpl in Hp; pose proof (simpson_power p x h Hp) as Hs.
  transitivity (c * (h / 6 * (powerRZ x p + 4 * powerRZ (x + h / 2) p + powerRZ (x + h) p))
                + h / 6 * (g_real terms x + 4 * g_real terms (x + h / 2) + g_real terms (x + h)));
    [ring|].
  rewrite Hs, IH; unfold Rdiv; ring.
Qed.

Lemma rk4_quadrature_step (a : Z) terms h x y :
  IZR a <> 0 -> powers_in_0_3 terms ->
  rk4 (linear_rhs a 0 terms) h (x, y) = (x + h, y + (G_real terms (x + h) - G_real terms x) / IZR a).
Proof.
  intros Ha Hp; unfold rk4, linear_rhs.
  rewrite <- (simpson_terms terms x h Hp); f_equal; field; exact Ha.
Qed.

Lemma rk4_iter_quadrature (a : Z) terms h n x y :
  IZR a <> 0 -> powers_in_0_3 terms ->
  rk4_iter (linear_rhs a 0 terms) h n (x, y)
  = (x + INR n * h, y + (G_real terms (x + INR n * h) - G_real terms x) / IZR a).
Proof.
  intros Ha Hp; revert x y; induction n as [|n IH]; intros x y.
  - simpl; rewrite Rmult_0_l, Rplus_0_r; f_equal; field; exact Ha.
  - cbn [rk4_iter]; rewrite rk4_quadrature_step, IH by assumption.
    replace (x + h + INR n * h) with (x + INR (S n) * h) by (rewrite S_INR; ring).
    f_equal; field; exact Ha.
Qed.

(** ** What the program computes, in exact arithmetic *)

Section ProgramTheorems.
Local Existing Instance RealArith.

Lemma gx_terms_empty (equation : EQUATION) :
  equation_wf equation -> gx_term_count equation = 0%Z -> gx_terms equation = [].
Proof.
  intros (_ & Hc & _) H0; unfold gx_terms; rewrite H0 in Hc.
  destruct (gx_coefficients equation); [reflexivity | discriminate].
Qed.

Lemma step_direction_R x0 x_target h :
  step_direction x0 x_target h = if Rlt_dec x_target x0 then - h else h.
Proof. unfold step_direction; simpl; unfold R_ltb; destruct (Rlt_dec x_target x0); reflexivity. Qed.

(** An iteration count known exactly. *)
Lemma iteration_count_R_eq x0 x_target h h' z :
  step_direction x0 x_target h = h' -> (x_target - x0) / h' = IZR z -> in_int_range z = true ->
  iteration_count x0 x_target h = Some z.
Proof.
  intros Hd Hq Hr; unfold iteration_count; rewrite Hd; simpl; rewrite Hq.
  apply R_to_int_IZR, Hr.
Qed.

(** The result of [rungeKutta] on the real model, from the refinement. *)
Lemma rungeKutta_result (equation : EQUATION) x0 y0 x_target h n :
  equation_wf equation -> y_prime_coefficient equation <> 0%Z ->
  iteration_count x0 x_target h = Some n ->
  exists es, writes (rungeKutta x0 y0 x_target h equation) es
    (Normal (snd (rk4_iter (linear_rhs (y_prime_coefficient equation) (y_coefficient equation)
                              (gx_terms equation))
                           (step_direction x0 x_target h) (Z.to_nat n) (x0, y0)))).
Proof. intros Hwf Ha Hn; eexists; apply rungeKutta_real_run; assumption. Qed.

(** C3: on [a*y' + b*y = 0] (no term in [g]) the value returned after [n]
    steps is [R(z)^n * y0], with [R] the degree-4 Taylor polynomial of
    [exp] and [z = -h*b/a] for the direction-adjusted step [h]. *)
Theorem rungeKutta_homogeneous (equation : EQUATION) x0 y0 x_target h n :
  equation_wf equation -> gx_term_count equation = 0%Z ->
  y_prime_coefficient equation <> 0%Z ->
  iteration_count x0 x_target h = Some n ->
  exists es, writes (rungeKutta x0 y0 x_target h equation) es
    (Normal (rk4_factor (rk4_z (y_prime_coefficient equation) (y_coefficient equation)
                               (step_direction x0 x_target h)) ^ Z.to_nat n * y0)).
Proof.
  intros Hwf H0 Ha Hn.
  destruct (rungeKutta_result equation x0 y0 x_target h n Hwf Ha Hn) as [es Hw].
  rewrite gx_terms_empty, rk4_iter_homogeneous in Hw by (auto using not_0_IZR).
  exists es; exact Hw.
Qed.

(** C12: two runs that differ only in [y0] return values whose difference
    is [R(z)^n] times the difference of the initial values, whatever [g]. *)
Theorem rungeKutta_perturbation (equation : EQUATION) x0 y0 y0' x_target h n :
  equation_wf equation -> y_prime_coefficient equation <> 0%Z ->
  iteration_count x0 x_target h = Some n ->
  exists es es' y y',
    writes (rungeKutta x0 y0 x_target h equation) es (Normal y)
    /\ writes (rungeKutta x0 y0' x_target h equation) es' (Normal y')
    /\ y - y' = rk4_factor (rk4_z (y_prime_coefficient equation) (y_coefficient equation)
                                  (step_direction x0 x_target h)) ^ Z.to_nat n * (y0 - y0').
Proof.
  intros Hwf Ha Hn.
  destruct (rungeKutta_result equation x0 y0 x_target h n Hwf Ha Hn) as [es Hw].
  destruct (rungeKutta_result equation x0 y0' x_target h n Hwf Ha Hn) as [es' Hw'].
  do 4 eexists; split; [exact Hw | split; [exact Hw'|]].
  apply rk4_iter_affine, not_0_IZR, Ha.
Qed.

(** C13: when [-2 <= z = -h*b/a <= 0] the integrator does not amplify a
    perturbation of the initial value: [|y - y'| <= |y0 - y0'|]. *)
Theorem rungeKutta_contractive (equation : EQUATION) x0 y0 y0' x_target h n y y' es es' :
  equation_wf equation -> y_prime_coefficient equation <> 0%Z ->
  iteration_count x0 x_target h = Some n ->
  -2 <= rk4_z (y_prime_coefficient equation) (y_coefficient equation)
          (step_direction x0 x_target h) <= 0 ->
  writes (rungeKutta x0 y0 x_target h equation) es (Normal y) ->
  writes (rungeKutta x0 y0' x_target h equation) es' (Normal y') ->
  Rabs (y - y') <= Rabs (y0 - y0').
Proof.
  intros Hwf Ha Hn Hz Hw Hw'.
  destruct (rungeKutta_result equation x0 y0 x_target h n Hwf Ha Hn) as [es1 H1].
  destruct (rungeKutta_result equation x0 y0' x_target h n Hwf Ha Hn) as [es1' H1'].
  destruct (writes_fun _ _ _ _ _ Hw H1) as [_ Hr]; injection Hr as ->.
  destruct (writes_fun _ _ _ _ _ Hw' H1') as [_ Hr']; injection Hr' as ->.
  destruct (rk4_iter_affine (y_prime_coefficient equation) (y_coefficient equation)
              (gx_terms equation) (step_direction x0 x_target h) (Z.to_nat n) x0 y0 y0'
              (not_0_IZR _ Ha)) as [_ Hd].
  rewrite Hd, Rabs_mult.
  assert (Hb : 0 < rk4_factor (rk4_z (y_prime_coefficient equation) (y_coefficient equation)
                                  (step_direction x0 x_target h)) ^ Z.to_nat n <= 1)
    by (apply rk4_factor_pow_bound, Hz).
  set (q := rk4_factor _ ^ _) in Hb |- *.
  rewrite (Rabs_right q) by lra.
  pose proof (Rabs_pos (y0 - y0')); nra.
Qed.

(** C4: for [a*y' = g(x)] with powers in [0..3] the integrator is exact:
    it returns [y0 + (G(x_n) - G(x0)) / a], [G] an antiderivative of [g]
    and [x_n = x0 + n*h] the last grid point. *)
Theorem rungeKutta_quadrature_exact (equation : EQUATION) x0 y0 x_target h n :
  equation_wf equation -> y_coefficient equation = 0%Z ->
  y_prime_coefficient equation <> 0%Z -> powers_in_0_3 (gx_terms equation) ->
  iteration_count x0 x_target h = Some n ->
  exists es, writes (rungeKutta x0 y0 x_target h equation) es
    (Normal (y0 + (G_real (gx_terms equation) (x0 + INR (Z.to_nat n) * step_direction x0 x_target h)
                   - G_real (gx_terms equation) x0) / IZR (y_prime_coefficient equation))).
Proof.
  intros Hwf Hb Ha Hp Hn.
  destruct (rungeKutta_result equation x0 y0 x_target h n Hwf Ha Hn) as [es Hw].
  rewrite Hb, rk4_iter_quadrature in Hw by (auto using not_0_IZR).
  exists es; exact Hw.
Qed.

(** The last grid point of [floor(d / h)] steps is less than one step
    short of the distance [d]. *)
Lemma floor_step_gap d h :
  0 <= d -> 0 < h -> 0 <= d - IZR (Zfloor (d / h)) * h < h.
Proof.
  intros Hd Hh; pose proof (Zfloor_bound (d / h)) as [H1 H2].
  assert (Hq : d / h * h = d) by (field; lra).
  split; nra.
Qed.

Lemma rk4_iter_fst (F : R -> R -> R) h k x y : fst (rk4_iter F h k (x, y)) = x + INR k * h.
Proof.
  revert x y; induction k as [|k IH]; intros x y; [simpl; ring|].
  cbn [rk4_iter]; change (rk4 F h (x, y)) with (x + h, snd (rk4 F h (x, y))).
  rewrite IH, S_INR; ring.
Qed.

(** C7: the direction of the step and the point the loop reaches.  For
    [h > 0] the effective step points toward the target, the count is
    [floor(|x_target - x0| / h)] and the final [x] of the loop lies less than
    one step short of the target (the remainder is dropped).  For [h < 0]
    the count is not positive on either side of [x0] (below [x0] the code
    negates [h] into a positive step, above it keeps the negative one), so
    the loop stays at [x0]. *)
Theorem iteration_count_direction (F : R -> R -> R) x0 y0 x_target h :
  h <> 0 -> Rabs (x_target - x0) / Rabs h < IZR (2 ^ 31) ->
  exists n, iteration_count x0 x_target h = Some n
    /\ (0 < h -> n = Zfloor (Rabs (x_target - x0) / h)
                /\ 0 <= Rabs (x_target - fst (rk4_iter F (step_direction x0 x_target h)
                                                      (Z.to_nat n) (x0, y0))) < h)
    /\ (h < 0 -> (n <= 0)%Z
                /\ fst (rk4_iter F (step_direction x0 x_target h) (Z.to_nat n) (x0, y0)) = x0).
Proof.
  intros Hh Hr.
  set (h' := @step_direction RealArith x0 x_target h).
  set (q := (x_target - x0) / h').
  assert (Hq : Rabs q < IZR (2 ^ 31)).
  { unfold q, h'; rewrite step_direction_R; unfold Rdiv in *; rewrite Rabs_mult in *.
    destruct (Rlt_dec x_target x0); rewrite Rabs_inv; [rewrite Rabs_Ropp|]; exact Hr. }
  exists (R_trunc q); split; [exact (R_to_int_range q Hq)|].
  rewrite rk4_iter_fst; split; intros Hs.
  - pose proof (floor_step_gap (Rabs (x_target - x0)) h (Rabs_pos _) Hs) as Hg.
    assert (Hq0 : 0 <= Rabs (x_target - x0) / h)
      by (apply Rmult_le_pos; [apply Rabs_pos | apply Rlt_le, Rinv_0_lt_compat, Hs]).
    assert (Hqa : q = Rabs (x_target - x0) / h).
    { unfold q, h'; rewrite step_direction_R; destruct (Rlt_dec x_target x0).
      - rewrite Rabs_left by lra; field; lra.
      - rewrite Rabs_right by lra; reflexivity. }
    rewrite Hqa, R_trunc_nonneg, INR_IZR_INZ, Z2Nat.id by (auto using Zfloor_lub).
    split; [reflexivity|].
    set (d := Rabs (x_target - x0)) in *; set (z := Zfloor (d / h)) in *.
    unfold h'; rewrite step_direction_R; destruct (Rlt_dec x_target x0).
    + assert (Hd : d = - (x_target - x0)) by (unfold d; apply Rabs_left; lra).
      rewrite Rabs_left1; lra.
    + assert (Hd : d = x_target - x0) by (unfold d; apply Rabs_right; lra).
      rewrite Rabs_right; lra.
  - assert (Hn : (R_trunc q <= 0)%Z).
    { apply R_trunc_nonpos; unfold q, h'; rewrite step_direction_R.
      destruct (Rlt_dec x_target x0).
      - assert (0 < / - h) by (apply Rinv_0_lt_compat; lra); unfold Rdiv; nra.
      - assert (/ h < 0) by (apply Rinv_lt_0_compat; lra); unfold Rdiv; nra. }
    split; [exact Hn|].
    replace (Z.to_nat (R_trunc q)) with O by lia.
    cbn [INR]; rewrite Rmult_0_l, Rplus_0_r; reflexivity.
Qed.

End ProgramTheorems.

(** ** Witnesses: the theorems at concrete inputs *)

Section Witnesses.
Local Existing Instance RealArith.

(** [y' + y = 0] and [y' = 3 x^2]. *)
Definition eqR_decay : EQUATION := mkEQUATION 1 1 0 [] [].
Definition eqR_cubic : EQUATION := mkEQUATION 0 1 1 [3] [2%Z].

Lemma eqR_decay_wf : equation_wf eqR_decay.
Proof. apply equation_wfb_spec; reflexivity. Qed.

Lemma eqR_cubic_wf : equation_wf eqR_cubic.
Proof. apply equation_wfb_spec; reflexivity. Qed.

Lemma stepR_forward : step_direction 0 1 (1 / 10) = 1 / 10.
Proof. rewrite step_direction_R; destruct (Rlt_dec 1 0); [lra | reflexivity]. Qed.

Lemma countR_forward : iteration_count 0 1 (1 / 10) = Some 10%Z.
Proof.
  apply (iteration_count_R_eq _ _ _ (1 / 10)); [exact stepR_forward | field | reflexivity].
Qed.

Lemma rungeKutta_refines_rk4_witness :
  exists es y, writes (rungeKutta 0 1 1 (1 / 10) eqR_decay) es (Normal y).
Proof.
  do 2 eexists; apply (rungeKutta_refines_rk4 eqR_decay 0 1 1 (1 / 10) 10);
    [exact eqR_decay_wf | discriminate | exact countR_forward].
Defined.

Lemma rungeKutta_homogeneous_witness :
  exists es, writes (rungeKutta 0 1 1 (1 / 10) eqR_decay) es
    (Normal (rk4_factor (rk4_z 1 1 (step_direction 0 1 (1 / 10))) ^ 10 * 1)).
Proof.
  apply (rungeKutta_homogeneous eqR_decay 0 1 1 (1 / 10) 10);
    [exact eqR_decay_wf | reflexivity | discriminate | exact countR_forward].
Defined.

Lemma rungeKutta_perturbation_witness :
  exists es es' y y',
    writes (rungeKutta 0 1 1 (1 / 10) eqR_decay) es (Normal y)
    /\ writes (rungeKutta 0 2 1 (1 / 10) eqR_decay) es' (Normal y')
    /\ y - y' = rk4_factor (rk4_z 1 1 (step_direction 0 1 (1 / 10))) ^ 10 * (1 - 2).
Proof.
  apply (rungeKutta_perturbation eqR_decay 0 1 2 1 (1 / 10) 10);
    [exact eqR_decay_wf | discriminate | exact countR_forward].
Defined.

Lemma rungeKutta_contractive_witness :
  let F := linear_rhs 1 1 (gx_terms eqR_decay) in
  Rabs (snd (rk4_iter F (step_direction 0 1 (1 / 10)) 10 (0, 1))
        - snd (rk4_iter F (step_direction 0 1 (1 / 10)) 10 (0, 2))) <= Rabs (1 - 2).
Proof.
  intros F.
  eapply (rungeKutta_contractive eqR_decay 0 1 2 1 (1 / 10) 10);
    [exact eqR_decay_wf | discriminate | exact countR_forward | | | ].
  - rewrite stepR_forward; unfold rk4_z; simpl; lra.
  - apply (rungeKutta_real_run eqR_decay 0 1 1 (1 / 10) 10);
      [exact eqR_decay_wf | discriminate | exact countR_forward].
  - apply (rungeKutta_real_run eqR_decay 0 2 1 (1 / 10) 10);
      [exact eqR_decay_wf | discriminate | exact countR_forward].
Defined.

Lemma rungeKutta_quadrature_exact_witness :
  exists es, writes (rungeKutta 0 1 1 (1 / 10) eqR_cubic) es
    (Normal (1 + (G_real (gx_terms eqR_cubic) (0 + INR (Z.to_nat 10) * step_direction 0 1 (1 / 10))
                  - G_real (gx_terms eqR_cubic) 0) / IZR (y_prime_coefficient eqR_cubic))).
Proof.
  apply (rungeKutta_quadrature_exact eqR_cubic 0 1 1 (1 / 10) 10);
    [exact eqR_cubic_wf | reflexivity | discriminate | | exact countR_forward].
  repeat constructor; simpl; lia.
Defined.

Lemma iteration_count_direction_witness :
  exists n, iteration_count 0 1 (1 / 10) = Some n
    /\ (0 < 1 / 10 -> n = Zfloor (Rabs (1 - 0) / (1 / 10))
                     /\ 0 <= Rabs (1 - fst (rk4_iter (linear_rhs 1 1 []) (step_direction 0 1 (1 / 10))
                                                    (Z.to_nat n) (0, 1))) < 1 / 10)
    /\ (1 / 10 < 0 -> (n <= 0)%Z
                     /\ fst (rk4_iter (linear_rhs 1 1 []) (step_direction 0 1 (1 / 10))
                                      (Z.to_nat n) (0, 1)) = 0).
Proof.
  apply iteration_count_direction; [lra|].
  rewrite !Rabs_right by lra; replace ((1 - 0) / (1 / 10)) with 10 by field.
  apply IZR_lt; reflexivity.
Defined.

End Witnesses.
