(* ===== verification/RK4Error.v ===== *)
(** * The error of [rungeKutta] on [a*y' + b*y = 0]: fourth order

    The equation [a*y' + b*y = 0] through [(x0, y0)] has the solution
    [exact_solution a b x0 y0 x = y0 * exp (-(b/a) (x - x0))].  One step of
    [rungeKutta] multiplies [y] by [R(z) = 1 + z + z^2/2 + z^3/6 + z^4/24],
    [z = -h*b/a] ([RK4Real.rk4_homogeneous_step]); the exact solution
    multiplies it by [exp z].  The mean value theorem applied to
    [exp (-t) * R(t)], whose derivative is [-exp (-t) * t^4 / 24], gives
    [0 <= R(z) - exp z <= |z|^5 / 24] for [z <= 0] (the local error), and
    the local errors add up over the [n] steps while [R(z)] and [exp z]
    stay in [(0, 1]].  The result: after [n] steps the value [rungeKutta]
    returns differs from the exact solution at [x0 + n*h] by at most
    [|y0| * (n*|h|) * |b/a|^5 * h^4 / 24], fourth order in [h] over a fixed
    span [n*|h|].  On [a*y' = c*x^4] the error is computed exactly
    (Simpson's rule overestimates [x^4] by [h^5 / 120] per step): the order
    is exactly four. *)

From Stdlib Require Import ZArith Reals Lra Lia List.
From S2P Require Import Prelude CArith RealArith Equation RungeKutta RK4Real.
Import ListNotations.

Open Scope R_scope.

(** The solution of [a*y' + b*y = 0] with [y(x0) = y0]. *)
Definition exact_solution (a b : Z) (x0 y0 x : R) : R :=
  y0 * exp (- (IZR b / IZR a) * (x - x0)).

(** The product [exp (-t) * R(t)]: constant for the exact solution, and
    the measure of the local error of one step. *)
Definition rk4_gap (t : R) : R := exp (- t) * rk4_factor t.

(** ** Derivatives *)

Lemma derivable_pt_lim_eq f x l l' : derivable_pt_lim f x l -> l = l' -> derivable_pt_lim f x l'.
Proof. intros H <-; exact H. Qed.

Lemma derivable_exp_lin (k c : R) : derivable_pt_lim (fun t => exp (k * t)) c (k * exp (k * c)).
Proof.
  apply (derivable_pt_lim_ext (comp exp (mult_real_fct k id))); [reflexivity|].
  eapply derivable_pt_lim_eq;
    [apply derivable_pt_lim_comp;
       [apply derivable_pt_lim_scal, derivable_pt_lim_id | apply derivable_pt_lim_exp]|].
  unfold mult_real_fct, id; ring.
Qed.

Lemma derivable_rk4_factor c : derivable_pt_lim rk4_factor c (1 + c + c ^ 2 / 2 + c ^ 3 / 6).
Proof.
  apply (derivable_pt_lim_ext
           (fct_cte 1 + id + mult_real_fct (/ 2) (fun t => t ^ 2)
            + mult_real_fct (/ 6) (fun t => t ^ 3) + mult_real_fct (/ 24) (fun t => t ^ 4))%F).
  { intros t; unfold rk4_factor, plus_fct, mult_real_fct, fct_cte, id; field. }
  eapply derivable_pt_lim_eq.
  { repeat apply derivable_pt_lim_plus; try apply derivable_pt_lim_scal;
      first [apply derivable_pt_lim_const | apply derivable_pt_lim_id | apply derivable_pt_lim_pow]. }
  simpl; field.
Qed.

Lemma derivable_rk4_gap c : derivable_pt_lim rk4_gap c (- exp (- c) * c ^ 4 / 24).
Proof.
  apply (derivable_pt_lim_ext ((fun t => exp (-1 * t)) * rk4_factor)%F).
  { intros t; unfold mult_fct, rk4_gap; do 2 f_equal; ring. }
  eapply derivable_pt_lim_eq;
    [apply derivable_pt_lim_mult; [apply derivable_exp_lin | apply derivable_rk4_factor]|].
  cbv beta; replace (-1 * c) with (- c) by ring; unfold rk4_factor; field.
Qed.

(** [exact_solution] solves the equation and starts at [(x0, y0)]. *)
Lemma exact_solution_ode (a b : Z) x0 y0 x :
  IZR a <> 0 ->
  derivable_pt_lim (exact_solution a b x0 y0) x
    (- (IZR b / IZR a) * exact_solution a b x0 y0 x)
  /\ IZR a * (- (IZR b / IZR a) * exact_solution a b x0 y0 x)
     + IZR b * exact_solution a b x0 y0 x = 0
  /\ exact_solution a b x0 y0 x0 = y0.
Proof.
  intros Ha; unfold exact_solution; split; [|split].
  - set (k := - (IZR b / IZR a)).
    apply (derivable_pt_lim_ext (mult_real_fct y0 (fun t => exp (k * t - k * x0)))).
    { intros t; unfold mult_real_fct; do 2 f_equal; ring. }
    eapply derivable_pt_lim_eq.
    + apply derivable_pt_lim_scal.
      apply (derivable_pt_lim_ext (fun t => exp (k * t) * exp (- (k * x0)))).
      { intros t; rewrite <- exp_plus; f_equal; ring. }
      eapply derivable_pt_lim_eq;
        [apply (derivable_pt_lim_mult _ (fct_cte (exp (- (k * x0)))));
           [apply derivable_exp_lin | apply derivable_pt_lim_const]|].
      reflexivity.
    + unfold fct_cte; replace (k * (x - x0)) with (k * x + - (k * x0)) by ring.
      rewrite exp_plus; ring.
  - field; exact Ha.
  - rewrite Rminus_diag, Rmult_0_r, exp_0; ring.
Qed.

(** ** The local error *)

(** One step of RK4 overshoots [exp z] by at most [|z|^5 / 24] for [z <= 0]. *)
Lemma rk4_factor_exp_error z : z <= 0 -> 0 <= rk4_factor z - exp z <= Rabs z ^ 5 / 24.
Proof.
  intros Hz; destruct (Req_dec z 0) as [-> | Hz0].
  { unfold rk4_factor; rewrite exp_0, Rabs_R0; lra. }
  destruct (MVT_cor2 rk4_gap (fun c => - exp (- c) * c ^ 4 / 24) z 0) as (c & Hc & Hzc);
    [lra | intros; apply derivable_rk4_gap |].
  assert (Hez : exp z * exp (- z) = 1) by (rewrite <- exp_plus, Rplus_opp_r, exp_0; reflexivity).
  assert (HA : exp (- z) * rk4_factor z = 1 + exp (- c) * c ^ 4 * (- z) / 24).
  { unfold rk4_gap in Hc; rewrite Ropp_0, exp_0 in Hc.
    replace (rk4_factor 0) with 1 in Hc by (unfold rk4_factor; field).
    replace (1 + exp (- c) * c ^ 4 * - z / 24) with (1 - - exp (- c) * c ^ 4 / 24 * (0 - z)) by field.
    lra. }
  assert (Hf : rk4_factor z - exp z = exp (z - c) * c ^ 4 * (- z) / 24).
  { replace (z - c) with (z + - c) by ring; rewrite exp_plus.
    transitivity (exp z * (exp (- z) * rk4_factor z) - exp z); [rewrite <- Rmult_assoc, Hez; ring|].
    rewrite HA; field. }
  rewrite Hf, Rabs_left by lra.
  assert (He : 0 < exp (z - c) < 1)
    by (split; [apply exp_pos | rewrite <- exp_0; apply exp_increasing; lra]).
  assert (Hc4 : 0 <= c ^ 4 <= z ^ 4).
  { assert (Hc2 : c ^ 2 <= z ^ 2) by nra.
    replace (c ^ 4) with ((c ^ 2) ^ 2) by ring; replace (z ^ 4) with ((z ^ 2) ^ 2) by ring; nra. }
  replace ((- z) ^ 5) with (z ^ 4 * (- z)) by ring.
  split; [apply Rmult_le_pos; [| lra]; apply Rmult_le_pos; [apply Rmult_le_pos |]; lra|].
  apply Rmult_le_compat_r; [lra|]; apply Rmult_le_compat_r; [lra|]; nra.
Qed.

(** ** Accumulation over [n] steps *)

(** [a^n - b^n <= n (a - b)] for [0 <= b <= a <= 1]. *)
Lemma pow_diff_le a b n : 0 <= b -> b <= a -> a <= 1 -> 0 <= a ^ n - b ^ n <= INR n * (a - b).
Proof.
  intros Hb Hba Ha; induction n as [|n IH]; [simpl; lra|].
  rewrite S_INR; cbn [pow].
  assert (Hbn : 0 <= b ^ n <= 1)
    by (split; [apply pow_le; lra | rewrite <- (pow1 n); apply pow_incr; lra]).
  assert (Han : b ^ n <= a ^ n) by lra.
  replace (a * a ^ n - b * b ^ n) with (a * (a ^ n - b ^ n) + b ^ n * (a - b)) by ring.
  split; nra.
Qed.

Lemma exp_INR_mult n z : exp (INR n * z) = exp z ^ n.
Proof.
  induction n as [|n IH]; [simpl; rewrite Rmult_0_l; apply exp_0|].
  rewrite S_INR, Rmult_plus_distr_r, Rmult_1_l, exp_plus, IH; simpl; ring.
Qed.

(** [|z|^5 = |h| * h^4 * |b/a|^5] for [z = -h*b/a]. *)
Lemma rk4_z_abs_pow5 (a b : Z) h :
  IZR a <> 0 -> Rabs (rk4_z a b h) ^ 5 = Rabs h * h ^ 4 * Rabs (IZR b / IZR a) ^ 5.
Proof.
  intros Ha; unfold rk4_z.
  replace (- h * IZR b / IZR a) with (- (h * (IZR b / IZR a))) by (field; exact Ha).
  rewrite Rabs_Ropp, Rabs_mult, Rpow_mult_distr.
  replace (Rabs h ^ 5) with (Rabs h * (Rabs h ^ 2) ^ 2) by ring.
  rewrite pow2_abs; ring.
Qed.

(** ** The error on a quartic forcing term

    For [b = 0] the method is Simpson's rule on [g / a]; Simpson's rule is
    exact up to cubics ([RK4Real.rungeKutta_quadrature_exact]) and
    overestimates the integral of [x^4] over a step of length [h] by
    exactly [h^5 / 120]. *)

(** The solution of [a*y' = c*x^4] with [y(x0) = y0]. *)
Definition quartic_solution (a : Z) (c x0 y0 x : R) : R :=
  y0 + c * (x ^ 5 - x0 ^ 5) / (5 * IZR a).

Lemma rk4_quartic_step (a : Z) c h x y :
  IZR a <> 0 ->
  rk4 (linear_rhs a 0 [(c, 4%Z)]) h (x, y)
  = (x + h, y + c * (((x + h) ^ 5 - x ^ 5) / 5 + h ^ 5 / 120) / IZR a).
Proof. intros Ha; unfold rk4, linear_rhs, g_real; simpl; f_equal; field; exact Ha. Qed.

Lemma rk4_iter_quartic (a : Z) c h n x y :
  IZR a <> 0 ->
  rk4_iter (linear_rhs a 0 [(c, 4%Z)]) h n (x, y)
  = (x + INR n * h,
     quartic_solution a c x y (x + INR n * h) + INR n * c * h ^ 5 / (120 * IZR a)).
Proof.
  intros Ha; revert x y; induction n as [|n IH]; intros x y.
  - unfold quartic_solution; simpl; f_equal; field; exact Ha.
  - cbn [rk4_iter]; rewrite rk4_quartic_step, IH by exact Ha.
    unfold quartic_solution; rewrite S_INR; f_equal; [ring | field; exact Ha].
Qed.

(** ** The global error of [rungeKutta] *)

Section GlobalError.
Local Existing Instance RealArith.

(** C24: [rungeKutta] is a fourth-order method on the homogeneous
    equation: in exact arithmetic, with [-2 <= z <= 0] for [z = -h*b/a]
    and the adjusted step [h], the value it returns after [n] steps is
    within [|y0| * (n*|h|) * |b/a|^5 * h^4 / 24] of the exact solution of
    [a*y' + b*y = 0] through [(x0, y0)] at the point [x0 + n*h] the loop
    reaches. *)
Theorem rungeKutta_global_error (equation : EQUATION) x0 y0 x_target h n :
  equation_wf equation -> gx_term_count equation = 0%Z ->
  y_prime_coefficient equation <> 0%Z ->
  iteration_count x0 x_target h = Some n ->
  let a := y_prime_coefficient equation in
  let b := y_coefficient equation in
  let h' := step_direction x0 x_target h in
  -2 <= rk4_z a b h' <= 0 ->
  exists es y, writes (rungeKutta x0 y0 x_target h equation) es (Normal y)
    /\ Rabs (y - exact_solution a b x0 y0 (x0 + INR (Z.to_nat n) * h'))
       <= Rabs y0 * (INR (Z.to_nat n) * Rabs h') * Rabs (IZR b / IZR a) ^ 5 * h' ^ 4 / 24.
Proof.
  intros Hwf H0 Ha Hn a b h' Hz.
  assert (Ha' : IZR a <> 0) by (apply not_0_IZR, Ha).
  destruct (rungeKutta_result equation x0 y0 x_target h n Hwf Ha Hn) as [es Hw].
  rewrite gx_terms_empty, rk4_iter_homogeneous in Hw by assumption.
  do 2 eexists; split; [exact Hw|]; cbn [snd]; fold a b h'.
  set (N := Z.to_nat n); set (z := rk4_z a b h').
  unfold exact_solution.
  replace (- (IZR b / IZR a) * (x0 + INR N * h' - x0)) with (INR N * z)
    by (unfold z, rk4_z; field; exact Ha').
  rewrite exp_INR_mult.
  destruct (rk4_factor_exp_error z) as [Hl Hu]; [unfold z; lra|].
  destruct (pow_diff_le (rk4_factor z) (exp z) N) as [Hp0 Hp1];
    [left; apply exp_pos | lra | apply rk4_factor_le_1, Hz|].
  replace (rk4_factor z ^ N * y0 - y0 * exp z ^ N) with (y0 * (rk4_factor z ^ N - exp z ^ N)) by ring.
  rewrite Rabs_mult, (Rabs_right (_ - _)) by lra.
  replace (Rabs y0 * (INR N * Rabs h') * Rabs (IZR b / IZR a) ^ 5 * h' ^ 4 / 24)
    with (Rabs y0 * (INR N * (Rabs z ^ 5 / 24))) by (unfold z; rewrite rk4_z_abs_pow5 by exact Ha'; field).
  apply Rmult_le_compat_l; [apply Rabs_pos|].
  apply (Rle_trans _ _ _ Hp1), Rmult_le_compat_l; [apply pos_INR | exact Hu].
Qed.

(** C25: the order four is exact: on [a*y' = c*x^4] (one term, power
    [4], [b = 0]) the value [rungeKutta] returns after [n] steps of the
    adjusted [h] is the exact solution at [x0 + n*h] plus exactly
    [n * c * h^5 / (120 * a)], an error proportional to [h^4] over a fixed
    span that is non-zero whenever [c] and [h] are. *)
Theorem rungeKutta_quartic_error (equation : EQUATION) x0 y0 x_target h n c :
  equation_wf equation -> y_coefficient equation = 0%Z ->
  y_prime_coefficient equation <> 0%Z -> gx_terms equation = [(c, 4%Z)] ->
  iteration_count x0 x_target h = Some n ->
  let a := y_prime_coefficient equation in
  let h' := step_direction x0 x_target h in
  exists es, writes (rungeKutta x0 y0 x_target h equation) es
    (Normal (quartic_solution a c x0 y0 (x0 + INR (Z.to_nat n) * h')
             + INR (Z.to_nat n) * c * h' ^ 5 / (120 * IZR a))).
Proof.
  intros Hwf Hb Ha Hg Hn a h'.
  destruct (rungeKutta_result equation x0 y0 x_target h n Hwf Ha Hn) as [es Hw].
  rewrite Hb, Hg, rk4_iter_quartic in Hw by (apply not_0_IZR, Ha).
  exists es; exact Hw.
Qed.

End GlobalError.

Section Witness.
Local Existing Instance RealArith.

(** [y' = 5 x^4]. *)
Definition eqR_quartic : EQUATION := mkEQUATION 0 1 1 [5] [4%Z].

Lemma rungeKutta_global_error_witness :
  exists es y, writes (rungeKutta 0 1 1 (1 / 10) eqR_decay) es (Normal y)
    /\ Rabs (y - exact_solution 1 1 0 1 (0 + INR (Z.to_nat 10) * step_direction 0 1 (1 / 10)))
       <= Rabs 1 * (INR (Z.to_nat 10) * Rabs (step_direction 0 1 (1 / 10)))
          * Rabs (IZR 1 / IZR 1) ^ 5 * step_direction 0 1 (1 / 10) ^ 4 / 24.
Proof.
  apply (rungeKutta_global_error eqR_decay 0 1 1 (1 / 10) 10);
    [exact eqR_decay_wf | reflexivity | discriminate | exact countR_forward |].
  cbv zeta; rewrite stepR_forward; unfold rk4_z; simpl; lra.
Defined.

Lemma rungeKutta_quartic_error_witness :
  exists es, writes (rungeKutta 0 1 1 (1 / 10) eqR_quartic) es
    (Normal (quartic_solution 1 5 0 1 (0 + INR (Z.to_nat 10) * step_direction 0 1 (1 / 10))
             + INR (Z.to_nat 10) * 5 * step_direction 0 1 (1 / 10) ^ 5 / (120 * IZR 1))).
Proof.
  apply (rungeKutta_quartic_error eqR_quartic 0 1 1 (1 / 10) 10 5);
    [apply equation_wfb_spec; reflexivity | reflexivity | discriminate | reflexivity
    | exact countR_forward].
Defined.

End Witness.
