(* ===== verification/Main.v ===== *)
(** * The driver: [main] and [printAbsoluteError] of [src/runge.c]

    [main] allocates the equation, prompts for and reads (with [scanf]) the
    two coefficients and the term count, allocates the two term arrays,
    reads the terms, prints the equation, reads [x0], [y0], [h], the target
    and the true value, calls [rungeKutta], prints the result twice and the
    absolute error, and returns [0]; either allocation failing makes it
    report with [perror] and return [1].

    [scanf] is [scan_int]/[scan_float], the conversions of [Scanf.v] on
    the next word of the input: a word that does not begin with a
    matching sequence, or the end of the input, leaves the variable
    unassigned.  An unassigned
    variable holds an indeterminate value and using it is undefined
    behaviour; the model reads the variables through [force] at their first
    use ([count] at the allocation, [a], [b] and the arrays when the
    equation is printed, [x0], [y0], [h], [x_target] at the call, the true
    value at the error report).  Since undefined behaviour makes the whole
    run undefined, where the model places that point within a statement is
    not observable.  [malloc]'s answers come from the world; the size the
    code computes is [alloc_size], an [int] converted to the 64-bit
    [size_t].  Each [malloc] and [free] is recorded as an event naming
    the block ([Heap.v] replays them). *)

From Stdlib Require Import ZArith Bool String List Lia.
From S2P Require Import Prelude CArith Heap Scanf Equation RungeKutta.
Import ListNotations.

Open Scope Z_scope.
Open Scope cprog_scope.

(** [size_t] is 64 bits; [sizeof(float) = sizeof(int) = 4] and
    [sizeof(EQUATION) = 32] (three [int]s, padding, two pointers) on the
    LP64 target. *)
Definition SIZE_MAX_1 : Z := 2 ^ 64.
Definition sizeof_float : Z := 4.
Definition sizeof_int : Z := 4.
Definition sizeof_EQUATION : Z := 32.

(** [count * sizeof(T)]: the [int] is converted to [size_t] (modulo
    [2^64]) and the product wraps modulo [2^64]. *)
Definition alloc_size (count elem : Z) : Z :=
  (count mod SIZE_MAX_1) * elem mod SIZE_MAX_1.

Section Driver.
Context {CA : CArith}.

(** [malloc(size)] for block [b]: the environment answers; the call, the
    size the code asks and the answer are recorded. *)
Definition c_malloc (b : block) (size : Z) : CM bool :=
  ok <- malloc_ok ;;
  emit (Malloc b size ok) ;;
  ret ok.

(** [free(p)] for the block [p] holds. *)
Definition c_free (b : block) : CM unit := emit (Free b).

(** [%d] on the next word. *)
Definition int_item (wd : string) : option Z * list string :=
  let '(r, rest) := scan_d_word wd in (r, word_rest rest).

(** [scanf("%d", &v)]: an integer read that an [int] cannot hold is
    undefined behaviour. *)
Definition scan_int : CM (option Z) :=
  v <- scan_item int_item ;;
  match v with
  | Some z => if in_int_range z then ret (Some z) else undefined
  | None => ret None
  end.

(** [%f] on the next word, the number stored as [strtof] rounds it. *)
Definition float_item (wd : string) : option f32 * list string :=
  let '(r, rest) := scan_f_word wd in (option_map f32_of_fnum r, word_rest rest).

(** [scanf("%f", &v)] *)
Definition scan_float : CM (option f32) := scan_item float_item.

(** Reading a variable: undefined when it was never assigned. *)
Definition force {A} (v : option A) : CM A := of_option v.

(** [void printAbsoluteError(float trueValue, float approximateValue)] *)
Definition printAbsoluteError (trueValue approximateValue : f32) : CM unit :=
  printf "Absolute error: %f\n"
    [ADouble (f64_fabs (f64_of_f32 (f32_sub trueValue approximateValue)))].

(** One iteration of the loop reading the terms; the arrays are the values
    stored so far at indices [0 .. i-1]. *)
Definition read_term (i : Z) (arrays : list (option f32) * list (option Z))
  : CM (list (option f32) * list (option Z)) :=
  let '(cs, ps) := arrays in
  printf "Enter the coefficient for the %d. term of g(x): " [AInt (i + 1)] ;;
  c <- scan_float ;;
  printf "Enter the power for the %d. term of g(x): " [AInt (i + 1)] ;;
  p <- scan_int ;;
  ret (cs ++ [c], ps ++ [p]).

Definition msg_alloc_equation : string := "Memory allocation failed for equation".
Definition msg_alloc_terms : string := "Memory allocation failed for g(x) terms".

(** From the prompt for [x0] to the final report. *)
Definition solve_and_report (equation : EQUATION) : CM Z :=
  printf "Enter initial values for the solution:\n" [] ;;
  printf "x0: " [] ;;
  x0 <- scan_float ;;
  printf "y0: " [] ;;
  y0 <- scan_float ;;
  printf "Enter the step size (h): " [] ;;
  h <- scan_float ;;
  printf "Enter the x value to find the solution at: " [] ;;
  x_target <- scan_float ;;
  printf "Enter the true value of the function at the target point: " [] ;;
  trueValue <- scan_float ;;
  printf "\n\n" [] ;;
  x0 <- force x0 ;; y0 <- force y0 ;; x_target <- force x_target ;; h <- force h ;;
  result <- rungeKutta x0 y0 x_target h equation ;;
  printf "y(%f) = %f\n" [ADouble (f64_of_f32 x_target); ADouble (f64_of_f32 result)] ;;
  printf "Approximate value of the equation at point %f: %f\n"
    [ADouble (f64_of_f32 x_target); ADouble (f64_of_f32 result)] ;;
  trueValue <- force trueValue ;;
  printAbsoluteError trueValue result ;;
  c_free BCoefficients ;;
  c_free BPowers ;;
  c_free BEquation ;;
  ret 0.

(** [int main()] *)
Definition main : CM Z :=
  ok_equation <- c_malloc BEquation sizeof_EQUATION ;;
  if negb ok_equation then perror msg_alloc_equation ;; ret 1 else
  printf "Runge-Kutta method for first-order differential equation\n" [] ;;
  printf "a * y' + b * y = g(x)\n\n" [] ;;
  printf "Enter the coefficient of y': " [] ;;
  a <- scan_int ;;
  printf "Enter the coefficient of y: " [] ;;
  b <- scan_int ;;
  printf "Enter the number of terms in g(x): " [] ;;
  count <- scan_int ;;
  count <- force count ;;
  ok_coefficients <- c_malloc BCoefficients (alloc_size count sizeof_float) ;;
  ok_powers <- c_malloc BPowers (alloc_size count sizeof_int) ;;
  if negb (ok_coefficients && ok_powers) then
    perror msg_alloc_terms ;; c_free BEquation ;; ret 1 else
  '(cs, ps) <- c_for count read_term ([], []) ;;
  printf "Entered equation: " [] ;;
  a <- force a ;; b <- force b ;;
  cs <- force (all_some cs) ;; ps <- force (all_some ps) ;;
  let equation := mkEQUATION b a count cs ps in
  printEquation equation ;;
  solve_and_report equation.

End Driver.

(** ** The transcript of a run

    A run's input is the two coefficients, the terms (a coefficient
    [m * 10^e] and a power each) and the five decimals [x0], [y0], [h], the
    target and the true value, in the order [main] reads them. *)

Section Transcript.
Context {CA : CArith}.

Definition dec_input (d : Z * Z) : string := dec_word (fst d) (snd d).
Definition dec_value (d : Z * Z) : f32 := f32_of_dec (fst d) (snd d).
Definition term_words (t : (Z * Z) * Z) : list string := [dec_input (fst t); int_word (snd t)].

Definition main_input (a b : Z) (terms : list ((Z * Z) * Z))
    (x0 y0 h x_target trueValue : Z * Z) : list string :=
  int_word a :: int_word b :: int_word (Z.of_nat (length terms))
    :: flat_map term_words terms ++ map dec_input [x0; y0; h; x_target; trueValue].

(** The equation [main] builds from that input. *)
Definition input_equation (a b : Z) (terms : list ((Z * Z) * Z)) : EQUATION :=
  mkEQUATION b a (Z.of_nat (length terms))
    (map (fun t => dec_value (fst t)) terms) (map snd terms).

Definition main_banner : list event :=
  [Printf Stdout "Runge-Kutta method for first-order differential equation\n" [];
   Printf Stdout "a * y' + b * y = g(x)\n\n" [];
   Printf Stdout "Enter the coefficient of y': " [];
   Printf Stdout "Enter the coefficient of y: " [];
   Printf Stdout "Enter the number of terms in g(x): " []].

Definition coefficient_prompt (i : Z) : event :=
  Printf Stdout "Enter the coefficient for the %d. term of g(x): " [AInt (i + 1)].
Definition power_prompt (i : Z) : event :=
  Printf Stdout "Enter the power for the %d. term of g(x): " [AInt (i + 1)].

Fixpoint term_prompts (i : Z) (k : nat) : list event :=
  match k with
  | O => []
  | S k => coefficient_prompt i :: power_prompt i :: term_prompts (Z.succ i) k
  end.

Definition entered_equation : event := Printf Stdout "Entered equation: " [].

(** The allocator calls of [main]: the equation first, then the two term
    arrays for [count] terms, and the three [free]s at the end. *)
Definition equation_alloc (ok : bool) : event := Malloc BEquation sizeof_EQUATION ok.
Definition term_allocs (count : Z) (ok_coefficients ok_powers : bool) : list event :=
  [Malloc BCoefficients (alloc_size count sizeof_float) ok_coefficients;
   Malloc BPowers (alloc_size count sizeof_int) ok_powers].
Definition final_frees : list event := [Free BCoefficients; Free BPowers; Free BEquation].

Definition solve_prompts : list event :=
  [Printf Stdout "Enter initial values for the solution:\n" [];
   Printf Stdout "x0: " []; Printf Stdout "y0: " [];
   Printf Stdout "Enter the step size (h): " [];
   Printf Stdout "Enter the x value to find the solution at: " [];
   Printf Stdout "Enter the true value of the function at the target point: " [];
   Printf Stdout "\n\n" []].

(** What [rungeKutta] prints and returns on a run of [n] iterations. *)
Definition rk_run_trace (equation : EQUATION) (x0 y0 x_target h : f32) (n : Z) : list event :=
  iterations_header
    :: rk_trace (equation_rhs equation) (step_direction x0 x_target h) (Z.to_nat n) (x0, y0).
Definition rk_run_result (equation : EQUATION) (x0 y0 x_target h : f32) (n : Z) : f32 :=
  snd (rk_state (equation_rhs equation) (step_direction x0 x_target h) (Z.to_nat n) (x0, y0)).

Definition final_report (x_target result trueValue : f32) : list event :=
  [Printf Stdout "y(%f) = %f\n" [ADouble (f64_of_f32 x_target); ADouble (f64_of_f32 result)];
   Printf Stdout "Approximate value of the equation at point %f: %f\n"
     [ADouble (f64_of_f32 x_target); ADouble (f64_of_f32 result)];
   Printf Stdout "Absolute error: %f\n"
     [ADouble (f64_fabs (f64_of_f32 (f32_sub trueValue result)))]].

(** What follows [rungeKutta] in [main]: the report when it returns,
    nothing when it exits or is undefined. *)
Definition after_rungeKutta (x_target trueValue : f32) (r : outcome f32) : list event * outcome Z :=
  match r with
  | Normal y => (final_report x_target y trueValue ++ final_frees, Normal 0)
  | Exit code => ([], Exit code)
  | Undefined => ([], Undefined)
  end.

End Transcript.

(** ** The driver's steps *)

Section DriverRuns.
Context {CA : CArith}.

Lemma io_printf fmt args : io (printf fmt args) [] [] [Printf Stdout fmt args] (Normal tt).
Proof. apply writes_io, writes_emit. Qed.

Lemma io_c_malloc b size ok : io (c_malloc b size) [] [ok] [Malloc b size ok] (Normal ok).
Proof.
  eapply io_bind_eq; [apply io_malloc | | reflexivity..].
  eapply io_bind_eq; [apply writes_io, writes_emit | apply writes_io, writes_ret | reflexivity..].
Qed.

Lemma io_c_free b : io (c_free b) [] [] [Free b] (Normal tt).
Proof. apply writes_io, writes_emit. Qed.

Lemma io_force {A} (a : A) : io (force (Some a)) [] [] [] (Normal a).
Proof. apply writes_io, writes_ret. Qed.

Lemma int_item_word z : int_item (int_word z) = (Some z, []).
Proof.
  unfold int_item; rewrite <- (string_app_empty (int_word z)), scan_d_int_word by exact Logic.I.
  reflexivity.
Qed.

Lemma float_item_dec d : float_item (dec_input d) = (Some (dec_value d), []).
Proof.
  unfold float_item, dec_input; rewrite scan_f_dec_word; cbn [option_map word_rest].
  rewrite f32_of_fnum_dec; reflexivity.
Qed.

Lemma io_scan_int z : in_int_range z = true -> io scan_int [int_word z] [] [] (Normal (Some z)).
Proof.
  intros Hz; unfold scan_int.
  eapply io_bind_eq; [apply (io_scan _ (int_word z) z), int_item_word | | reflexivity..].
  cbv beta iota; rewrite Hz; apply writes_io, writes_ret.
Qed.

Lemma io_scan_float d : io scan_float [dec_input d] [] [] (Normal (Some (dec_value d))).
Proof. apply io_scan, float_item_dec. Qed.

Ltac io_step H := eapply io_bind_eq; [H | cbv beta iota zeta; cbn [negb andb] | reflexivity..].

Lemma io_read_term i cs ps d p :
  in_int_range p = true ->
  io (read_term i (cs, ps)) (term_words (d, p)) [] [coefficient_prompt i; power_prompt i]
     (Normal (cs ++ [Some (dec_value d)], ps ++ [Some p])).
Proof.
  intros Hp; unfold read_term.
  io_step ltac:(apply io_printf). io_step ltac:(apply io_scan_float).
  io_step ltac:(apply io_printf). io_step ltac:(apply io_scan_int, Hp).
  apply writes_io, writes_ret.
Qed.

(** The loop reading the terms stores them in order, one prompt pair each. *)
Lemma io_read_terms terms i cs ps :
  Forall (fun t => in_int_range (snd t) = true) terms ->
  io (c_for_aux (length terms) i read_term (cs, ps)) (flat_map term_words terms) []
     (term_prompts i (length terms))
     (Normal (cs ++ map (fun t => Some (dec_value (fst t))) terms,
              ps ++ map (fun t => Some (snd t)) terms)).
Proof.
  revert i cs ps; induction terms as [|[d p] terms IH]; intros i cs ps Hf.
  - rewrite !app_nil_r; apply writes_io, writes_ret.
  - inversion_clear Hf as [|? ? Hp Hf']; cbn [length c_for_aux flat_map term_prompts].
    eapply io_bind_eq; [apply io_read_term, Hp | | reflexivity..].
    pose proof (IH (Z.succ i) (cs ++ [Some (dec_value d)]) (ps ++ [Some p]) Hf') as H.
    rewrite <- !app_assoc in H; exact H.
Qed.

Lemma input_equation_wf a b terms : equation_wf (input_equation a b terms).
Proof. unfold equation_wf; cbn; rewrite !length_map, Nat2Z.id; lia. Qed.

(** From the prompt for [x0] on: the five values are read and [rungeKutta]
    runs; when it returns, its result and the absolute error are printed
    and [0] is returned, otherwise its outcome is the run's. *)
Lemma solve_and_report_with (equation : EQUATION) x0 y0 h x_target trueValue rk_es rk_r :
  writes (rungeKutta (dec_value x0) (dec_value y0) (dec_value x_target) (dec_value h) equation)
    rk_es rk_r ->
  io (solve_and_report equation) (map dec_input [x0; y0; h; x_target; trueValue]) []
     (solve_prompts ++ rk_es ++ fst (after_rungeKutta (dec_value x_target) (dec_value trueValue) rk_r))
     (snd (after_rungeKutta (dec_value x_target) (dec_value trueValue) rk_r)).
Proof.
  intros Hrk; unfold solve_and_report.
  io_step ltac:(apply io_printf).
  do 5 (io_step ltac:(apply io_printf); io_step ltac:(apply io_scan_float)).
  io_step ltac:(apply io_printf).
  do 4 io_step ltac:(apply io_force).
  destruct rk_r as [y|c|]; cbn [after_rungeKutta fst snd].
  - io_step ltac:(apply writes_io, Hrk).
    do 2 io_step ltac:(apply io_printf).
    io_step ltac:(apply io_force).
    io_step ltac:(apply io_printf).
    do 3 io_step ltac:(apply io_c_free).
    apply writes_io, writes_ret.
  - apply io_app_nil, (io_bind_stop _ _ _ _ _ (Exit c)); [apply writes_io, Hrk | discriminate].
  - apply io_app_nil, (io_bind_stop _ _ _ _ _ Undefined); [apply writes_io, Hrk | discriminate].
Qed.

(** A run of [main] with allocations succeeding, for any term count [c]
    the terms match ([Z.to_nat c] of them: none when [c] is negative),
    given what [printEquation] and [rungeKutta] do on the equation built. *)
Lemma main_run_with (a b c : Z) terms x0 y0 h x_target trueValue printed rk_es rk_r :
  in_int_range a = true -> in_int_range b = true -> in_int_range c = true ->
  length terms = Z.to_nat c -> Forall (fun t => in_int_range (snd t) = true) terms ->
  let equation := mkEQUATION b a c (map (fun t => dec_value (fst t)) terms) (map snd terms) in
  writes (printEquation equation) printed (Normal tt) ->
  writes (rungeKutta (dec_value x0) (dec_value y0) (dec_value x_target) (dec_value h) equation)
    rk_es rk_r ->
  io main (int_word a :: int_word b :: int_word c
             :: flat_map term_words terms ++ map dec_input [x0; y0; h; x_target; trueValue])
    [true; true; true]
    (equation_alloc true :: main_banner ++ term_allocs c true true
     ++ term_prompts 0 (length terms) ++ entered_equation :: printed
     ++ solve_prompts ++ rk_es
     ++ fst (after_rungeKutta (dec_value x_target) (dec_value trueValue) rk_r))
    (snd (after_rungeKutta (dec_value x_target) (dec_value trueValue) rk_r)).
Proof.
  intros Ha Hb Hc Hlen Hf equation Hp Hrk; unfold main.
  io_step ltac:(apply io_c_malloc).
  do 3 io_step ltac:(apply io_printf). io_step ltac:(apply io_scan_int, Ha).
  io_step ltac:(apply io_printf). io_step ltac:(apply io_scan_int, Hb).
  io_step ltac:(apply io_printf). io_step ltac:(apply io_scan_int, Hc).
  io_step ltac:(apply io_force).
  do 2 io_step ltac:(apply io_c_malloc).
  unfold c_for; rewrite <- Hlen.
  io_step ltac:(apply (io_read_terms terms 0 [] [] Hf)).
  io_step ltac:(apply io_printf).
  do 2 io_step ltac:(apply io_force).
  rewrite !app_nil_l, (all_some_map (fun t => dec_value (fst t))), (all_some_map snd).
  do 2 io_step ltac:(apply io_force).
  io_step ltac:(apply writes_io, Hp).
  apply solve_and_report_with, Hrk.
Qed.

(** C15: a complete run of [main]: on an input giving [a <> 0], [b], the
    terms and the five decimals, with the three allocations succeeding,
    [main] prints the banner and prompts, the equation it built from the
    input (the terms in input order), then exactly what [rungeKutta] prints
    on that equation and the values read, then [rungeKutta]'s result twice
    and its absolute error from the true value, and returns [0]. *)
Theorem main_run (a b : Z) terms x0 y0 h x_target trueValue n :
  in_int_range a = true -> in_int_range b = true -> a <> 0 ->
  in_int_range (Z.of_nat (length terms)) = true ->
  Forall (fun t => in_int_range (snd t) = true) terms ->
  iteration_count (dec_value x0) (dec_value x_target) (dec_value h) = Some n ->
  let equation := input_equation a b terms in
  io main (main_input a b terms x0 y0 h x_target trueValue) [true; true; true]
    (equation_alloc true :: main_banner ++ term_allocs (Z.of_nat (length terms)) true true
     ++ term_prompts 0 (length terms)
     ++ entered_equation
        :: (equation_header equation :: describe_terms (gx_terms equation) ++ [newline_event])
        ++ solve_prompts
        ++ rk_run_trace equation (dec_value x0) (dec_value y0) (dec_value x_target) (dec_value h) n
        ++ final_report (dec_value x_target)
             (rk_run_result equation (dec_value x0) (dec_value y0) (dec_value x_target)
                (dec_value h) n)
             (dec_value trueValue)
        ++ final_frees)
    (Normal 0).
Proof.
  intros Ha Hb Ha0 Hc Hf Hn equation.
  apply (main_run_with a b _ terms x0 y0 h x_target trueValue _
           (rk_run_trace equation (dec_value x0) (dec_value y0) (dec_value x_target) (dec_value h) n)
           (Normal (rk_run_result equation (dec_value x0) (dec_value y0) (dec_value x_target)
                      (dec_value h) n)));
    [exact Ha | exact Hb | exact Hc | rewrite Nat2Z.id; reflexivity | exact Hf
                       | apply printEquation_events, input_equation_wf |].
  apply rungeKutta_shape_run; [apply equation_wf_shape, input_equation_wf | exact Ha0 | exact Hn].
Qed.

(** When the allocation of the equation fails, [main] reports it with
    [perror] and returns [1], having read nothing and printed nothing else. *)
Theorem main_alloc_equation_failure :
  io main [] [false] [equation_alloc false; Perror msg_alloc_equation] (Normal 1).
Proof.
  unfold main; io_step ltac:(apply io_c_malloc).
  io_step ltac:(apply writes_io, writes_emit). apply writes_io, writes_ret.
Qed.

(** C17: both term arrays are allocated before either result is checked:
    when one of the two allocations fails, [main] has used both answers of
    the allocator, reports with [perror], frees the equation and returns
    [1] before reading any term; the array that was granted is never
    freed: the heap is left holding exactly the granted arrays. *)
Theorem main_alloc_terms_failure a b c ok_coefficients ok_powers :
  in_int_range a = true -> in_int_range b = true -> in_int_range c = true ->
  andb ok_coefficients ok_powers = false ->
  let es := equation_alloc true :: main_banner ++ term_allocs c ok_coefficients ok_powers
            ++ [Perror msg_alloc_terms; Free BEquation] in
  io main [int_word a; int_word b; int_word c] [true; ok_coefficients; ok_powers] es (Normal 1)
  /\ heap_replay [] es
     = Some ((if ok_powers then [BPowers] else []) ++ (if ok_coefficients then [BCoefficients] else [])).
Proof.
  intros Ha Hb Hc Hok es; split;
    [|destruct ok_coefficients, ok_powers; [discriminate Hok | reflexivity..]].
  unfold main.
  io_step ltac:(apply io_c_malloc).
  do 3 io_step ltac:(apply io_printf). io_step ltac:(apply io_scan_int, Ha).
  io_step ltac:(apply io_printf). io_step ltac:(apply io_scan_int, Hb).
  io_step ltac:(apply io_printf). io_step ltac:(apply io_scan_int, Hc).
  io_step ltac:(apply io_force).
  do 2 io_step ltac:(apply io_c_malloc).
  rewrite Hok; io_step ltac:(apply writes_io, writes_emit).
  io_step ltac:(apply io_c_free). apply writes_io, writes_ret.
Qed.

(** C18: a negative term count is not rejected: when the allocator grants
    the (wrapped, huge) sizes, [main] reads no term, prints an equation with
    no [g(x)] term and completes the run on [g = 0], returning [0]. *)
Theorem main_negative_count (a b c : Z) x0 y0 h x_target trueValue n :
  in_int_range a = true -> in_int_range b = true -> a <> 0 ->
  in_int_range c = true -> c < 0 ->
  iteration_count (dec_value x0) (dec_value x_target) (dec_value h) = Some n ->
  let equation := mkEQUATION b a c [] [] in
  io main (int_word a :: int_word b :: int_word c :: map dec_input [x0; y0; h; x_target; trueValue])
    [true; true; true]
    (equation_alloc true :: main_banner ++ term_allocs c true true
     ++ [entered_equation; equation_header equation; newline_event]
     ++ solve_prompts
     ++ rk_run_trace equation (dec_value x0) (dec_value y0) (dec_value x_target) (dec_value h) n
     ++ final_report (dec_value x_target)
          (rk_run_result equation (dec_value x0) (dec_value y0) (dec_value x_target)
             (dec_value h) n)
          (dec_value trueValue)
     ++ final_frees)
    (Normal 0).
Proof.
  intros Ha Hb Ha0 Hc Hneg Hn equation.
  apply (main_run_with a b c [] x0 y0 h x_target trueValue _
           (rk_run_trace equation (dec_value x0) (dec_value y0) (dec_value x_target) (dec_value h) n)
           (Normal (rk_run_result equation (dec_value x0) (dec_value y0) (dec_value x_target)
                      (dec_value h) n)));
    [exact Ha | exact Hb | exact Hc | cbn; lia | constructor
                                  | apply printEquation_nonpos; cbn; lia |].
  apply rungeKutta_shape_run; [split; cbn; lia | exact Ha0 | exact Hn].
Qed.

(** C21: a zero [y'] coefficient is not rejected by [main] when no step
    runs: with [a = 0] and an iteration count [n <= 0] (for instance
    [x0 = x_target]), [main] prints the equation, [ITERATIONS], [y0] as the
    result and its absolute error, and returns [0]. *)
Theorem main_zero_coefficient_no_step (b : Z) terms x0 y0 h x_target trueValue n :
  in_int_range b = true ->
  in_int_range (Z.of_nat (length terms)) = true ->
  Forall (fun t => in_int_range (snd t) = true) terms ->
  iteration_count (dec_value x0) (dec_value x_target) (dec_value h) = Some n -> n <= 0 ->
  let equation := input_equation 0 b terms in
  io main (main_input 0 b terms x0 y0 h x_target trueValue) [true; true; true]
    (equation_alloc true :: main_banner ++ term_allocs (Z.of_nat (length terms)) true true
     ++ term_prompts 0 (length terms)
     ++ entered_equation
        :: (equation_header equation :: describe_terms (gx_terms equation) ++ [newline_event])
        ++ solve_prompts ++ [iterations_header]
        ++ final_report (dec_value x_target) (dec_value y0) (dec_value trueValue)
        ++ final_frees)
    (Normal 0).
Proof.
  intros Hb Hc Hf Hn Hle equation.
  apply (main_run_with 0 b _ terms x0 y0 h x_target trueValue _ [iterations_header]
           (Normal (dec_value y0)));
    [reflexivity | exact Hb | exact Hc | rewrite Nat2Z.id; reflexivity | exact Hf
    | apply printEquation_events, input_equation_wf |].
  apply (rungeKutta_with_nonpos _ _ _ _ _ n Hn Hle).
Qed.

(** C22: with [a = 0] and a positive iteration count, [main] fails only
    inside the integration: after the equation, [ITERATIONS] and the first
    trace line [f(x0) = y0], the error is written to [stderr] and the
    process exits with [EXIT_FAILURE]; nothing more is printed. *)
Theorem main_zero_coefficient_exit (b : Z) terms x0 y0 h x_target trueValue n :
  in_int_range b = true ->
  in_int_range (Z.of_nat (length terms)) = true ->
  Forall (fun t => in_int_range (snd t) = true) terms ->
  iteration_count (dec_value x0) (dec_value x_target) (dec_value h) = Some n -> 0 < n ->
  let equation := input_equation 0 b terms in
  io main (main_input 0 b terms x0 y0 h x_target trueValue) [true; true; true]
    (equation_alloc true :: main_banner ++ term_allocs (Z.of_nat (length terms)) true true
     ++ term_prompts 0 (length terms)
     ++ entered_equation
        :: (equation_header equation :: describe_terms (gx_terms equation) ++ [newline_event])
        ++ solve_prompts
        ++ [iterations_header; trace_event (dec_value x0) (dec_value y0); zero_coefficient_error])
    (Exit EXIT_FAILURE).
Proof.
  intros Hb Hc Hf Hn Hpos equation.
  rewrite <- (app_nil_r [iterations_header; trace_event (dec_value x0) (dec_value y0);
                         zero_coefficient_error]).
  apply (main_run_with 0 b _ terms x0 y0 h x_target trueValue _
           [iterations_header; trace_event (dec_value x0) (dec_value y0); zero_coefficient_error]
           (Exit EXIT_FAILURE));
    [reflexivity | exact Hb | exact Hc | rewrite Nat2Z.id; reflexivity | exact Hf
    | apply printEquation_events, input_equation_wf |].
  apply (rungeKutta_zero_run _ _ _ _ _ n); [reflexivity | exact Hn | exact Hpos].
Qed.

(** Each iteration of the term loop stores exactly one coefficient and
    one power, whatever the input. *)
Lemma read_term_returns i cs ps :
  returns (read_term i (cs, ps))
    (fun arrays => length (fst arrays) = S (length cs) /\ length (snd arrays) = S (length ps)).
Proof.
  unfold read_term; do 4 returns_skip.
  apply returns_ret; cbn; rewrite !length_app; cbn; split; lia.
Qed.

(** C26: the equation [main] builds always has arrays of the declared
    length: whenever the loop reading the terms ends normally (on any
    input) and every entry was assigned, the record
    [mkEQUATION b a count cs ps] has [max count 0] coefficients and as
    many powers ([equation_shape]), so [calculate_gx] and [printEquation]
    never read past an array in a run of [main]. *)
Theorem read_terms_shape (count : Z) :
  returns (c_for count read_term ([], []))
    (fun arrays => forall a b cs ps,
       all_some (fst arrays) = Some cs -> all_some (snd arrays) = Some ps ->
       equation_shape (mkEQUATION b a count cs ps)).
Proof.
  unfold c_for.
  apply (returns_weaken _ (fun arrays => length (fst arrays) = Z.to_nat count
                                         /\ length (snd arrays) = Z.to_nat count)).
  - apply (returns_c_for_aux read_term
             (fun j arrays => length (fst arrays) = j /\ length (snd arrays) = j)); [|split; reflexivity].
    intros j [cs ps] _ [Hc Hp]; cbn in Hc, Hp; subst j.
    apply (returns_weaken _ _ _ (read_term_returns _ cs ps)).
    intros arrays [H1 H2]; split; congruence.
  - intros [cs0 ps0] [H1 H2] a b cs ps Hcs Hps; cbn in *.
    split; cbn; rewrite (all_some_length _ _ Hcs) || rewrite (all_some_length _ _ Hps); assumption.
Qed.

Lemma scan_int_word_run z rest out hs :
  in_int_range z = true ->
  scan_int (mkWorld (int_word z :: rest) out hs) = (mkWorld rest out hs, Normal (Some z)).
Proof.
  intros Hz; pose proof (io_scan_int z Hz rest out hs) as H; cbn in H.
  rewrite app_nil_r in H; exact H.
Qed.

Lemma scan_int_reject wd rest out hs :
  fst (scan_d_word wd) = None ->
  scan_int (mkWorld (wd :: rest) out hs)
  = (mkWorld (word_rest (snd (scan_d_word wd)) ++ rest) out hs, Normal None).
Proof.
  intros Hwd; unfold scan_int, bind, scan_item, int_item; cbn.
  destruct (scan_d_word wd) as [r leftover]; cbn in Hwd |- *; subst r; reflexivity.
Qed.

(** C19: input that is not a number is not detected: when the word
    answered for the term count does not begin with an integer, [scanf]
    stores nothing and consumes at most a sign, and the first use of the
    indeterminate [count] makes the run undefined (the specification asks
    for a failure exit). *)
Theorem main_count_not_integer a b wd rest out hrest :
  in_int_range a = true -> in_int_range b = true -> fst (scan_d_word wd) = None ->
  main (mkWorld (int_word a :: int_word b :: wd :: rest) out (true :: hrest))
  = (mkWorld (word_rest (snd (scan_d_word wd)) ++ rest) (out ++ equation_alloc true :: main_banner)
       hrest, Undefined).
Proof.
  intros Ha Hb Hwd; unfold main, c_malloc, malloc_ok, printf, emit, out_app, force, of_option,
    undefined, ret, bind; cbn -[scan_int].
  rewrite scan_int_word_run by exact Ha; cbn -[scan_int].
  rewrite scan_int_word_run by exact Hb; cbn -[scan_int].
  rewrite scan_int_reject by exact Hwd; cbn.
  rewrite <- !app_assoc; reflexivity.
Qed.

(** [%d] on a word that is an [int] followed by text that cannot continue
    it: the [int] is stored and the text is left as the next word. *)
Lemma scan_int_prefix_run k rest more out hs :
  in_int_range k = true -> starts_clear rest -> rest <> EmptyString ->
  scan_int (mkWorld (String.append (int_word k) rest :: more) out hs)
  = (mkWorld (rest :: more) out hs, Normal (Some k)).
Proof.
  intros Hk Hr Hne; unfold scan_int, bind, scan_item, int_item; cbn [w_input].
  rewrite scan_d_int_word by exact Hr; cbn; rewrite Hk.
  destruct rest; [contradiction | reflexivity].
Qed.

(** C20: an answer to the term count that is an [int] followed by other
    text (such as [2.5]) is not rejected: the run of [main] is exactly the
    run on the [int] alone followed by that text as the next answer, so
    the remainder ([.5]) becomes the first coefficient and every later
    answer is read one item late. *)
Theorem main_count_suffix a b k rest more out hs :
  in_int_range a = true -> in_int_range b = true -> in_int_range k = true ->
  starts_clear rest -> rest <> EmptyString ->
  main (mkWorld (int_word a :: int_word b :: String.append (int_word k) rest :: more) out (true :: hs))
  = main (mkWorld (int_word a :: int_word b :: int_word k :: rest :: more) out (true :: hs)).
Proof.
  intros Ha Hb Hk Hr Hne; unfold main, c_malloc, malloc_ok, printf, emit, out_app, ret, bind.
  cbn -[scan_int].
  repeat (rewrite scan_int_word_run by assumption; cbn -[scan_int]).
  rewrite scan_int_prefix_run by assumption; cbn -[scan_int].
  reflexivity.
Qed.

Lemma int_item_run wd :
  int_item wd = (d_accept (fst (run d_step DStart wd)), word_rest (snd (run d_step DStart wd))).
Proof. unfold int_item, scan_d_word; destruct (run d_step DStart wd); reflexivity. Qed.

Lemma float_item_run wd :
  float_item wd = (option_map f32_of_fnum (f_accept (fst (run f_step FStart wd))),
                   word_rest (snd (run f_step FStart wd))).
Proof. unfold float_item, scan_f_word; destruct (run f_step FStart wd); reflexivity. Qed.

(** The input model of [main] is exact: C's [scanf("%d")] and
    [scanf("%f")] on a text (skip white space, read the longest prefix of
    a matching sequence, leave the rest unread) give the same value as the
    model's [scan_item int_item] and [scan_item float_item] on the words of
    the text, and the words left in the model are the words of the text
    left by [scanf]; an exhausted input stores nothing in both. *)
Theorem scanf_words_exact (t : string) (out : list event) (hs : list bool) :
  scan_item int_item (mkWorld (words t) out hs)
  = (mkWorld (words (snd (scanf_d_text t))) out hs, Normal (fst (scanf_d_text t)))
  /\ scan_item float_item (mkWorld (words t) out hs)
     = (mkWorld (words (snd (scanf_f_text t))) out hs,
        Normal (option_map f32_of_fnum (fst (scanf_f_text t)))).
Proof.
  unfold scanf_d_text, scanf_f_text, scan_d_word, scan_f_word; split.
  - rewrite (scan_item_ext _ _ _ int_item_run).
    rewrite (scan_item_words d_step DStart d_accept) by (exact d_step_space || reflexivity).
    destruct (run d_step DStart (skip_space t)); reflexivity.
  - rewrite (scan_item_ext _ _ _ float_item_run).
    rewrite (scan_item_words f_step FStart (fun st => option_map f32_of_fnum (f_accept st)))
      by (exact f_step_space || reflexivity).
    destruct (run f_step FStart (skip_space t)); reflexivity.
Qed.

(** [scanf] reads back what the program's input is written with:
    [%d] on an [int] written as [printf("%d")] does, followed by text that
    cannot continue the numeral, reads exactly that [int] and leaves the
    text; [%f] on a decimal [m * 10^e] written [<m>e<e>] reads the whole
    word and stores [strtof(m * 10^e)]. *)
Theorem scanf_roundtrip z m e rest :
  starts_clear rest ->
  scan_d_word (String.append (int_word z) rest) = (Some z, rest)
  /\ float_item (dec_word m e) = (Some (f32_of_dec m e), []).
Proof. intros Hr; split; [apply scan_d_int_word, Hr | exact (float_item_dec (m, e))]. Qed.

End DriverRuns.


