(* ===== verification/Safety.v ===== *)
(** * Run-level safety of [main]: well-typed [printf] calls, exit statuses, the heap

    C99 7.19.6.1 makes a [printf] call whose argument does not have the
    type its conversion specification expects undefined behaviour.  The
    program passes [int]s, [float]s promoted to [double], and string
    literals; [conversions] reads the conversion specifications of a
    format ([%d], [%f], [%lf], [%s] and the escape [%%]) and [printf_ok]
    compares them with the arguments of a recorded call.  [Perror] events
    carry no format.

    With the run specification [obeys] of the Prelude, each function of
    [src/runge.c] is shown to emit only well-typed calls, to [exit] only
    with [EXIT_FAILURE], and [main] to return [0] or [1].  The lemmas hold
    for every world (any input, any [malloc] answers) and every [CArith]
    instance, so for the IEEE and the real model alike.

    The heap: [main]'s [malloc]/[free] events are replayed with
    [heap_step] of [Heap.v] ([hoare] of the Prelude); every other function
    is silent, which the same [obeys] lemmas show with [Pev := silent]. *)

From Stdlib Require Import ZArith Bool String Ascii List Lia.
From S2P Require Import Prelude CArith Heap Equation RungeKutta Main.
Import ListNotations.

Open Scope Z_scope.
Open Scope cprog_scope.

(** The argument types of the conversion specifications. *)
Inductive conv := CInt | CDouble | CStr | CBad.

Definition conv_eqb (a b : conv) : bool :=
  match a, b with
  | CInt, CInt | CDouble, CDouble | CStr, CStr | CBad, CBad => true
  | _, _ => false
  end.

Lemma conv_eqb_spec a b : reflect (a = b) (conv_eqb a b).
Proof. destruct a, b; constructor; congruence. Qed.

(** The conversion specifications of a format, in order; an unknown or
    truncated specification is [CBad], which no argument matches. *)
Fixpoint conversions (fmt : string) : list conv :=
  match fmt with
  | EmptyString => []
  | String c rest =>
      if Ascii.eqb c "%" then
        match rest with
        | String d rest' =>
            if Ascii.eqb d "d" then CInt :: conversions rest'
            else if Ascii.eqb d "f" then CDouble :: conversions rest'
            else if Ascii.eqb d "s" then CStr :: conversions rest'
            else if Ascii.eqb d "%" then conversions rest'
            else if Ascii.eqb d "l" then
              match rest' with
              | String e rest'' =>
                  if Ascii.eqb e "f" then CDouble :: conversions rest'' else [CBad]
              | EmptyString => [CBad]
              end
            else [CBad]
        | EmptyString => [CBad]
        end
      else conversions rest
  end.

Section Typing.
Context {CA : CArith}.

Definition arg_conv (a : arg) : conv :=
  match a with AInt _ => CInt | ADouble _ => CDouble | AStr _ => CStr end.

Fixpoint convs_match (cs : list conv) (args : list arg) : bool :=
  match cs, args with
  | [], [] => true
  | c :: cs', a :: args' => conv_eqb c (arg_conv a) && convs_match cs' args'
  | _, _ => false
  end.

(** A recorded call is well typed when its arguments match its format one
    for one, no more and no fewer. *)
Definition printf_ok (e : event) : bool :=
  match e with
  | Printf _ fmt args => convs_match (conversions fmt) args
  | Perror _ | Malloc _ _ _ | Free _ => true
  end.

Definition well_typed (e : event) : Prop := printf_ok e = true.

Lemma convs_match_spec cs args :
  convs_match cs args = true <-> cs = map arg_conv args.
Proof.
  revert args; induction cs as [|c cs IH]; intros [|a args]; cbn; try (split; congruence).
  rewrite andb_true_iff, IH; destruct (conv_eqb_spec c (arg_conv a)); split.
  - intros [_ ->]; congruence.
  - intros [=]; tauto.
  - intros [[=] _].
  - intros [=]; contradiction.
Qed.

End Typing.

(** ** Each function emits only well-typed calls

    The lemmas are stated for any property [Pev] of events that every
    well-typed output call has ([Hprintf], [Hperror]); the driver's
    lemmas also ask it of the allocator calls ([Hmalloc], [Hfree]).  Two
    instances are used: [well_typed] itself, and [silent] (no allocator
    call) for the functions other than [main]. *)

Section RunSafety.
Context {CA : CArith}.
Context (Pev : event -> Prop)
  (Hprintf : forall s fmt args, printf_ok (Printf s fmt args) = true -> Pev (Printf s fmt args))
  (Hperror : forall msg, Pev (Perror msg)).
(** The statuses [exit] may be called with; the program's only [exit] is
    [exit(EXIT_FAILURE)]. *)
Context (Pexit : Z -> Prop) (Hfail : Pexit EXIT_FAILURE).

Lemma printf_obeys fmt args :
  printf_ok (Printf Stdout fmt args) = true -> obeys (printf fmt args) Pev (fun _ => True) Pexit.
Proof. intros H; apply obeys_emit; [apply Hprintf, H | exact Logic.I]. Qed.

Lemma fprintf_stderr_obeys fmt args :
  printf_ok (Printf Stderr fmt args) = true ->
  obeys (fprintf_stderr fmt args) Pev (fun _ => True) Pexit.
Proof. intros H; apply obeys_emit; [apply Hprintf, H | exact Logic.I]. Qed.

Lemma perror_obeys msg : obeys (perror msg) Pev (fun _ => True) Pexit.
Proof. apply obeys_emit; [apply Hperror | exact Logic.I]. Qed.

Lemma scan_int_obeys : obeys scan_int Pev (fun _ => True) Pexit.
Proof.
  apply obeys_bind with (P := fun _ => True); [apply obeys_scan; trivial|].
  intros [z|] _; [destruct (in_int_range z)|]; eauto with obeys.
Qed.

Lemma scan_float_obeys : obeys scan_float Pev (fun _ => True) Pexit.
Proof. apply obeys_scan; trivial. Qed.

Lemma c_malloc_obeys b size :
  (forall ok, Pev (Malloc b size ok)) -> obeys (c_malloc b size) Pev (fun _ => True) Pexit.
Proof. intros H; unfold c_malloc; obeys_run. Qed.

Lemma c_free_obeys b : Pev (Free b) -> obeys (c_free b) Pev (fun _ => True) Pexit.
Proof. intros H; apply obeys_emit; [exact H | exact Logic.I]. Qed.

Lemma force_obeys {A} (v : option A) : obeys (force v) Pev (fun _ => True) Pexit.
Proof. apply obeys_of_option; trivial. Qed.

End RunSafety.

#[export] Hint Resolve printf_obeys fprintf_stderr_obeys perror_obeys scan_int_obeys
  scan_float_obeys c_malloc_obeys c_free_obeys force_obeys : obeys.
#[export] Hint Extern 1 (printf_ok _ = true) => reflexivity : obeys.

Section ComponentSafety.
Context {CA : CArith}.
Context (Pev : event -> Prop)
  (Hprintf : forall s fmt args, printf_ok (Printf s fmt args) = true -> Pev (Printf s fmt args))
  (Hperror : forall msg, Pev (Perror msg)).
Context (Pexit : Z -> Prop) (Hfail : Pexit EXIT_FAILURE).

Lemma calculateDerivative_obeys x y equation :
  obeys (calculateDerivative x y equation) Pev (fun _ => True) Pexit.
Proof. unfold calculateDerivative; obeys_run. Qed.
#[local] Hint Resolve calculateDerivative_obeys : obeys.

Lemma printEquation_obeys equation :
  obeys (printEquation equation) Pev (fun _ => True) Pexit.
Proof. unfold printEquation; obeys_run. Qed.

Lemma rungeKutta_obeys x0 y0 x_target h equation :
  obeys (rungeKutta x0 y0 x_target h equation) Pev (fun _ => True) Pexit.
Proof.
  unfold rungeKutta, rungeKutta_with, rk4_iteration, rk4_update.
  obeys_run.
Qed.

Lemma read_term_obeys i arrays : obeys (read_term i arrays) Pev (fun _ => True) Pexit.
Proof. unfold read_term; obeys_run. Qed.

Lemma printAbsoluteError_obeys trueValue approximateValue :
  obeys (printAbsoluteError trueValue approximateValue) Pev (fun _ => True) Pexit.
Proof. unfold printAbsoluteError; obeys_run. Qed.

End ComponentSafety.

#[export] Hint Resolve calculateDerivative_obeys printEquation_obeys rungeKutta_obeys
  read_term_obeys printAbsoluteError_obeys : obeys.

Section DriverSafety.
Context {CA : CArith}.
Context (Pev : event -> Prop)
  (Hprintf : forall s fmt args, printf_ok (Printf s fmt args) = true -> Pev (Printf s fmt args))
  (Hperror : forall msg, Pev (Perror msg))
  (Hmalloc : forall b size ok, Pev (Malloc b size ok)) (Hfree : forall b, Pev (Free b)).
Context (Pexit : Z -> Prop) (Hfail : Pexit EXIT_FAILURE).

Lemma solve_and_report_obeys equation :
  obeys (solve_and_report equation) Pev (fun r => r = 0) Pexit.
Proof. unfold solve_and_report; obeys_run. Qed.

(** Every run of [main]: only events with [Pev], a return value [0] or
    [1], [exit] only with a status the callers allow. *)
Lemma main_obeys : obeys main Pev (fun r => r = 0 \/ r = 1) Pexit.
Proof.
  unfold main; obeys_run.
  apply obeys_weaken with (P := fun r => r = 0); [apply solve_and_report_obeys | auto].
Qed.

End DriverSafety.

Lemma main_well_typed {CA : CArith} :
  obeys main well_typed (fun r => r = 0 \/ r = 1) (fun c => c = EXIT_FAILURE).
Proof.
  apply main_obeys; [intros ? ? ? H; exact H | reflexivity.. ].
Qed.

(** ** The heap through a run of [main]

    [heap_step] ([Heap.v]) replayed on the events of a run, from an empty
    heap.  Every function but [main] is [silent]: it calls neither
    [malloc] nor [free], so it leaves the heap as it is
    ([hoare_bind_neutral]); [main]'s own calls move it one step each. *)

Section HeapSafety.
Context {CA : CArith}.

Lemma hoare_bind_c_malloc {B} b size (k : bool -> CM B) live R Rx :
  ~ In b live ->
  (forall ok, hoare heap_step (k ok) (eq (if ok then b :: live else live)) R Rx) ->
  hoare heap_step (bind (c_malloc b size) k) (eq live) R Rx.
Proof.
  intros Hb Hk; apply (hoare_bind _ _ _ _ (fun ok : bool => eq (if ok then b :: live else live)));
    [|exact Hk].
  unfold c_malloc.
  apply (hoare_bind_neutral _ silent (fun _ => True) (fun _ => False));
    [apply obeys_malloc; trivial | exact silent_neutral | intros _ [] | intros ok _].
  eapply hoare_bind_emit; [|apply hoare_ret; intros ? <-; reflexivity].
  destruct ok; cbn; [destruct (in_dec block_eq_dec b live); [contradiction|] |]; reflexivity.
Qed.

(** [heap_run] walks [main] against the heap: an allocation splits on its
    answer, an emitted event is one step of [heap_step], and any other
    computation is silent and is discharged by [obeys_run], first as one
    that cannot [exit], then as one that exits with [EXIT_FAILURE]. *)
Ltac heap_run :=
  repeat first
    [ progress cbv beta iota zeta delta [negb andb]
    | match goal with
      | |- hoare _ (bind (c_malloc _ _) _) (eq _) _ _ =>
          apply hoare_bind_c_malloc; [cbn; intuition discriminate | intros []]
      | |- hoare _ (bind _ _) (eq _) _ _ => eapply hoare_bind_emit; [cbn; reflexivity |]
      | |- hoare _ (bind _ _) (eq _) _ _ =>
          first
            [ apply (hoare_bind_neutral _ silent (fun _ => True) (fun _ => False));
              [solve [obeys_run] | exact silent_neutral | intros _ [] | intros ? _]
            | apply (hoare_bind_neutral _ silent (fun _ => True) (eq EXIT_FAILURE));
              [solve [obeys_run] | exact silent_neutral | intros ? _; reflexivity | intros ? _] ]
      | |- hoare _ (if ?b then _ else _) _ _ _ => destruct b
      | |- hoare _ (match ?x with pair _ _ => _ end) _ _ _ => destruct x
      | |- hoare _ (ret _) _ _ _ => apply hoare_ret; intros ? <-
      end ].

(** The functions other than [main] are silent. *)
#[local] Hint Extern 1 (forall s fmt args, printf_ok (Printf s fmt args) = true -> silent _) =>
  exact (fun s fmt args _ => silent_printf s fmt args) : obeys.
#[local] Hint Extern 1 (forall msg, silent (Perror msg)) => exact silent_perror : obeys.

(** What [main] leaves allocated: nothing when it returns [0], at most one
    term array when it returns [1], all three blocks at an [exit]. *)
Lemma main_heap :
  hoare heap_step main (eq [])
    (fun r live => r = 0 /\ live = []
                   \/ r = 1 /\ (live = [] \/ live = [BCoefficients] \/ live = [BPowers]))
    (fun _ live => live = [BPowers; BCoefficients; BEquation]).
Proof. unfold main, solve_and_report; heap_run; auto 6. Qed.

End HeapSafety.

(** ** The claims *)

(** C27: every [printf] and [fprintf] call that any run of [main] makes, on
    any input and with any answers of [malloc], has arguments of exactly
    the types its format's conversion specifications expect ([%d] an
    [int], [%f]/[%lf] a [double], [%s] a string), one for one; so no run
    reaches the undefined behaviour of a mismatched [printf]. *)
Theorem main_printf_well_typed {CA : CArith} (w : world string event) :
  exists es, w_output (fst (main w)) = w_output w ++ es
             /\ Forall (fun e => printf_ok e = true) es.
Proof.
  destruct (main_well_typed w) as (es & Ho & Hf & _).
  exists es; split; [exact Ho | exact Hf].
Qed.

(** C28: every run of [main] that ends without undefined behaviour either
    returns [0] (a completed computation) or [1] (an allocation failure),
    or leaves through [exit] with status [EXIT_FAILURE] (the zero [y']
    coefficient); it never returns or exits with any other status. *)
Theorem main_exit_status {CA : CArith} (w : world string event) :
  match snd (main w) with
  | Normal r => r = 0 \/ r = 1
  | Exit c => c = EXIT_FAILURE
  | Undefined => True
  end.
Proof.
  destruct (main_well_typed w) as (es & _ & _ & Hr).
  exact Hr.
Qed.

(** C6: every run of [main], on any input and with any answers of
    [malloc], uses the heap correctly: replayed from an empty heap, its
    [malloc]/[free] calls never free a block that is not allocated (no
    invalid or double [free]); a run returning [0] frees everything it
    allocated, a run returning [1] (an allocation failure) leaks at most
    one term array and never the equation, and a run that leaves through
    [exit] holds the three blocks at that point. *)
Theorem main_heap_safe {CA : CArith} (w : world string event) :
  exists es, w_output (fst (main w)) = w_output w ++ es
    /\ match snd (main w) with
       | Normal r =>
           exists live, heap_replay [] es = Some live
             /\ (r = 0 /\ live = []
                 \/ r = 1 /\ (live = [] \/ live = [BCoefficients] \/ live = [BPowers]))
       | Exit _ => heap_replay [] es = Some [BPowers; BCoefficients; BEquation]
       | Undefined => True
       end.
Proof.
  destruct (main_heap w [] eq_refl) as (es & Ho & Hr); exists es; split; [exact Ho|].
  destruct (snd (main w)); [exact Hr | destruct Hr as (live & H & ->); exact H | exact Logic.I].
Qed.
