(* ===== verification/MainReal.v ===== *)
(** * [main] in exact arithmetic

    The run of [main] ([Main.v], [main_run_with]) composed with the
    refinement of [rungeKutta] ([RK4Real.v]): on the real instance, what
    [main] prints for the equation typed is the trace of the textbook RK4
    iterates, then the last iterate as [y(x_target)] and its distance to
    the true value typed. *)

From Stdlib Require Import ZArith Reals String List Lia.
From S2P Require Import Prelude CArith Heap Equation RungeKutta RealArith RK4Real Main.
Import ListNotations.

Open Scope R_scope.

Section MainReal.
Local Existing Instance RealArith.

(** The terms typed, [c_i = m_i * 10^e_i] with the power [p_i], as the
    pairs of the abstract right-hand side. *)
Definition input_terms_R (terms : list ((Z * Z) * Z)) : list (R * Z) :=
  map (fun t => (dec_value (fst t), snd t)) terms.

Lemma gx_terms_input_equation a b terms :
  gx_terms (input_equation a b terms) = input_terms_R terms.
Proof.
  unfold gx_terms, input_equation, input_terms_R; cbn.
  induction terms as [|t terms IH]; cbn; [reflexivity | rewrite IH; reflexivity].
Qed.

(** C16: composition.  In exact arithmetic, on an input giving [a <> 0],
    [b], the terms and the five decimals, with the allocations granted,
    [main] prints the banner, prompts and equation, then [ITERATIONS] and
    the states [(x_k, y_k)], [k < n], of the textbook RK4 method for
    [y' = (g(x) - b*y)/a] with the terms typed, then [y_n] as the value
    at [x_target] (twice) and [|trueValue - y_n|] as the absolute error,
    frees the three blocks and returns [0]. *)
Theorem main_refines_rk4 (a b : Z) terms x0 y0 h x_target trueValue n :
  in_int_range a = true -> in_int_range b = true -> a <> 0%Z ->
  in_int_range (Z.of_nat (length terms)) = true ->
  Forall (fun t => in_int_range (snd t) = true) terms ->
  iteration_count (dec_value x0) (dec_value x_target) (dec_value h) = Some n ->
  let equation := input_equation a b terms in
  let F := linear_rhs a b (input_terms_R terms) in
  let h' := step_direction (dec_value x0) (dec_value x_target) (dec_value h) in
  let y := snd (rk4_iter F h' (Z.to_nat n) (dec_value x0, dec_value y0)) in
  io main (main_input a b terms x0 y0 h x_target trueValue) [true; true; true]
    (equation_alloc true :: main_banner ++ term_allocs (Z.of_nat (length terms)) true true
     ++ term_prompts 0 (length terms)
     ++ entered_equation
        :: (equation_header equation :: describe_terms (gx_terms equation) ++ [newline_event])
        ++ solve_prompts
        ++ iterations_header :: rk4_trace F h' (Z.to_nat n) (dec_value x0, dec_value y0)
        ++ [Printf Stdout "y(%f) = %f\n" [ADouble (dec_value x_target); ADouble y];
            Printf Stdout "Approximate value of the equation at point %f: %f\n"
              [ADouble (dec_value x_target); ADouble y];
            Printf Stdout "Absolute error: %f\n" [ADouble (Rabs (dec_value trueValue - y))]]
        ++ final_frees)
    (Normal 0%Z).
Proof.
  intros Ha Hb Ha0 Hc Hf Hn; cbv zeta.
  pose proof (rungeKutta_real_run (input_equation a b terms) (dec_value x0) (dec_value y0)
                (dec_value x_target) (dec_value h) n (input_equation_wf a b terms) Ha0 Hn) as Hrk.
  cbv zeta in Hrk; rewrite gx_terms_input_equation in Hrk.
  exact (main_run_with a b _ terms x0 y0 h x_target trueValue _ _ _ Ha Hb Hc
           (eq_sym (Nat2Z.id _)) Hf (printEquation_events _ (input_equation_wf a b terms)) Hrk).
Qed.

(** [y' + y = 0] from [(0, 1)] to [1] with [h = 0.1]: ten steps. *)
Lemma count_dec_decay :
  iteration_count (dec_value (0, 0)%Z) (dec_value (1, 0)%Z) (dec_value (1, -1)%Z) = Some 10%Z.
Proof.
  change (iteration_count (R_of_dec 0 0) (R_of_dec 1 0) (R_of_dec 1 (-1)) = Some 10%Z).
  replace (R_of_dec 0 0) with 0 by (unfold R_of_dec; simpl; ring).
  replace (R_of_dec 1 0) with 1 by (unfold R_of_dec; simpl; ring).
  replace (R_of_dec 1 (-1)) with (1 / 10) by (unfold R_of_dec; simpl; field).
  exact countR_forward.
Qed.

Lemma main_refines_rk4_witness :
  exists es, io main (main_input 1 1 [] (0, 0) (1, 0) (1, -1) (1, 0) (367879, -6))%Z
               [true; true; true] es (Normal 0%Z).
Proof.
  eexists; apply (main_refines_rk4 1 1 [] (0, 0)%Z (1, 0)%Z (1, -1)%Z (1, 0)%Z (367879, -6)%Z 10);
    [reflexivity | reflexivity | discriminate | reflexivity | constructor | exact count_dec_decay].
Defined.

End MainReal.
