(* ===== verification/RK4Float.v ===== *)
(** * [rungeKutta] in IEEE arithmetic: the binary32 model

    On the instance [IEEEArith] of [Binary.v] the model is executable.
    The properties of this file hold for families of binary32 inputs: the
    step lost to rounding of the decimal inputs [0], [1.3], [0.1] for
    every equation and [y0] (C8), the undefined [(int)] cast for [h = 0]
    for every start, target and equation (C9), the no-op run when the
    target is the start (C23).  The [Example]s are evaluations at fixed
    inputs by [vm_compute], regression checks of the findings: the
    specification's check ([y' + y = 0] from [(0, 1)] to [x = 1] with
    [h = 0.01]), the drift of [x], a pole of [g] turning the result into a
    NaN, the [float] accumulator overflowing, the [int] overflow of the
    count, the answer [2.5] for the term count.  The witnesses of the
    generic theorems, runs of [main] included, are evaluated here. *)

From Stdlib Require Import ZArith QArith Qabs String List Lia Floats.SpecFloat.
From S2P Require Import Prelude CArith Heap Scanf Binary Printf Equation RungeKutta Main.
Import ListNotations.

Open Scope Z_scope.

(** [|x - m*10^e| <= tol] for a finite [x]. *)
Definition within (x : spec_float) (target tol : Q) : bool :=
  match b_to_Q x with
  | Some v => Qle_bool (Qabs (v - target)) tol
  | None => false
  end.

(** A finite binary32 value: a zero or a finite number. *)
Definition b_finite (x : spec_float) : bool :=
  match x with S754_zero _ | S754_finite _ _ _ => true | _ => false end.

(** A value a [float] variable holds: a canonical binary32 number. *)
Definition valid32 (x : binary32) : bool := valid_binary prec32 emax32 x.

(** [y' + y = 0]: [a = 1], [b = 1], no term in [g]. *)
Definition eq_decay : @EQUATION IEEEArith := mkEQUATION 1 1 0 [] [].

Definition b0 : binary32 := b32_of_int 0.
Definition b1 : binary32 := b32_of_int 1.
Definition h001 : binary32 := b32_of_dec 1 (-2).

(** The check of the specification, run bit for bit in binary32:
    [rungeKutta(0, 1, 1, 0.01)] on [y' + y = 0] prints the header and 100
    trace lines and returns [12343991 * 2^-25 = 0.36787960...], within
    [1e-4] of [0.367879] (and of [exp(-1) = 0.36787944...]). *)
Example spec_check_exp_minus_1 :
  exists es y,
    writes (rungeKutta b0 b1 b1 (b32_of_dec 1 (-2)) eq_decay) es (Normal y)
    /\ length es = 101%nat
    /\ y = S754_finite false 12343991 (-25)
    /\ within y (367879 # 1000000) (1 # 10000) = true.
Proof.
  do 2 eexists; split.
  - apply (rungeKutta_pure_run eq_decay b0 b1 b1 (b32_of_dec 1 (-2)) 100);
      [apply equation_wfb_spec; vm_compute; reflexivity | discriminate | vm_compute; reflexivity].
  - vm_compute; split; [reflexivity | split; reflexivity].
Qed.

(** The [x] of the loop accumulates binary32 rounding: in the run of
    the specification's check, the last trace line prints
    [x = 16609433 * 2^-24 = 0.98999935], eleven units in the last place
    below the binary32 value of [0.99], and the loop ends at
    [16777205 * 2^-24 = 0.99999934] instead of [x_target = 1]. *)
Example trace_x_drift :
  exists es y,
    writes (rungeKutta b0 b1 b1 h001 eq_decay) es (Normal y)
    /\ nth_error es 100
       = Some (trace_event (S754_finite false 16609433 (-24))
                 (snd (rk_state (equation_rhs eq_decay) (step_direction b0 b1 h001) 99 (b0, b1))))
    /\ b32_of_dec 99 (-2) = S754_finite false 16609444 (-24)
    /\ fst (rk_state (equation_rhs eq_decay) (step_direction b0 b1 h001) 100 (b0, b1))
       = S754_finite false 16777205 (-24).
Proof.
  do 2 eexists; split.
  - apply (rungeKutta_pure_run eq_decay b0 b1 b1 h001 100);
      [apply equation_wfb_spec; vm_compute; reflexivity | discriminate | vm_compute; reflexivity].
  - split; [vm_refl | split; vm_refl].
Qed.

(** [y' = 1 / x]: the term [x^-1] has a pole at [0]. *)
Definition eq_pole : @EQUATION IEEEArith := mkEQUATION 0 1 1 [b1] [(-1)%Z].

(** A pole of [g] on the path is not detected: for [y' = x^-1] from
    [(0, 0)] to [1] with [h = 0.5], [pow(0, -1)] is [+inf], the derivative
    [(inf - 0 * y) / 1] is infinite, [0 * inf] in the next derivative is a
    NaN, and [rungeKutta] completes normally, printing [ITERATIONS] and two
    trace lines, and returns NaN: the numeric anomaly flows through the
    float pipeline as the specification's error design prescribes. *)
Example rungeKutta_pole_nan :
  exists es,
    writes (rungeKutta b0 b0 b1 (b32_of_dec 5 (-1)) eq_pole) es (Normal S754_nan)
    /\ length es = 3%nat.
Proof.
  assert (Hy : snd (rk_state (equation_rhs eq_pole) (step_direction b0 b1 (b32_of_dec 5 (-1)))
                     (Z.to_nat 2) (b0, b0)) = S754_nan) by vm_refl.
  eexists; split.
  - rewrite <- Hy; apply (rungeKutta_pure_run eq_pole b0 b0 b1 (b32_of_dec 5 (-1)) 2);
      [apply equation_wfb_spec; vm_compute; reflexivity | discriminate | vm_compute; reflexivity].
  - vm_compute; reflexivity.
Qed.

(** [g(x) = x^40 - x^40]: two terms that cancel. *)
Definition eq_cancel : @EQUATION IEEEArith := mkEQUATION 0 1 2 [b1; b32_of_int (-1)] [40%Z; 40%Z].

(** The [float] accumulator of [calculate_gx] overflows on terms
    that [double] holds: at [x = 10] each term of [x^40 - x^40] is
    [1e40] in [double] (finite, the two cancel to [0] there), but [result]
    is a [float], so the first [result += ...] stores [+inf] and
    [calculate_gx] returns [+inf] for a [g] that is identically zero. *)
Example calculate_gx_float_overflow :
  calculate_gx eq_cancel (b32_of_int 10) = Some (S754_infinity false)
  /\ b64_pow (b64_of_b32 (b32_of_int 10)) 40 = S754_finite false 8271806125530277 80
  /\ SFadd prec64 emax64
       (SFmul prec64 emax64 (b64_of_b32 b1) (b64_pow (b64_of_b32 (b32_of_int 10)) 40))
       (SFmul prec64 emax64 (b64_of_b32 (b32_of_int (-1))) (b64_pow (b64_of_b32 (b32_of_int 10)) 40))
     = S754_zero false.
Proof. split; [vm_refl | split; vm_refl]. Qed.

(** The trace loses nothing: a trace line carries [current_x] and
    [y] promoted to [double] for [%lf], and converting the two printed
    doubles back to [float] gives the state again, so distinct states
    print distinct lines. *)
Theorem trace_event_exact (x y : binary32) :
  valid32 x = true -> valid32 y = true ->
  exists dx dy,
    @trace_event IEEEArith x y = Printf Stdout "f(%lf)=%lf\n" [ADouble dx; ADouble dy]
    /\ b32_of_b64 dx = x /\ b32_of_b64 dy = y.
Proof.
  intros Hx Hy; exists (b64_of_b32 x), (b64_of_b32 y).
  split; [reflexivity | split; apply b32_b64_roundtrip; assumption].
Qed.

(** C8: binary32 rounding of decimal inputs can lose an iteration:
    from [x0 = 0] to [x_target = 1.3] with [h = 0.1] the exact quotient is
    [13], but [(1.3f - 0) / 0.1f] rounds below [13] and the cast gives [12],
    so any well-formed equation is integrated over 12 steps only, to
    [x = 1.2]. *)
Theorem decimal_inputs_lose_a_step (equation : @EQUATION IEEEArith) y0 es r :
  equation_wf equation -> y_prime_coefficient equation <> 0 ->
  writes (rungeKutta b0 y0 (b32_of_dec 13 (-1)) (b32_of_dec 1 (-1)) equation) es r ->
  iteration_count b0 (b32_of_dec 13 (-1)) (b32_of_dec 1 (-1)) = Some 12
  /\ length es = 13%nat.
Proof.
  intros Hwf Ha Hw.
  assert (Hn : iteration_count b0 (b32_of_dec 13 (-1)) (b32_of_dec 1 (-1)) = Some 12)
    by (vm_compute; reflexivity).
  split; [exact Hn|].
  destruct (writes_fun _ _ _ _ _ Hw (rungeKutta_pure_run equation b0 y0 _ _ 12 Hwf Ha Hn)) as [-> _].
  cbn [length]; rewrite length_rk_trace; reflexivity.
Qed.

(** The cast of a quotient by a zero step is undefined: [x / 0] is an
    infinity or NaN. *)
Lemma iteration_count_zero_step (x0 x_target : binary32) s :
  @iteration_count IEEEArith x0 x_target (S754_zero s) = None.
Proof.
  unfold iteration_count, step_direction; simpl.
  destruct (SFltb x_target x0), (SFsub prec32 emax32 x_target x0) as [[]|[]| |[] m e]; reflexivity.
Qed.

(** C9: a zero step size is not rejected by the code: [rungeKutta] with
    [h = 0.0] (as [scanf] reads ["0"]) performs an undefined [(int)] cast of
    an infinity or NaN, before printing anything, whatever the other
    inputs ([iteration_count_zero_step] covers [-0.0] too). *)
Theorem rungeKutta_zero_step (equation : @EQUATION IEEEArith) x0 y0 x_target :
  writes (rungeKutta x0 y0 x_target b0 equation) [] Undefined.
Proof. apply rungeKutta_with_undefined, iteration_count_zero_step. Qed.

(** [x - x] is a zero for a finite [x]. *)
Lemma SFsub_self (x : spec_float) :
  b_finite x = true -> exists s, SFsub prec32 emax32 x x = S754_zero s.
Proof.
  destruct x as [s|s| |s m e]; try discriminate; intros _.
  - destruct s; eexists; reflexivity.
  - exists false; cbn [SFsub]; rewrite Z.sub_diag; reflexivity.
Qed.

Lemma SFltb_irrefl (x : spec_float) : b_finite x = true -> SFltb x x = false.
Proof.
  destruct x as [s|s| |s m e]; try discriminate; intros _; [reflexivity|].
  unfold SFltb, SFcompare; rewrite Z.compare_refl, Pos.compare_cont_refl; destruct s; reflexivity.
Qed.

Lemma iteration_count_same_point (x0 : binary32) s m e :
  b_finite x0 = true -> @iteration_count IEEEArith x0 x0 (S754_finite s m e) = Some 0.
Proof.
  intros Hx; unfold iteration_count, step_direction; cbn [f32_lt f32_sub f32_div int_of_f32 IEEEArith].
  rewrite SFltb_irrefl by exact Hx.
  destruct (SFsub_self x0 Hx) as [s' ->]; reflexivity.
Qed.

(** C23: the no-op case of the specification: when the target is the
    (finite) starting point and [h] is a non-zero finite number,
    [rungeKutta] prints [ITERATIONS] only and returns [y0], for any
    equation ([a = 0] included; [h = 0] is C9). *)
Theorem rungeKutta_same_point (equation : @EQUATION IEEEArith) x0 y0 s m e :
  b_finite x0 = true ->
  writes (rungeKutta x0 y0 x0 (S754_finite s m e) equation) [iterations_header] (Normal y0).
Proof.
  intros Hx; apply (rungeKutta_with_nonpos _ _ _ _ _ 0); [apply iteration_count_same_point, Hx | lia].
Qed.

(** A step too small for the span overflows the [int] count:
    [(1 - 0) / 1e-10] is about [1e10 > INT_MAX], the cast is undefined. *)
Example rungeKutta_count_overflow (equation : @EQUATION IEEEArith) y0 :
  writes (rungeKutta b0 y0 b1 (b32_of_dec 1 (-10)) equation) [] Undefined.
Proof. apply rungeKutta_with_undefined; vm_compute; reflexivity. Qed.

(** The answers [1], [1], [2.5] (the term count), [2], [1], [3], then
    [x0 = 0], [y0 = 1], [h = 0.5], [x_target = 1], true value [1]. *)
Definition decimal_count_input : list string :=
  ["1"; "1"; "2.5"; "2"; "1"; "3"; "0"; "1"; "0.5"; "1"; "1"]%string.

(** [%d] reads the integer part of a decimal answer and leaves the
    rest in the input: answering [2.5] for the number of terms gives two
    terms, and the [.5] left over is read as the first coefficient, so the
    answers meant as [coefficient 2, power 1] and [coefficient 3, ...] are
    shifted: the equation printed is [( 0.5 * x^2 ) + ( 1 * x^3 )] and
    the run, consuming every answer, returns [0]. *)
Example main_decimal_count :
  let r := @main IEEEArith (mkWorld decimal_count_input [] []) in
  snd r = Normal 0
  /\ w_input (fst r) = []
  /\ nth_error (w_output (fst r)) 14 = Some (term_event (b32_of_dec 5 (-1)) 2 " + "%string)
  /\ nth_error (w_output (fst r)) 15 = Some (term_event b1 3 EmptyString).
Proof. cbv zeta; split; [vm_refl | split; [vm_refl | split; vm_refl]]. Qed.

(** ** Witnesses: the generic theorems at concrete binary32 inputs *)

(** [y' = 1.5 x^2 + 3 / x] and [y' + 0 * ... ]: a zero [y'] coefficient. *)
Definition eq_terms : @EQUATION IEEEArith :=
  mkEQUATION 0 1 2 [b32_of_dec 15 (-1); b32_of_int 3] [2; -1].
Definition eq_zero_a : @EQUATION IEEEArith := mkEQUATION 1 0 0 [] [].

Lemma eq_decay_wf : equation_wf eq_decay.
Proof. apply equation_wfb_spec; vm_compute; reflexivity. Qed.

Lemma count_decay : iteration_count b0 b1 h001 = Some 100.
Proof. vm_compute; reflexivity. Qed.

Lemma calculate_gx_correct_witness :
  equation_wf eq_terms
  /\ calculate_gx eq_terms (b32_of_int 2) = Some (gx_sum (gx_terms eq_terms) (b32_of_int 2)).
Proof.
  assert (Hwf : equation_wf eq_terms) by (apply equation_wfb_spec; vm_compute; reflexivity).
  split; [exact Hwf | apply calculate_gx_correct, Hwf].
Defined.

Lemma rungeKutta_spec_witness :
  writes (rungeKutta b0 b1 b1 h001 eq_decay)
    (iterations_header
       :: rk_trace (equation_rhs eq_decay) (step_direction b0 b1 h001) (Z.to_nat 100) (b0, b1))
    (Normal (snd (rk_state (equation_rhs eq_decay) (step_direction b0 b1 h001)
                    (Z.to_nat 100) (b0, b1)))).
Proof.
  apply (rungeKutta_spec eq_decay b0 b1 b1 h001 100);
    [exact eq_decay_wf | discriminate | exact count_decay].
Defined.

Lemma rungeKutta_zero_coefficient_witness :
  writes (rungeKutta b0 b1 b1 h001 eq_zero_a)
    [iterations_header; trace_event b0 b1; zero_coefficient_error] (Exit EXIT_FAILURE).
Proof.
  apply (rungeKutta_zero_coefficient eq_zero_a b0 b1 b1 h001 100);
    [reflexivity | exact count_decay | lia].
Defined.

Lemma decimal_inputs_lose_a_step_witness :
  iteration_count b0 (b32_of_dec 13 (-1)) (b32_of_dec 1 (-1)) = Some 12
  /\ length (iterations_header
               :: rk_trace (equation_rhs eq_decay)
                    (step_direction b0 (b32_of_dec 13 (-1)) (b32_of_dec 1 (-1))) 12 (b0, b1))
     = 13%nat.
Proof.
  eapply (decimal_inputs_lose_a_step eq_decay b1); [exact eq_decay_wf | discriminate |].
  apply (rungeKutta_pure_run eq_decay b0 b1 _ _ 12);
    [exact eq_decay_wf | discriminate | vm_compute; reflexivity].
Defined.

Lemma printEquation_output_witness :
  writes (printEquation eq_terms)
    (equation_header eq_terms :: describe_terms (gx_terms eq_terms) ++ [newline_event])
    (Normal tt).
Proof.
  apply (printEquation_output eq_terms); apply equation_wfb_spec; vm_compute; reflexivity.
Defined.

(** [main] on [y' + y = 1.5 x^2] from [(0, 1)] to [x = 1] with [h = 0.01]. *)
Definition main_terms : list ((Z * Z) * Z) := [((15, -1), 2)].

Lemma main_run_witness :
  exists es,
    @io string (@event IEEEArith) Z main
      (main_input 1 1 main_terms (0, 0) (1, 0) (1, -2) (1, 0) (367879, -6))
      [true; true; true] es (Normal 0).
Proof.
  eexists; apply (main_run 1 1 main_terms (0, 0) (1, 0) (1, -2) (1, 0) (367879, -6) 100);
    [reflexivity | reflexivity | discriminate | reflexivity | repeat constructor
    | vm_compute; reflexivity].
Defined.

Lemma main_alloc_terms_failure_witness :
  let es := equation_alloc true :: main_banner ++ term_allocs 2 true false
            ++ [Perror msg_alloc_terms; Free BEquation] in
  @io string (@event IEEEArith) Z main [int_word 1; int_word 1; int_word 2] [true; true; false]
    es (Normal 1)
  /\ heap_replay [] es = Some [BCoefficients].
Proof. exact (main_alloc_terms_failure 1 1 2 true false eq_refl eq_refl eq_refl eq_refl). Defined.

Lemma main_negative_count_witness :
  exists es,
    @io string (@event IEEEArith) Z main
      (int_word 1 :: int_word 1 :: int_word (-3) :: map dec_input [(0, 0); (1, 0); (1, -2); (1, 0); (367879, -6)])
      [true; true; true] es (Normal 0).
Proof.
  eexists; apply (main_negative_count 1 1 (-3) (0, 0) (1, 0) (1, -2) (1, 0) (367879, -6) 100);
    [reflexivity | reflexivity | discriminate | reflexivity | lia | vm_compute; reflexivity].
Defined.

Lemma main_count_not_integer_witness :
  fst (scan_d_word "two"%string) = None
  /\ @main IEEEArith (mkWorld [int_word 1; int_word 1; "two"%string] [] [true])
     = (mkWorld (word_rest (snd (scan_d_word "two"%string)) ++ [])
          (equation_alloc true :: main_banner) [], Undefined).
Proof. split; [reflexivity | apply (main_count_not_integer 1 1 "two"%string [] [] []); reflexivity]. Defined.

(** The answers of [decimal_count_input]: [2.5] for the term count is
    the same run as [2] then [.5]. *)
Lemma main_count_suffix_witness :
  starts_clear ".5"%string
  /\ @main IEEEArith (mkWorld (int_word 1 :: int_word 1 :: String.append (int_word 2) ".5"
                              :: ["2"; "1"; "3"; "0"; "1"; "0.5"; "1"; "1"]%string) [] [true])
     = main (mkWorld (int_word 1 :: int_word 1 :: int_word 2 :: ".5"%string
                      :: ["2"; "1"; "3"; "0"; "1"; "0.5"; "1"; "1"]%string) [] [true]).
Proof.
  split; [reflexivity|].
  apply (main_count_suffix 1 1 2 ".5"%string); [reflexivity.. | discriminate].
Defined.

Lemma rungeKutta_same_point_witness :
  writes (rungeKutta b1 b1 b1 (S754_finite false 8388608 (-23)) eq_zero_a) [iterations_header] (Normal b1).
Proof. apply (rungeKutta_same_point eq_zero_a b1 b1 false 8388608 (-23)); reflexivity. Defined.

Lemma trace_event_exact_witness :
  exists dx dy,
    @trace_event IEEEArith h001 b1 = Printf Stdout "f(%lf)=%lf\n" [ADouble dx; ADouble dy]
    /\ b32_of_b64 dx = h001 /\ b32_of_b64 dy = b1.
Proof. apply trace_event_exact; vm_compute; reflexivity. Defined.

Lemma main_zero_coefficient_no_step_witness :
  exists es,
    @io string (@event IEEEArith) Z main
      (main_input 0 1 [] (1, 0) (1, 0) (1, -2) (1, 0) (367879, -6)) [true; true; true]
      es (Normal 0).
Proof.
  eexists; apply (main_zero_coefficient_no_step 1 [] (1, 0) (1, 0) (1, -2) (1, 0) (367879, -6) 0);
    [reflexivity | reflexivity | constructor | vm_compute; reflexivity | lia].
Defined.

Lemma main_zero_coefficient_exit_witness :
  exists es,
    @io string (@event IEEEArith) Z main
      (main_input 0 1 [] (0, 0) (1, 0) (1, -2) (1, 0) (367879, -6)) [true; true; true]
      es (Exit EXIT_FAILURE).
Proof.
  eexists; apply (main_zero_coefficient_exit 1 [] (0, 0) (1, 0) (1, -2) (1, 0) (367879, -6) 100);
    [reflexivity | reflexivity | constructor | vm_compute; reflexivity | lia].
Defined.

Lemma scanf_roundtrip_witness :
  starts_clear ".5"%string
  /\ scan_d_word (String.append (int_word (-42)) ".5") = (Some (-42), ".5"%string)
  /\ @float_item IEEEArith (dec_word 25 (-1)) = (Some (f32_of_dec 25 (-1)), []).
Proof. split; [reflexivity | apply (scanf_roundtrip (-42) 25 (-1) ".5"%string); reflexivity]. Defined.
