(* ===== verification/Transcript.v ===== *)
(** * The text [main] prints, run in binary32/binary64

    The end-to-end model of a run: the text typed on the standard input
    is split into words ([Scanf.v]), [main] runs on them with the IEEE
    instance ([Main.v], [Binary.v]), and the [printf] events of the run
    are rendered to text as glibc writes them ([Printf.v]).  The example
    of the file, a regression check evaluated at one fixed input, is the
    complete standard output of the specification's check, typed as the
    answers [1 1 0], [0], [1], [0.01], [1], [0.367879]. *)

From Stdlib Require Import ZArith String List Floats.SpecFloat.
From S2P Require Import Prelude CArith Scanf Binary Printf Main.
Import ListNotations.

(** The answers to the prompts, as typed: [a = 1], [b = 1], no term,
    [x0 = 0], [y0 = 1], [h = 0.01], [x_target = 1], true value [0.367879]. *)
Definition check_input : string := "1 1 0
0
1
0.01
1
0.367879
".

(** What the program writes on the standard output for it. *)
Definition check_transcript : string := "Runge-Kutta method for first-order differential equation
a * y' + b * y = g(x)

Enter the coefficient of y': Enter the coefficient of y: Enter the number of terms in g(x): Entered equation: 1*y' + 1*y = 
Enter initial values for the solution:
x0: y0: Enter the step size (h): Enter the x value to find the solution at: Enter the true value of the function at the target point: 

ITERATIONS
f(0.000000)=1.000000
f(0.010000)=0.990050
f(0.020000)=0.980199
f(0.030000)=0.970446
f(0.040000)=0.960789
f(0.050000)=0.951229
f(0.060000)=0.941765
f(0.070000)=0.932394
f(0.080000)=0.923116
f(0.090000)=0.913931
f(0.100000)=0.904837
f(0.110000)=0.895834
f(0.120000)=0.886921
f(0.130000)=0.878096
f(0.140000)=0.869358
f(0.150000)=0.860708
f(0.160000)=0.852144
f(0.170000)=0.843665
f(0.180000)=0.835270
f(0.190000)=0.826959
f(0.200000)=0.818731
f(0.210000)=0.810584
f(0.220000)=0.802519
f(0.230000)=0.794534
f(0.240000)=0.786628
f(0.250000)=0.778801
f(0.260000)=0.771052
f(0.270000)=0.763380
f(0.280000)=0.755784
f(0.290000)=0.748264
f(0.300000)=0.740818
f(0.310000)=0.733447
f(0.320000)=0.726149
f(0.330000)=0.718924
f(0.340000)=0.711770
f(0.350000)=0.704688
f(0.360000)=0.697676
f(0.370000)=0.690734
f(0.380000)=0.683861
f(0.390000)=0.677057
f(0.400000)=0.670320
f(0.410000)=0.663650
f(0.420000)=0.657047
f(0.430000)=0.650509
f(0.440000)=0.644037
f(0.450000)=0.637628
f(0.460000)=0.631284
f(0.470000)=0.625002
f(0.480000)=0.618784
f(0.490000)=0.612627
f(0.500000)=0.606531
f(0.510000)=0.600496
f(0.520000)=0.594521
f(0.530000)=0.588605
f(0.540000)=0.582748
f(0.550000)=0.576950
f(0.560000)=0.571209
f(0.570000)=0.565526
f(0.580000)=0.559899
f(0.590000)=0.554327
f(0.600000)=0.548812
f(0.610000)=0.543351
f(0.620000)=0.537945
f(0.630000)=0.532592
f(0.640000)=0.527293
f(0.650000)=0.522046
f(0.660000)=0.516852
f(0.670000)=0.511709
f(0.680000)=0.506617
f(0.690000)=0.501576
f(0.700000)=0.496585
f(0.710000)=0.491644
f(0.720000)=0.486752
f(0.730000)=0.481909
f(0.740000)=0.477114
f(0.750000)=0.472367
f(0.760000)=0.467667
f(0.770000)=0.463013
f(0.780000)=0.458406
f(0.790000)=0.453845
f(0.800000)=0.449329
f(0.810000)=0.444858
f(0.820000)=0.440432
f(0.830000)=0.436049
f(0.839999)=0.431711
f(0.849999)=0.427415
f(0.859999)=0.423162
f(0.869999)=0.418952
f(0.879999)=0.414783
f(0.889999)=0.410656
f(0.899999)=0.406570
f(0.909999)=0.402524
f(0.919999)=0.398519
f(0.929999)=0.394554
f(0.939999)=0.390628
f(0.949999)=0.386741
f(0.959999)=0.382893
f(0.969999)=0.379083
f(0.979999)=0.375311
f(0.989999)=0.371577
y(1.000000) = 0.367880
Approximate value of the equation at point 1.000000: 0.367880
Absolute error: 0.000001
".

(** The complete standard output of [runge.c] on the specification's
    check ([y' + y = 0] from [(0, 1)] to [x = 1] with [h = 0.01]): the
    banner, the prompts (each answer is read from the typed text, which is
    consumed entirely), the equation [1*y' + 1*y = ] with nothing after
    the [=] for the empty [g], [ITERATIONS], one line [f(x)=y] per step
    with six decimals, in which the drift of [x] shows from the 85th line
    on ([f(0.839999)=...] where [x0 + 84 h = 0.84]), then the result
    [0.367880] twice and the absolute error [0.000001]; [main] returns
    [0]. *)
Example check_run_transcript :
  let r := @main IEEEArith (mkWorld (words check_input) [] []) in
  snd r = Normal 0 /\ w_input (fst r) = []
  /\ stdout_text (w_output (fst r)) = Some check_transcript.
Proof. cbv zeta; split; [vm_refl | split; vm_refl]. Qed.
