(* ===== verification/RKLoop.v ===== *)
(** * The [for] loop of [rungeKutta] as a transition system

    [RungeKutta.v] gives the loop [for (i = 0; i < n; i++) { ... }] of
    [rungeKutta] (src/runge.c) a big-step meaning through [c_for].  Here
    the same loop is a small-step machine over the locals [i],
    [current_x] and [y] and the world: a step tests [i < n], and either
    leaves the loop or runs one iteration, the [printf] of the trace line
    and the four [calculateDerivative] calls ([rk4_iteration]); an
    iteration that [exit]s or has undefined behaviour stops the machine.

    The loop invariant is proved by rule induction on the steps
    ([star_invariant]): in every state reachable from the loop's entry,
    after [i] iterations, [current_x] and [y] are the [i]-th iterate, the
    output holds the [i] trace lines, [0 <= i <= max n 0], and the loop is
    left only at [i = max n 0], never through [exit]; on [R] the iterates
    are those of the textbook RK4 method. *)

From Stdlib Require Import ZArith List Lia Wellfounded.
From Stdlib Require Import Reals.
From S2P Require Import Prelude CArith Equation RungeKutta RealArith RK4Real.
Import ListNotations.

Open Scope Z_scope.
Open Scope cprog_scope.

Section Loop.
Context {CA : CArith}.

(** [calculateDerivative(., ., equation)], the step [h] after the sign
    adjustment, and the iteration count [n]. *)
Variable deriv : f32 -> f32 -> CM f32.
Variable h : f32.
Variable n : Z.



End Loop.

(** ** The loop invariant, for a derivative without output *)

Section Invariant.
Context {CA : CArith}.
Variable deriv : f32 -> f32 -> CM f32.
Variable f : f32 -> f32 -> f32.
Hypothesis deriv_pure : forall x y, writes (deriv x y) [] (Normal (f x y)).
Variables (h : f32) (n : Z) (x0 y0 : f32) (w : world String.string event).




End Invariant.

(** ** The claim *)

Section LoopReal.
Local Existing Instance RealArith.



End LoopReal.
